(** * co-weibo-oauth: a shallow embedding of [lib/oauth.js]

    The library is a small OAuth2 client: it builds authorize URLs, mints and
    refreshes access tokens over HTTP, keeps them in a pluggable token store
    and fetches a user profile with a transparent refresh of a stale token.

    The embedding follows the JavaScript code:
    - JavaScript values are primitives or references to objects of a heap;
      objects are finite maps from property names to values, so that two
      references to one object see each other's writes;
    - generator functions become computations of a state and error monad
      over a world made of the heap and the trace of effects;
    - the HTTP transport ([urllib.requestThunk]) and the clock
      ([new Date().getTime()]) are oracles: parameters of the development.

    Scope of the model.  Numbers are the doubles without a fractional part
    (timestamps in milliseconds, durations in seconds), the infinities and
    [NaN]; their arithmetic rounds as binary64 does.  Objects are plain
    records of data properties, arrays and functions are not values of the
    model; the conversion of a string to a number is not modelled, a
    computation that needs one ends in [Unmodelled]. *)

From Stdlib Require Import ZArith String Ascii List.
From stdpp Require Import gmap strings list fin_maps pretty.

Set Warnings "-register-all".

Open Scope Z_scope.
Open Scope string_scope.

(** ** Numbers *)

(** A number: [NaN], an infinity, or the double of integer value [z]. *)
Inductive num :=
  | NaN
  | Fin (z : Z)
  | Inf (negative : bool).

Coercion Fin : Z >-> num.

#[global] Instance num_eq_dec : EqDecision num.
Proof. solve_decision. Defined.

(** The double nearest to the integer [z], ties to the even mantissa: the
    result of an arithmetic operation whose exact value is [z], and the
    number a decimal literal of value [z] denotes.  Every integer up to
    [2^53] is a double; above, a double has 53 significant bits, and what
    rounds to [2^1024] or more is an infinity. *)
Definition round64 (z : Z) : num :=
  let a := Z.abs z in
  if (a <=? 2 ^ 53)%Z then Fin z
  else
    let ulp := 2 ^ (Z.log2 a - 52) in
    let q := a / ulp in
    let r := a mod ulp in
    let q' := if (ulp <? 2 * r)%Z || ((ulp =? 2 * r)%Z && Z.odd q)
              then q + 1 else q in
    if (2 ^ 1024 <=? q' * ulp)%Z then Inf (z <? 0)%Z
    else Fin (Z.sgn z * (q' * ulp)).

(** The sign of a number that is not [NaN]: negative, zero or positive. *)
Definition num_sgn (a : num) : Z :=
  match a with
  | NaN => 0
  | Fin z => Z.sgn z
  | Inf s => if s then -1 else 1
  end.

(** [a * b] *)
Definition num_mul (a b : num) : num :=
  match a, b with
  | NaN, _ | _, NaN => NaN
  | Fin x, Fin y => round64 (x * y)
  | _, _ =>
      match (num_sgn a * num_sgn b)%Z with
      | Z0 => NaN
      | Zpos _ => Inf false
      | Zneg _ => Inf true
      end
  end.

(** [a + b] *)
Definition num_add (a b : num) : num :=
  match a, b with
  | NaN, _ | _, NaN => NaN
  | Fin x, Fin y => round64 (x + y)
  | Inf s, Fin _ | Fin _, Inf s => Inf s
  | Inf s, Inf s' => if Bool.eqb s s' then Inf s else NaN
  end.

(** [a < b] on numbers: false as soon as one side is [NaN]. *)
Definition num_lt (a b : num) : bool :=
  match a, b with
  | NaN, _ | _, NaN => false
  | Fin x, Fin y => Z.ltb x y
  | Inf s, Fin _ => s
  | Fin _, Inf s => negb s
  | Inf s, Inf s' => s && negb s'
  end.

(** *** [Number::toString] *)

Definition decimal (z : Z) : string := pretty z.

Definition zeros (n : nat) : string := String.concat "" (repeat "0" n).

Definition rounds_to (exact z : Z) : bool :=
  match round64 exact with
  | Fin y => (y =? z)%Z
  | _ => false
  end.

(** The digits of the positive double [z], which has [digits] decimal
    digits, when [k] of them are enough: an [s] of at most [k] digits such
    that [s * 10^(digits-k)] is a number that rounds to [z]; of two, the
    closest to [z], and the even one when they are as close. *)
Definition candidate (z : Z) (digits k : nat) : option Z :=
  let m := 10 ^ Z.of_nat (digits - k) in
  let lo := z / m in
  let hi := lo + 1 in
  let ok_lo := rounds_to (lo * m) z in
  let ok_hi := (hi <? 10 ^ Z.of_nat k)%Z && rounds_to (hi * m) z in
  match ok_lo, ok_hi with
  | true, true =>
      let dl := z - lo * m in
      let dh := hi * m - z in
      if (dl <? dh)%Z then Some lo
      else if (dh <? dl)%Z then Some hi
      else if Z.even lo then Some lo else Some hi
  | true, false => Some lo
  | false, true => Some hi
  | false, false => None
  end.

(** The least number of digits that is enough, and the digits. *)
Fixpoint shortest (z : Z) (digits : nat) (ks : list nat) : option (Z * nat) :=
  match ks with
  | [] => None
  | k :: ks' =>
      match candidate z digits k with
      | Some s => Some (s, k)
      | None => shortest z digits ks'
      end
  end.

(** The text of a positive double: its shortest digits [s], [k] of them,
    with [s * 10^(n-k)] rounding to it; followed by zeros up to [n] digits
    when [n <= 21], and in the form [d.ddde+x] beyond. *)
Definition positive_to_string (z : Z) : string :=
  let digits := String.length (decimal z) in
  match shortest z digits (seq 1 digits) with
  | None => decimal z
  | Some (s, k) =>
      (* the power of ten that is one digit longer may round to [z] too *)
      let '(s, k, n) :=
        if rounds_to (10 ^ Z.of_nat digits) z
        then (1, 1%nat, S digits) else (s, k, digits) in
      if (n <=? 21)%nat then decimal s ++ zeros (n - k)
      else
        match decimal s with
        | String c rest =>
            String c (if (k =? 1)%nat then "" else "." ++ rest)
              ++ "e+" ++ decimal (Z.of_nat (n - 1))
        | EmptyString => EmptyString
        end
  end.

Definition number_to_string (n : num) : string :=
  match n with
  | NaN => "NaN"
  | Inf false => "Infinity"
  | Inf true => "-Infinity"
  | Fin z =>
      if (z =? 0)%Z then "0"
      else if (z <? 0)%Z then "-" ++ positive_to_string (- z)
      else positive_to_string z
  end.

(** ** Values and objects *)

Definition loc := nat.

Inductive value :=
  | VUndef
  | VNull
  | VBool (b : bool)
  | VNum (n : num)
  | VStr (s : string)
  | VRef (l : loc).

#[global] Instance value_eq_dec : EqDecision value.
Proof. solve_decision. Defined.

#[global] Instance value_inhabited : Inhabited value := populate VUndef.

(** An object: its own enumerable data properties. *)
Abbreviation obj := (gmap string value).

(** The heap of objects. *)
Abbreviation heap := (gmap loc obj).

(** The object a reference points at.  Every reference the code handles
    points at an allocated object; a reference at no object reads as an
    object without properties. *)
Definition obj_at (h : heap) (l : loc) : obj := default ∅ (h !! l).

(** ** Conversions of JavaScript *)

(** [ToBoolean]: what [!x], [x || y] and [if (x)] test. *)
Definition truthy (v : value) : bool :=
  match v with
  | VUndef | VNull => false
  | VBool b => b
  | VNum NaN => false
  | VNum (Fin z) => negb (Z.eqb z 0)
  | VNum (Inf _) => true
  | VStr s => negb (String.eqb s "")
  | VRef _ => true
  end.

(** [x || y] *)
Definition js_or (x y : value) : value := if truthy x then x else y.

(** [ToString] of a primitive; [[object Object]] is what the [toString] of
    [Object.prototype] gives for an object. *)
Definition text (v : value) : string :=
  match v with
  | VUndef => "undefined"
  | VNull => "null"
  | VBool true => "true"
  | VBool false => "false"
  | VNum n => number_to_string n
  | VStr s => s
  | VRef _ => "[object Object]"
  end.

Definition primitive (v : value) : bool :=
  match v with
  | VRef _ => false
  | _ => true
  end.

(** [typeof v === 'object'] *)
Definition typeof_object (v : value) : bool :=
  match v with
  | VNull | VRef _ => true
  | _ => false
  end.

(** [ToNumber].  [None]: the conversion is not modelled (a string has to be
    parsed, an object has to be converted to a primitive first). *)
Definition to_number (v : value) : option num :=
  match v with
  | VUndef => Some NaN
  | VNull => Some (Fin 0)
  | VBool b => Some (Fin (if b then 1 else 0))
  | VNum n => Some n
  | VStr _ | VRef _ => None
  end.

(** ** Errors *)

(** An [Error] object that is thrown: its [name], [message] and [code]
    properties.  The text of the messages the engine writes itself (for a
    [TypeError]) is not modelled. *)
Record exn := JsError {
  err_name : string;
  err_message : string;
  err_code : value
}.

Definition type_error : exn := JsError "TypeError" "" VUndef.

(** An [Error] with the message [m]. *)
Definition mk_error (m : string) : exn := JsError "Error" m VUndef.

Definition set_name (n : string) (e : exn) : exn :=
  JsError n (err_message e) (err_code e).

Definition set_code (c : value) (e : exn) : exn :=
  JsError (err_name e) (err_message e) c.

(** ** What crosses the network *)

(** A decoded JSON body. *)
Inductive json :=
  | JNull
  | JBool (b : bool)
  | JNum (z : Z)
  | JStr (s : string)
  | JObj (kvs : list (string * json)).

(** What the transport is handed: the options object, read through the
    references it holds.  [TCut] stands where the reading stopped. *)
Inductive tree :=
  | TLeaf (v : value)
  | TObj (kvs : list (string * tree))
  | TCut.

(** The answer of [urllib.requestThunk]: it throws, or yields a result with
    an HTTP status and the decoded [data]. *)
Inductive response :=
  | RespFail (e : exn)
  | RespOk (status : Z) (body : json).

(** ** The world: heap and trace of effects *)

Inductive event :=
  | EHttp (url : string) (options : loc) (h : heap)
  | ENow (t : Z)
  | EWarn (msg : string).

Record world := World {
  w_heap : heap;
  w_trace : list event
}.

Inductive outcome (A : Type) :=
  | Ok (a : A)
  | Throw (e : exn)
  | Unmodelled.
Arguments Ok {A} a.
Arguments Throw {A} e.
Arguments Unmodelled {A}.

Definition M (A : Type) : Type := world -> outcome A * world.

Definition ret {A} (a : A) : M A := fun w => (Ok a, w).

Definition bind {A B} (m : M A) (k : A -> M B) : M B :=
  fun w =>
    match m w with
    | (Ok a, w') => k a w'
    | (Throw e, w') => (Throw e, w')
    | (Unmodelled, w') => (Unmodelled, w')
    end.

Definition throw {A} (e : exn) : M A := fun w => (Throw e, w).

Definition unmodelled {A} : M A := fun w => (Unmodelled, w).

Declare Scope js_scope.
Delimit Scope js_scope with js.
Notation "'let*' x := m 'in' k" := (bind m (fun x => k))
  (at level 10, x name, m at level 100, k at level 200) : js_scope.
Notation "m ;;; k" := (bind m (fun _ => k))
  (at level 100, k at level 200, right associativity) : js_scope.
Open Scope js_scope.

(** [try { m } catch (err) { throw f err }] *)
Definition catch_rethrow {A} (m : M A) (f : exn -> exn) : M A :=
  fun w =>
    match m w with
    | (Throw e, w') => (Throw (f e), w')
    | r => r
    end.

(** *** Heap operations *)

(** [ToString] of a value.  The objects of the model hold data only: an
    object with a [toString] of its own has one that cannot be called, and
    the conversion is a [TypeError]. *)
Definition to_string (v : value) : M string :=
  fun w =>
    match v with
    | VRef l =>
        match obj_at (w_heap w) l !! "toString" with
        | Some _ => (Throw type_error, w)
        | None => (Ok "[object Object]", w)
        end
    | _ => (Ok (text v), w)
    end.

(** [new Error(m)]: the message is [ToString m], and is empty when [m] is
    undefined. *)
Definition new_Error (m : value) : M exn :=
  match m with
  | VUndef => ret (mk_error "")
  | _ => let* s := to_string m in ret (mk_error s)
  end.

(** [{...}]: a new object. *)
Definition alloc (o : obj) : M loc :=
  fun w =>
    let l := fresh (dom (w_heap w)) in
    (Ok l, World (<[l := o]> (w_heap w)) (w_trace w)).

(** [v.k] where [k] is none of the names of a prototype: a [TypeError] on
    [undefined] and [null], the own property of an object, [undefined] on
    the other primitives. *)
Definition get_field (v : value) (k : string) : M value :=
  fun w =>
    match v with
    | VUndef | VNull => (Throw type_error, w)
    | VRef l => (Ok (default VUndef (obj_at (w_heap w) l !! k)), w)
    | _ => (Ok VUndef, w)
    end.

(** [v.k = x] in strict mode: a [TypeError] on every primitive. *)
Definition set_field (v : value) (k : string) (x : value) : M unit :=
  fun w =>
    match v with
    | VRef l =>
        (Ok tt, World (<[l := <[k := x]> (obj_at (w_heap w) l)]> (w_heap w))
                      (w_trace w))
    | _ => (Throw type_error, w)
    end.

(** [extend(target, source)] of lodash on two objects: every property of the
    source is assigned to the target. *)
Definition extend (target source : loc) : M unit :=
  fun w =>
    let h := w_heap w in
    (Ok tt, World (<[target := obj_at h source ∪ obj_at h target]> h)
                  (w_trace w)).

(** The property names a [for ... in] goes through. The order is the one of
    the finite map; [request] below does not depend on it. *)
Definition own_keys (l : loc) : M (list string) :=
  fun w => (Ok (map_to_list (obj_at (w_heap w) l)).*1, w).

Fixpoint for_each {A} (xs : list A) (body : A -> M unit) : M unit :=
  match xs with
  | [] => ret tt
  | x :: rest => body x;;; for_each rest body
  end.

(** The properties of a decoded object, from left to right; a later
    occurrence of a key overrides an earlier one. *)
Definition alloc_fields (alloc_value : json -> heap -> value * heap) :=
  fix fields (acc : obj) (kvs : list (string * json)) (h : heap)
    : obj * heap :=
    match kvs with
    | [] => (acc, h)
    | kv :: rest =>
        let '(v, h1) := alloc_value kv.2 h in
        fields (<[kv.1 := v]> acc) rest h1
    end.

(** The decoded body becomes values and objects of the heap. *)
Fixpoint alloc_json (j : json) (h : heap) : value * heap :=
  match j with
  | JNull => (VNull, h)
  | JBool b => (VBool b, h)
  | JNum z => (VNum (round64 z), h)
  | JStr s => (VStr s, h)
  | JObj kvs =>
      let '(o, h') := alloc_fields alloc_json ∅ kvs h in
      let l := fresh (dom h') in
      (VRef l, <[l := o]> h')
  end.

Definition decode (j : json) : M value :=
  fun w =>
    let '(v, h') := alloc_json j (w_heap w) in
    (Ok v, World h' (w_trace w)).

(** The options object as the transport reads it, [n] references deep. *)
Fixpoint snap (n : nat) (h : heap) (v : value) : tree :=
  match v with
  | VRef l =>
      match n with
      | O => TCut
      | S n' =>
          TObj (List.map (fun kv => (kv.1, snap n' h kv.2))
                         (map_to_list (obj_at h l)))
      end
  | _ => TLeaf v
  end.

(** No chain of distinct objects is longer than the heap. *)
Definition snapshot (h : heap) (v : value) : tree := snap (size h) h v.

Definition observe (e : event) : option (string * tree) :=
  match e with
  | EHttp url l h => Some (url, snapshot h (VRef l))
  | _ => None
  end.

(** The requests of a trace, as the network sees them. *)
Definition requests (tr : list event) : list (string * tree) :=
  omap observe tr.

(** ** [querystring.stringify] of Node *)

(** The characters [querystring.escape] leaves as they are. *)
Definition unreserved (c : ascii) : bool :=
  let n := N_of_ascii c in
  ((65 <=? n) && (n <=? 90) || (97 <=? n) && (n <=? 122)
   || (48 <=? n) && (n <=? 57))%N
  || bool_decide (c ∈ ["-"; "_"; "."; "!"; "~"; "*"; "'"; "("; ")"]%char).

Definition hex_digit (n : N) : ascii :=
  ascii_of_N (if (n <? 10)%N then 48 + n else 55 + n)%N.

(** [%XX] of a byte, in upper case. *)
Definition percent (c : ascii) : string :=
  let n := N_of_ascii c in
  String "%" (String (hex_digit (n / 16)) (String (hex_digit (n mod 16)) "")).

(** [querystring.escape], on the bytes of the UTF-8 form of the string. *)
Fixpoint escape (s : string) : string :=
  match s with
  | EmptyString => EmptyString
  | String c rest =>
      if unreserved c then String c (escape rest)
      else percent c ++ escape rest
  end.

(** [stringifyPrimitive]: strings, finite numbers and booleans are printed,
    every other value gives the empty string. *)
Definition stringifyPrimitive (v : value) : string :=
  match v with
  | VStr s => s
  | VNum (Fin z) => number_to_string (Fin z)
  | VBool b => if b then "true" else "false"
  | _ => ""
  end.

Definition join_amp (l : list string) : string :=
  match l with
  | [] => ""
  | x :: rest => fold_left (fun acc y => acc ++ "&" ++ y) rest x
  end.

(** [querystring.stringify(info)] for an object literal [info], given as its
    properties in the order of the literal. *)
Definition querystring_stringify (info : list (string * value)) : string :=
  join_amp
    (List.map (fun kv => escape kv.1 ++ "=" ++ escape (stringifyPrimitive kv.2))
              info).

(** ** The access token *)

(** [AccessToken(data)]: the wrapper holds the very [data] it is given. *)
Record AccessToken := mkAccessToken { data : value }.

(** ** The client *)

(** What [new OAuth(...)] holds: the credentials, the in-memory store, the
    two functions of the token store and the default options of urllib. *)
Record client := Client {
  clientId : value;
  clientSecret : value;
  redirectUri : value;
  store : loc;
  getToken : value -> M value;
  saveToken : value -> value -> M unit;
  defaults : loc
}.

(** The names an object inherits from [Object.prototype]. *)
Definition prototype_names : list string :=
  ["constructor"; "__defineGetter__"; "__defineSetter__"; "hasOwnProperty";
   "__lookupGetter__"; "__lookupSetter__"; "isPrototypeOf";
   "propertyIsEnumerable"; "toString"; "valueOf"; "toLocaleString"].

(** [o[k]] for a computed name [k]: the own property; a name that would be
    found on the prototype is not modelled. *)
Definition get_index (o : loc) (k : string) : M value :=
  fun w =>
    if String.eqb k "__proto__" then (Unmodelled, w)
    else
      match obj_at (w_heap w) o !! k with
      | Some v => (Ok v, w)
      | None =>
          if bool_decide (k ∈ prototype_names) then (Unmodelled, w)
          else (Ok VUndef, w)
      end.

(** [o[k] = v] for a computed name [k]; [__proto__] is not a property. *)
Definition set_index (o : loc) (k : string) (v : value) : M unit :=
  if String.eqb k "__proto__" then unmodelled
  else set_field (VRef o) k v.

(** The functions of the store when the caller gives none:
    [function * (uid) { return self.store[uid]; }] and
    [function * (uid, token) { self.store[uid] = token; }]. *)
Definition default_getToken (store : loc) (uid : value) : M value :=
  let* k := to_string uid in
  get_index store k.

Definition default_saveToken (store : loc) (uid token : value) : M unit :=
  let* k := to_string uid in
  set_index store k token.

(** [console.warn] *)
Definition warn (msg : string) : M unit :=
  fun w => (Ok tt, World (w_heap w) (w_trace w ++ [EWarn msg])).

(** The constructor; [node_env] is [process.env.NODE_ENV]. *)
Definition OAuth (node_env : value) (clientId clientSecret redirectUri : value)
    (getToken : option (value -> M value))
    (saveToken : option (value -> value -> M unit)) : M client :=
  let* store := alloc ∅ in
  (if bool_decide (saveToken = None :> option _)
      && bool_decide (node_env = VStr "production")
   then warn "Please dont save oauth token into memory under production"
   else ret tt);;;
  let* defaults := alloc ∅ in
  ret (Client clientId clientSecret redirectUri store
         (default (default_getToken store) getToken)
         (default (default_saveToken store) saveToken)
         defaults).

(** [OAuth.prototype.setOpts] *)
Definition setOpts (c : client) (opts : loc) : client :=
  Client (clientId c) (clientSecret c) (redirectUri c) (store c)
         (getToken c) (saveToken c) opts.

Section Client.

(** The transport and the clock answer as functions of the number of
    effects so far. *)
Variable transport : nat -> string -> tree -> response.
Variable clock : nat -> Z.

(** [new Date().getTime()] *)
Definition now : M Z :=
  fun w =>
    let t := clock (length (w_trace w)) in
    (Ok t, World (w_heap w) (w_trace w ++ [ENow t])).

(** [urllib.requestThunk(url, options)] *)
Definition requestThunk (url : string) (options : loc) : M (Z * json) :=
  fun w =>
    let h := w_heap w in
    let w' := World h (w_trace w ++ [EHttp url options h]) in
    match transport (length (w_trace w)) url (snapshot h (VRef options)) with
    | RespFail e => (Throw e, w')
    | RespOk st body => (Ok (st, body), w')
    end.

(** [a + b * 1000] and [t < ...] of [isValid], on numbers. *)
Definition expiry (create_at expires_in : value) : option num :=
  match to_number expires_in with
  | None => None
  | Some e =>
      match to_number create_at with
      | None => None
      | Some c => Some (num_add c (num_mul e (Fin 1000)))
      end
  end.

(** [AccessToken.prototype.isValid] *)
Definition isValid (token : AccessToken) : M bool :=
  let* at_ := get_field (data token) "access_token" in
  if truthy at_ then
    let* t := now in
    let* c := get_field (data token) "create_at" in
    let* e := get_field (data token) "expires_in" in
    match expiry c e with
    | Some limit => ret (num_lt (Fin t) limit)
    | None => unmodelled
    end
  else ret false.

(** [extend(options.headers, opts.headers)] of [request].  The headers are
    objects or the case is not modelled; neither is the case where the
    target is the object the loop goes through. *)
Definition extend_headers (opts : loc) (target source : value) : M unit :=
  match target, source with
  | VRef lt, VRef ls =>
      if bool_decide (lt = opts) then unmodelled else extend lt ls
  | _, _ => unmodelled
  end.

(** The body of the [for (const key in opts)] of [request]. *)
Definition merge_key (options opts : loc) (key : string) : M unit :=
  if negb (String.eqb key "headers") then
    if String.eqb key "__proto__" then unmodelled
    else
      let* v := get_field (VRef opts) key in
      set_field (VRef options) key v
  else
    let* h := get_field (VRef opts) "headers" in
    if truthy h then
      let* cur := get_field (VRef options) "headers" in
      let* fresh_or_cur :=
        (if truthy cur then ret cur
         else let* l := alloc ∅ in ret (VRef l)) in
      set_field (VRef options) "headers" fresh_or_cur;;;
      let* target := get_field (VRef options) "headers" in
      let* source := get_field (VRef opts) "headers" in
      extend_headers opts target source
    else ret tt.

(** The options [request] hands to the transport. *)
Definition merge_options (c : client) (opts : option loc) : M loc :=
  let* options := alloc ∅ in
  extend options (defaults c);;;
  let* opts := (match opts with
                | Some l => ret l
                | None => alloc ∅
                end) in
  let* keys := own_keys opts in
  for_each keys (merge_key options opts);;;
  ret options.

(** The end of [request]: the provider reports its errors in the body. *)
Definition check_error (data : value) : M value :=
  let* e := get_field data "error" in
  if truthy e then
    let* description := get_field data "error_description" in
    let* err := new_Error description in
    let* code := get_field data "error_code" in
    throw (set_code code (set_name "WeiboAPIError" err))
  else ret data.

(** [OAuth.prototype.request] *)
Definition request (c : client) (url : string) (opts : option loc)
  : M value :=
  let* options := merge_options c opts in
  let* result :=
    catch_rethrow (requestThunk url options)
      (fun err => set_name ("WeiboAPI" ++ err_name err) err) in
  let* data := decode result.2 in
  check_error data.

(** [OAuth.prototype.getAuthorizeURL] *)
Definition getAuthorizeURL (c : client) (redirect state scope : value)
  : string :=
  let url := "https://api.weibo.com/oauth2/authorize" in
  let info :=
    [("client_id", clientId c);
     ("redirect_uri", redirectUri c);
     ("response_type", VStr "code");
     ("scope", js_or scope (VStr "users_show"));
     ("state", js_or state (VStr ""))] in
  url ++ "?" ++ querystring_stringify info ++ "#weibo_redirect".

(** [OAuth.prototype.getAuthorizeURLForWebsite] *)
Definition getAuthorizeURLForWebsite (c : client)
    (redirect state scope : value) : string :=
  let url := "https://open.weibo.cn/oauth2/authorize" in
  let info :=
    [("client_id", clientId c);
     ("redirect_uri", redirectUri c);
     ("response_type", VStr "code");
     ("scope", js_or scope (VStr "users_show"));
     ("state", js_or state (VStr ""))] in
  url ++ "?" ++ querystring_stringify info ++ "#weibo_redirect".

(** [OAuth.prototype.processToken] *)
Definition processToken (c : client) (data : value) : M AccessToken :=
  let* t := now in
  set_field data "create_at" (VNum (Fin t));;;
  let* uid := get_field data "uid" in
  saveToken c uid data;;;
  ret (mkAccessToken data).

(** [OAuth.prototype.getAccessToken] *)
Definition getAccessToken (c : client) (code : value) : M AccessToken :=
  let url := "https://api.weibo.com/oauth2/access_token" in
  let* info := alloc (list_to_map
    [("client_id", clientId c);
     ("client_secret", clientSecret c);
     ("code", code);
     ("grant_type", VStr "authorization_code");
     ("redirect_uri", redirectUri c)]) in
  let* args := alloc (list_to_map
    [("method", VStr "POST");
     ("data", VRef info);
     ("dataType", VStr "json")]) in
  let* data := request c url (Some args) in
  processToken c data.

(** [OAuth.prototype.getTokenInfo] *)
Definition getTokenInfo (c : client) (accessToken : value) : M value :=
  let url := "https://api.weibo.com/oauth2/get_token_info" in
  let* info := alloc (list_to_map [("access_token", accessToken)]) in
  let* args := alloc (list_to_map
    [("data", VRef info);
     ("dataType", VStr "json")]) in
  request c url (Some args).

(** [OAuth.prototype.refreshAccessToken] *)
Definition refreshAccessToken (c : client) (refreshToken : value)
  : M AccessToken :=
  let url := "https://api.weibo.com/oauth2/access_token" in
  let* info := alloc (list_to_map
    [("client_id", clientId c);
     ("client_secret", clientSecret c);
     ("grant_type", VStr "refresh_token");
     ("redirect_uri", redirectUri c);
     ("refresh_token", refreshToken)]) in
  let* args := alloc (list_to_map
    [("data", VRef info);
     ("dataType", VStr "json")]) in
  let* data := request c url (Some args) in
  processToken c data.

(** [OAuth.prototype._getUser] *)
Definition _getUser (c : client) (options accessToken : value) : M value :=
  let url := "https://api.weibo.com/2/users/show.json" in
  let* uid := get_field options "uid" in
  let* lang := get_field options "lang" in
  let* info := alloc (list_to_map
    [("access_token", accessToken);
     ("uid", uid);
     ("lang", js_or lang (VStr "en"))]) in
  let* args := alloc (list_to_map
    [("data", VRef info);
     ("dataType", VStr "json")]) in
  request c url (Some args).

(** [OAuth.prototype.getUser] *)
Definition getUser (c : client) (options : value) : M value :=
  let* options :=
    (if negb (typeof_object options)
     then let* l := alloc (list_to_map [("uid", options)]) in ret (VRef l)
     else ret options) in
  let* uid := get_field options "uid" in
  let* data' := getToken c uid in
  if negb (truthy data') then
    let* uid := get_field options "uid" in
    let* k := to_string uid in
    let* err := new_Error (VStr ("No token for " ++ k
                                 ++ ", please authorize first.")) in
    throw (set_name "NoOAuthTokenError" err)
  else
    let token := mkAccessToken data' in
    let* valid := isValid token in
    let* accessToken :=
      (if valid then get_field (data token) "access_token"
       else
         let* refresh_token := get_field (data token) "refresh_token" in
         let* newToken := refreshAccessToken c refresh_token in
         get_field (data newToken) "access_token") in
    _getUser c options accessToken.

(** [OAuth.prototype.getUser2] *)
Definition getUser2 (c : client) (uid accessToken : value) : M value :=
  let* options := alloc (list_to_map [("uid", uid)]) in
  _getUser c (VRef options) accessToken.

(** [OAuth.prototype._verifyToken] *)
Definition _verifyToken (c : client) (accessToken : value) : M value :=
  getTokenInfo c accessToken.

(** [OAuth.prototype.getUserByAccessToken] *)
Definition getUserByAccessToken (c : client) (accessToken : value)
  : M value :=
  let* tokenInfo := getTokenInfo c accessToken in
  let* uid := get_field tokenInfo "uid" in
  getUser c uid.

(** [OAuth.prototype.getUserByCode] *)
Definition getUserByCode (c : client) (code : value) : M value :=
  let* token := getAccessToken c code in
  let* uid := get_field (data token) "uid" in
  getUser c uid.

End Client.

(** * Properties *)

(** ** Running a computation *)

Lemma bind_Ok {A B} (m : M A) (k : A -> M B) w a w' :
  m w = (Ok a, w') -> bind m k w = k a w'.
Proof. intros H. unfold bind. rewrite H. reflexivity. Qed.

Lemma bind_Throw {A B} (m : M A) (k : A -> M B) w e w' :
  m w = (Throw e, w') -> bind m k w = (Throw e, w').
Proof. intros H. unfold bind. rewrite H. reflexivity. Qed.

Lemma bind_Unmodelled {A B} (m : M A) (k : A -> M B) w w' :
  m w = (Unmodelled, w') -> bind m k w = (Unmodelled, w').
Proof. intros H. unfold bind. rewrite H. reflexivity. Qed.

Lemma get_field_ref l k w :
  get_field (VRef l) k w = (Ok (default VUndef (obj_at (w_heap w) l !! k)), w).
Proof. reflexivity. Qed.

Lemma obj_at_Some h l o : h !! l = Some o -> obj_at h l = o.
Proof. intros H. unfold obj_at. rewrite H. reflexivity. Qed.

Lemma obj_at_insert_eq h l o : obj_at (<[l := o]> h) l = o.
Proof. unfold obj_at. by rewrite lookup_insert_eq. Qed.

Lemma obj_at_insert_ne h l l' o :
  l <> l' -> obj_at (<[l := o]> h) l' = obj_at h l'.
Proof. intros H. unfold obj_at. by rewrite lookup_insert_ne. Qed.

Lemma to_string_primitive v w :
  primitive v = true -> to_string v w = (Ok (text v), w).
Proof. destruct v; try reflexivity; discriminate. Qed.

Lemma new_Error_text s w : new_Error (VStr s) w = (Ok (mk_error s), w).
Proof. reflexivity. Qed.

(** One step of a computation whose head is an operation of the heap. *)
Ltac exec :=
  cbn [negb bind ret throw unmodelled alloc get_field set_field extend
       own_keys decode warn w_heap w_trace data fst snd typeof_object].

(** ** The loop of [request] *)

Lemma for_each_app {A} (xs ys : list A) (body : A -> M unit) (w : world) :
  for_each (xs ++ ys) body w = (for_each xs body;;; for_each ys body) w.
Proof.
  revert w. induction xs as [| x xs IH]; intros w; [reflexivity |].
  change (for_each ((x :: xs) ++ ys) body w)
    with ((body x;;; for_each (xs ++ ys) body) w).
  change (for_each (x :: xs) body) with (body x;;; for_each xs body).
  unfold bind.
  destruct (body x w) as [[[] | e |] w']; try reflexivity.
  apply IH.
Qed.

(** The properties [ks] of [src] assigned to [acc], one after the other. *)
Definition assign_keys (src : obj) (ks : list string) (acc : obj) : obj :=
  foldl (fun o k => <[k := default VUndef (src !! k)]> o) acc ks.

Lemma lookup_assign_keys (src : obj) (ks : list string) (acc : obj) (k : string) :
  assign_keys src ks acc !! k
  = if bool_decide (k ∈ ks) then Some (default VUndef (src !! k)) else acc !! k.
Proof.
  unfold assign_keys. revert acc.
  induction ks as [| k' ks IH]; intros acc; [reflexivity |].
  cbn [foldl]. rewrite IH.
  destruct (decide (k ∈ ks)) as [Hin | Hnin].
  - rewrite !bool_decide_eq_true_2; [reflexivity | by right | done].
  - rewrite (bool_decide_eq_false_2 _ Hnin).
    destruct (decide (k = k')) as [-> | Hne].
    + rewrite lookup_insert_eq, bool_decide_eq_true_2; [reflexivity | by left].
    + rewrite lookup_insert_ne by done.
      rewrite bool_decide_eq_false_2; [reflexivity |].
      rewrite elem_of_cons. tauto.
Qed.

Lemma assign_all_keys (src acc : obj) :
  assign_keys src (map_to_list src).*1 acc = src ∪ acc.
Proof.
  apply map_eq. intros k. rewrite lookup_assign_keys, lookup_union.
  destruct (src !! k) as [v |] eqn:Hk.
  - rewrite bool_decide_eq_true_2; [by destruct (acc !! k) |].
    apply list_elem_of_fmap. exists (k, v). split; [done |].
    by apply elem_of_map_to_list.
  - rewrite bool_decide_eq_false_2; [by destruct (acc !! k) |].
    intros Hin. apply list_elem_of_fmap in Hin as [[k' v] [-> Hin]].
    apply elem_of_map_to_list in Hin. simpl in Hk. congruence.
Qed.

Lemma merge_plain_keys (options lo : loc) (ks : list string) (h : heap)
    (tr : list event) (o0 : obj) :
  options <> lo ->
  h !! options = Some o0 ->
  Forall (fun k => k <> "headers" /\ k <> "__proto__") ks ->
  for_each ks (merge_key options lo) (World h tr)
  = (Ok tt, World (<[options := assign_keys (obj_at h lo) ks o0]> h) tr).
Proof.
  intros Hne. revert h o0.
  induction ks as [| k ks IH]; intros h o0 Ho Hks.
  - cbn. by rewrite insert_id.
  - apply Forall_cons in Hks as [[Hk1 Hk2] Hks].
    cbn [for_each]. unfold merge_key at 1.
    apply String.eqb_neq in Hk1, Hk2. rewrite Hk1, Hk2. exec.
    rewrite (obj_at_Some _ _ _ Ho).
    rewrite (IH _ (<[k := default VUndef (obj_at h lo !! k)]> o0));
      [| by rewrite lookup_insert_eq | done].
    rewrite obj_at_insert_ne by done.
    by rewrite insert_insert_eq.
Qed.

Definition headers_of (o : obj) : value := default VUndef (o !! "headers").

(** The properties a headers value contributes. *)
Definition header_fields (h : heap) (v : value) : obj :=
  match v with
  | VRef l => obj_at h l
  | _ => ∅
  end.

Lemma fresh_heap_ne (h : heap) (l : loc) :
  is_Some (h !! l) -> fresh (dom h) <> l.
Proof.
  intros Hl E. apply (is_fresh (dom h)). rewrite E. by apply elem_of_dom.
Qed.

Lemma fresh_heap_None (h : heap) : h !! fresh (dom h) = None.
Proof. apply not_elem_of_dom. apply is_fresh. Qed.

Lemma obj_at_fresh (h : heap) : obj_at h (fresh (dom h)) = ∅.
Proof. unfold obj_at. by rewrite fresh_heap_None. Qed.

(** The step of the loop of [request] at the key [headers], when the
    per-call headers are falsy. *)
Lemma merge_headers_falsy (options lo : loc) (h : heap) (tr : list event) :
  truthy (headers_of (obj_at h lo)) = false ->
  merge_key options lo "headers" (World h tr) = (Ok tt, World h tr).
Proof.
  intros Hf. unfold merge_key. cbn [String.eqb Ascii.eqb Bool.eqb negb].
  exec. fold (headers_of (obj_at h lo)). rewrite Hf. reflexivity.
Qed.

(** The same step when both sides have a headers object. *)
Lemma merge_headers_both (options lo ls lt : loc) (h : heap)
    (tr : list event) (o1 : obj) :
  h !! options = Some o1 ->
  headers_of (obj_at h lo) = VRef ls ->
  o1 !! "headers" = Some (VRef lt) ->
  options <> lo -> lt <> lo -> lt <> options -> ls <> options ->
  merge_key options lo "headers" (World h tr)
  = (Ok tt, World (<[lt := obj_at h ls ∪ obj_at h lt]> h) tr).
Proof.
  intros Ho Hs Ht Hne1 Hne2 Hne3 Hne4.
  unfold merge_key. cbn [String.eqb Ascii.eqb Bool.eqb negb].
  exec. fold (headers_of (obj_at h lo)). rewrite Hs. cbn [truthy].
  exec. rewrite (obj_at_Some _ _ _ Ho), Ht. cbn [default from_option id truthy].
  exec. rewrite (obj_at_Some _ _ _ Ho), (insert_id o1 _ _ Ht), (insert_id h _ _ Ho).
  rewrite (obj_at_Some _ _ _ Ho), Ht. cbn [default from_option id].
  fold (headers_of (obj_at h lo)). rewrite Hs.
  unfold extend_headers. rewrite bool_decide_eq_false_2 by done.
  reflexivity.
Qed.

(** The same step when only the call has a headers object: a new object
    receives its properties. *)
Lemma merge_headers_new (options lo ls : loc) (h : heap)
    (tr : list event) (o1 : obj) :
  h !! options = Some o1 ->
  headers_of (obj_at h lo) = VRef ls ->
  truthy (headers_of o1) = false ->
  options <> lo -> ls <> options ->
  is_Some (h !! lo) -> is_Some (h !! ls) ->
  let T := fresh (dom h) in
  merge_key options lo "headers" (World h tr)
  = (Ok tt,
     World (<[T := obj_at h ls]>
              (<[options := <["headers" := VRef T]> o1]> h)) tr).
Proof.
  intros Ho Hs Ht Hne Hne' Hlo Hls T.
  assert (T <> options) as HT1 by (apply fresh_heap_ne; eauto).
  assert (T <> lo) as HT2 by (by apply fresh_heap_ne).
  assert (T <> ls) as HT3 by (by apply fresh_heap_ne).
  unfold merge_key. cbn [String.eqb Ascii.eqb Bool.eqb negb].
  exec. fold (headers_of (obj_at h lo)). rewrite Hs. cbn [truthy].
  exec. rewrite (obj_at_Some _ _ _ Ho). fold (headers_of o1). rewrite Ht.
  exec. fold T.
  rewrite (obj_at_insert_ne _ T options) by done.
  rewrite (obj_at_Some _ _ _ Ho).
  rewrite obj_at_insert_eq, lookup_insert_eq. cbn [default from_option id].
  rewrite (obj_at_insert_ne _ options lo) by done.
  rewrite (obj_at_insert_ne _ T lo) by done.
  fold (headers_of (obj_at h lo)). rewrite Hs.
  unfold extend_headers. rewrite bool_decide_eq_false_2 by done.
  exec.
  unfold extend. cbn [w_heap w_trace].
  rewrite (obj_at_insert_ne _ options ls) by done.
  rewrite (obj_at_insert_ne _ T ls) by done.
  rewrite (obj_at_insert_ne _ options T) by done.
  rewrite obj_at_insert_eq, (right_id ∅ (∪)).
  do 2 f_equal.
  rewrite (insert_insert_ne _ options T) by done.
  by rewrite insert_insert_eq.
Qed.


Lemma keys_of_obj (o : obj) (k : string) :
  k ∈ (map_to_list o).*1 <-> is_Some (o !! k).
Proof.
  split.
  - intros Hin. apply list_elem_of_fmap in Hin as [[k' v] [-> Hin]].
    apply elem_of_map_to_list in Hin. eauto.
  - intros [v Hv]. apply list_elem_of_fmap. exists (k, v).
    split; [done |]. by apply elem_of_map_to_list.
Qed.

(** The start of [request]: a new object with the default options. *)
Lemma merge_options_start (c : client) (lo : loc) (w : world) (dflt : obj) :
  w_heap w !! defaults c = Some dflt ->
  merge_options c (Some lo) w
  = (let options := fresh (dom (w_heap w)) in
     let h1 := <[options := dflt]> (w_heap w) in
     (for_each (map_to_list (obj_at h1 lo)).*1 (merge_key options lo);;;
      ret options) (World h1 (w_trace w))).
Proof.
  intros Hd. unfold merge_options. exec.
  set (options := fresh (dom (w_heap w))).
  assert (options <> defaults c) as Hne by (apply fresh_heap_ne; eauto).
  rewrite obj_at_insert_eq, (obj_at_insert_ne _ options (defaults c)) by done.
  rewrite (obj_at_Some _ _ _ Hd), (right_id ∅ (∪)), insert_insert_eq.
  reflexivity.
Qed.

(** The options of a call that has no headers: the per-call properties over
    the default ones, in a new object. *)
Lemma merge_options_plain (c : client) (lo : loc) (w : world) (oo dflt : obj) :
  w_heap w !! lo = Some oo ->
  w_heap w !! defaults c = Some dflt ->
  oo !! "headers" = None ->
  oo !! "__proto__" = None ->
  merge_options c (Some lo) w
  = (Ok (fresh (dom (w_heap w))),
     World (<[fresh (dom (w_heap w)) := oo ∪ dflt]> (w_heap w)) (w_trace w)).
Proof.
  intros Hlo Hd Hh Hp.
  rewrite (merge_options_start _ _ _ _ Hd). cbv zeta.
  set (options := fresh (dom (w_heap w))).
  assert (options <> lo) as Hne by (apply fresh_heap_ne; eauto).
  rewrite obj_at_insert_ne, (obj_at_Some _ _ _ Hlo) by done.
  erewrite bind_Ok; [reflexivity |].
  rewrite (merge_plain_keys options lo _ _ _ dflt);
    [| done | by rewrite lookup_insert_eq |].
  - rewrite obj_at_insert_ne, (obj_at_Some _ _ _ Hlo) by done.
    by rewrite assign_all_keys, insert_insert_eq.
  - apply Forall_forall. intros k Hk. apply keys_of_obj in Hk as [v Hv].
    split; intros ->; congruence.
Qed.

(** ** Numbers *)

(** The arithmetic rounds beyond [2^53], to the even mantissa on a tie, and
    overflows to an infinity. *)
Example round64_samples :
  List.map round64
    [2 ^ 53; 2 ^ 53 + 1; 2 ^ 53 + 3; 72057594037929000; - (10 ^ 23);
     10 ^ 400]
  = [Fin 9007199254740992; Fin 9007199254740992; Fin 9007199254740996;
     Fin 72057594037928992; Fin (-99999999999999991611392); Inf false].
Proof. vm_compute. reflexivity. Qed.

(** The text of a number: the fewest digits that denote it, and the form
    with an exponent from [1e21] on. *)
Example number_to_string_samples :
  List.map (fun z => number_to_string (round64 z))
    [0; -5; 1446856960; 2 ^ 53; 2 ^ 60; 10 ^ 20; 10 ^ 21; 2 ^ 70; 10 ^ 23;
     - (2 ^ 80)]
  = ["0"; "-5"; "1446856960"; "9007199254740992"; "1152921504606847000";
     "100000000000000000000"; "1e+21"; "1.1805916207174113e+21"; "1e+23";
     "-1.2089258196146292e+24"].
Proof. vm_compute. reflexivity. Qed.

(** ** The validity of a token *)



(** A token minted at time 1000 that lives 7200 seconds. *)
Definition sample_token : obj :=
  list_to_map [("access_token", VStr "AT"); ("create_at", VNum 1000);
               ("expires_in", VNum 7200); ("refresh_token", VStr "RT");
               ("uid", VStr "u1")].





(** ** The authorize URL *)

Lemma string_app_assoc (a b c : string) : (a ++ b) ++ c = a ++ (b ++ c).
Proof.
  induction a as [| x a IH]; [reflexivity |].
  change (String x ((a ++ b) ++ c) = String x (a ++ (b ++ c))).
  by rewrite IH.
Qed.

(** The query string of a list of names and texts, as the specification
    words it: [name=text] for each property, joined by [&], both sides
    percent-encoded. *)
Fixpoint encode_pairs (l : list (string * string)) : string :=
  match l with
  | [] => ""
  | [kv] => escape kv.1 ++ "=" ++ escape kv.2
  | kv :: rest => escape kv.1 ++ "=" ++ escape kv.2 ++ "&" ++ encode_pairs rest
  end.

Lemma fold_amp_app (l : list string) (a b : string) :
  fold_left (fun acc y => acc ++ "&" ++ y) l (a ++ b)
  = a ++ fold_left (fun acc y => acc ++ "&" ++ y) l b.
Proof.
  revert b. induction l as [| x l IH]; intros b; simpl; [reflexivity |].
  rewrite string_app_assoc. apply IH.
Qed.

Lemma join_amp_cons (x y : string) (l : list string) :
  join_amp (x :: y :: l) = x ++ "&" ++ join_amp (y :: l).
Proof.
  unfold join_amp. simpl fold_left at 1.
  rewrite (fold_amp_app l x ("&" ++ y)).
  f_equal. change ("&" ++ y) with (("&" : string) ++ y).
  rewrite (fold_amp_app l "&" y). reflexivity.
Qed.

(** [querystring.stringify] computes the query string of the texts of the
    values. *)
Lemma querystring_stringify_pairs (info : list (string * value)) :
  querystring_stringify info
  = encode_pairs (List.map (fun kv => (kv.1, stringifyPrimitive kv.2)) info).
Proof.
  unfold querystring_stringify.
  induction info as [| kv [| kv' info] IH]; [reflexivity | reflexivity |].
  change (List.map ?f (kv :: ?l)) with (f kv :: List.map f l).
  change (List.map ?f (kv' :: ?l)) with (f kv' :: List.map f l) at 1.
  rewrite join_amp_cons.
  change (List.map ?f (kv' :: ?l)) with (f kv' :: List.map f l) in IH.
  rewrite IH. cbn [encode_pairs fst snd List.map].
  rewrite !string_app_assoc. reflexivity.
Qed.

(** C7. [getAuthorizeURL] is a function of the configuration, [state] and
    [scope] only: it returns the fixed address, [?], the query string of
    [client_id], the configured [redirect_uri], [response_type=code],
    [scope || 'users_show'] and [state || ''], then [#weibo_redirect]; the
    [redirect] argument plays no part. *)
Theorem getAuthorizeURL_spec (c : client) (redirect state scope : value) :
  getAuthorizeURL c redirect state scope
  = "https://api.weibo.com/oauth2/authorize?"
    ++ encode_pairs
         [("client_id", stringifyPrimitive (clientId c));
          ("redirect_uri", stringifyPrimitive (redirectUri c));
          ("response_type", "code");
          ("scope", stringifyPrimitive
                      (if truthy scope then scope else VStr "users_show"));
          ("state", stringifyPrimitive
                      (if truthy state then state else VStr ""))]
    ++ "#weibo_redirect"
  /\ forall redirect' : value,
       getAuthorizeURL c redirect' state scope
       = getAuthorizeURL c redirect state scope.
Proof.
  split; [| reflexivity].
  unfold getAuthorizeURL. rewrite querystring_stringify_pairs.
  reflexivity.
Qed.

(** A client for the examples: the first two objects of the heap are its
    store and its default options. *)
Definition sample_client : client :=
  Client (VStr "id") (VStr "secret") (VStr "http://cb/x y") 0%nat
         (default_getToken 0%nat) (default_saveToken 0%nat) 1%nat.

Example getAuthorizeURL_sample :
  getAuthorizeURL sample_client (VStr "r") (VStr "s") (VStr "scope1")
  = "https://api.weibo.com/oauth2/authorize?client_id=id&redirect_uri=http%3A%2F%2Fcb%2Fx%20y&response_type=code&scope=scope1&state=s#weibo_redirect".
Proof. vm_compute. reflexivity. Qed.

Example getAuthorizeURL_defaults :
  getAuthorizeURL sample_client VUndef VUndef VUndef
  = "https://api.weibo.com/oauth2/authorize?client_id=id&redirect_uri=http%3A%2F%2Fcb%2Fx%20y&response_type=code&scope=users_show&state=#weibo_redirect".
Proof. vm_compute. reflexivity. Qed.

(** ** A user without a token *)

(** The error [getUser] throws when the store has no token for the user
    whose text is [uid]. *)
Definition no_token_error (uid : string) : exn :=
  JsError "NoOAuthTokenError"
          ("No token for " ++ uid ++ ", please authorize first.")
          VUndef.

(** The store of a client made without [getToken] answers [undefined] for a
    user it has no token of, and leaves the world as it is. *)
Lemma default_getToken_absent (st : loc) (uid : value) (k : string)
    (w : world) :
  to_string uid w = (Ok k, w) ->
  obj_at (w_heap w) st !! k = None ->
  k ∉ "__proto__" :: prototype_names ->
  default_getToken st uid w = (Ok VUndef, w).
Proof.
  intros Hk Hnone Hname. unfold default_getToken.
  rewrite (bind_Ok _ _ _ _ _ Hk). unfold get_index.
  destruct (String.eqb_spec k "__proto__") as [E | _].
  - exfalso. apply Hname. rewrite E. left.
  - rewrite Hnone. rewrite bool_decide_eq_false_2; [reflexivity |].
    intros Hin. apply Hname. right. exact Hin.
Qed.

(** The throw of [getUser] for a user whose text is [k]. *)
Lemma throw_no_token (uid : value) (k : string) (w : world) {A} :
  to_string uid w = (Ok k, w) ->
  (let* k := to_string uid in
   let* err := new_Error (VStr ("No token for " ++ k
                                ++ ", please authorize first.")) in
   throw (A := A) (set_name "NoOAuthTokenError" err)) w
  = (Throw (no_token_error k), w).
Proof.
  intros Hk. rewrite (bind_Ok _ _ _ _ _ Hk).
  rewrite (bind_Ok _ _ _ _ _ (new_Error_text _ _)). reflexivity.
Qed.

(** C3. When the load of the store answers nothing for the user ([d] is
    falsy), [getUser] throws [NoOAuthTokenError], and the world it leaves is
    the world [w2] the load left: no request was made and nothing was saved.
    The user is given bare, and [getUser] wraps it in an options object
    first, or as the [uid] of an options object; [k] is its text, which
    every primitive has, and the message of the error names it. *)
Theorem getUser_no_token (transport : nat -> string -> tree -> response)
    (clock : nat -> Z) (c : client) :
  (forall (uid : value) (w w2 : world) (d : value) (k : string),
      typeof_object uid = false ->
      let l := fresh (dom (w_heap w)) in
      getToken c uid
        (World (<[l := list_to_map [("uid", uid)]]> (w_heap w)) (w_trace w))
      = (Ok d, w2) ->
      truthy d = false ->
      to_string (default VUndef (obj_at (w_heap w2) l !! "uid")) w2
      = (Ok k, w2) ->
      getUser transport clock c uid w = (Throw (no_token_error k), w2))
  /\ (forall (lo : loc) (w w2 : world) (d : value) (k : string),
      getToken c (default VUndef (obj_at (w_heap w) lo !! "uid")) w
      = (Ok d, w2) ->
      truthy d = false ->
      to_string (default VUndef (obj_at (w_heap w2) lo !! "uid")) w2
      = (Ok k, w2) ->
      getUser transport clock c (VRef lo) w
      = (Throw (no_token_error k), w2)).
Proof.
  split.
  - intros uid w w2 d k Hty l Hload Hd Hk.
    unfold getUser. rewrite Hty. exec. fold l.
    rewrite obj_at_insert_eq.
    change (list_to_map [("uid", uid)] !! "uid") with (Some uid).
    cbn [default from_option id].
    rewrite (bind_Ok _ _ _ _ _ Hload), Hd. cbn [negb].
    rewrite (bind_Ok _ _ _ _ _ (get_field_ref _ _ _)).
    apply throw_no_token, Hk.
  - intros lo w w2 d k Hload Hd Hk.
    unfold getUser. exec.
    rewrite (bind_Ok _ _ _ _ _ Hload), Hd. cbn [negb].
    rewrite (bind_Ok _ _ _ _ _ (get_field_ref _ _ _)).
    apply throw_no_token, Hk.
Qed.

(** The world of [sample_client] before any token is saved. *)
Definition empty_world : world :=
  World (list_to_map [(0%nat, ∅); (1%nat, ∅)]) [].

(** A transport that cannot reach the provider. *)
Definition unreachable : nat -> string -> tree -> response :=
  fun _ _ _ => RespFail (JsError "RequestError" "connect ECONNREFUSED" VUndef).

(** The same world with an options object for the user [u1]. *)
Definition asking_world : world :=
  World (list_to_map [(0%nat, ∅); (1%nat, ∅);
                      (2%nat, list_to_map [("uid", VStr "u1")])]) [].

Lemma getUser_no_token_witness :
  getUser unreachable (fun _ => 0) sample_client (VStr "u1") empty_world
  = (Throw (no_token_error "u1"),
     World (<[2%nat := list_to_map [("uid", VStr "u1")]]>
              (w_heap empty_world)) [])
  /\ getUser unreachable (fun _ => 0) sample_client (VRef 2%nat) asking_world
     = (Throw (no_token_error "u1"), asking_world).
Proof.
  pose proof (getUser_no_token unreachable (fun _ => 0) sample_client)
    as [Hbare Hoptions].
  split.
  - etransitivity.
    + apply (Hbare (VStr "u1") empty_world
               (World (<[2%nat := list_to_map [("uid", VStr "u1")]]>
                         (w_heap empty_world)) []) VUndef "u1");
        [reflexivity | vm_compute; reflexivity | reflexivity
        | vm_compute; reflexivity].
    + vm_compute. reflexivity.
  - apply (Hoptions 2%nat asking_world asking_world VUndef "u1");
      [vm_compute; reflexivity | reflexivity | vm_compute; reflexivity].
Defined.

(** ** The errors of the provider *)

(** The last property named [k] of a decoded object. *)
Fixpoint last_field (kvs : list (string * json)) (k : string) : option json :=
  match kvs with
  | [] => None
  | kv :: rest =>
      match last_field rest k with
      | Some j => Some j
      | None => if String.eqb kv.1 k then Some kv.2 else None
      end
  end.

(** The field [k] of a body, when the body is an object that has it. *)
Definition json_get (body : json) (k : string) : option json :=
  match body with
  | JObj kvs => last_field kvs k
  | _ => None
  end.

(** Truthiness and text of a field of the body, absent fields being
    [undefined]. *)
Definition json_truthy (f : option json) : bool :=
  match f with
  | None | Some JNull => false
  | Some (JBool b) => b
  | Some (JNum z) => negb (Z.eqb z 0)
  | Some (JStr s) => negb (String.eqb s "")
  | Some (JObj _) => true
  end.

(** The message [new Error] gives for a field of the body: its text; none
    when the field is an object that has a [toString] property, for which
    the conversion is a [TypeError]. *)
Definition json_message (f : option json) : option string :=
  match f with
  | None => Some ""
  | Some JNull => Some "null"
  | Some (JBool true) => Some "true"
  | Some (JBool false) => Some "false"
  | Some (JNum z) => Some (number_to_string (round64 z))
  | Some (JStr s) => Some s
  | Some (JObj kvs) =>
      match last_field kvs "toString" with
      | Some _ => None
      | None => Some "[object Object]"
      end
  end.

(** [v] is the value the field [f] of a body decodes to. *)
Definition decoded_as (v : value) (f : option json) : Prop :=
  match f with
  | None => v = VUndef
  | Some j => exists h, v = (alloc_json j h).1
  end.

(** The same, the objects of [v] being those of the heap [hf]. *)
Definition decoded_in (hf : heap) (v : value) (f : option json) : Prop :=
  match f with
  | None => v = VUndef
  | Some j => exists h, v = (alloc_json j h).1 /\ (alloc_json j h).2 ⊆ hf
  end.

Lemma decoded_in_as (hf : heap) (v : value) (f : option json) :
  decoded_in hf v f -> decoded_as v f.
Proof. destruct f; [intros (h & -> & _); by exists h | done]. Qed.

Lemma alloc_json_obj (kvs : list (string * json)) (h : heap) :
  alloc_json (JObj kvs) h
  = (VRef (fresh (dom (alloc_fields alloc_json ∅ kvs h).2)),
     <[fresh (dom (alloc_fields alloc_json ∅ kvs h).2)
       := (alloc_fields alloc_json ∅ kvs h).1]>
       (alloc_fields alloc_json ∅ kvs h).2).
Proof. cbn [alloc_json]. by destruct (alloc_fields alloc_json ∅ kvs h). Qed.

(** Induction on a decoded body, through the properties of its objects. *)
Lemma json_nested_ind (P : json -> Prop) :
  P JNull -> (forall b, P (JBool b)) -> (forall z, P (JNum z)) ->
  (forall s, P (JStr s)) ->
  (forall kvs, Forall (fun kv => P kv.2) kvs -> P (JObj kvs)) ->
  forall j, P j.
Proof.
  intros HN HB HZ HS HO. fix IH 1.
  intros [| b | z | s | kvs];
    [exact HN | exact (HB b) | exact (HZ z) | exact (HS s) |].
  apply HO. induction kvs as [| kv kvs IHk]; constructor;
    [apply IH | exact IHk].
Qed.

Lemma alloc_fields_extends (kvs : list (string * json)) :
  Forall (fun kv => forall h, h ⊆ (alloc_json kv.2 h).2) kvs ->
  forall acc h, h ⊆ (alloc_fields alloc_json acc kvs h).2.
Proof.
  induction 1 as [| kv kvs Hkv _ IH]; intros acc h; [done |].
  cbn [alloc_fields]. specialize (Hkv h).
  destruct (alloc_json kv.2 h) as [v h1]. cbn [snd] in Hkv.
  etransitivity; [exact Hkv | apply IH].
Qed.

(** Decoding a body allocates objects and changes none. *)
Lemma alloc_json_extends (j : json) (h : heap) : h ⊆ (alloc_json j h).2.
Proof.
  revert h. induction j as [| b | z | s | kvs IH] using json_nested_ind;
    intros h; try done.
  rewrite alloc_json_obj. cbn [snd].
  etransitivity; [apply (alloc_fields_extends kvs IH ∅ h) |].
  apply insert_subseteq, fresh_heap_None.
Qed.

Lemma alloc_fields_lookup (kvs : list (string * json)) (acc : obj) (h : heap)
    (k : string) :
  match last_field kvs k with
  | Some j => exists hj,
      (alloc_fields alloc_json acc kvs h).1 !! k = Some (alloc_json j hj).1
      /\ (alloc_json j hj).2 ⊆ (alloc_fields alloc_json acc kvs h).2
  | None => (alloc_fields alloc_json acc kvs h).1 !! k = acc !! k
  end.
Proof.
  revert acc h. induction kvs as [| [k' j'] kvs IH]; intros acc h.
  - reflexivity.
  - cbn [alloc_fields last_field fst snd].
    pose proof (alloc_fields_extends kvs
                  (proj2 (Forall_forall _ _)
                     (fun kv _ h => alloc_json_extends kv.2 h))) as Hext.
    destruct (alloc_json j' h) as [v h1] eqn:Hj.
    specialize (IH (<[k' := v]> acc) h1).
    destruct (last_field kvs k) as [j |]; [exact IH |].
    rewrite IH.
    destruct (String.eqb_spec k' k) as [-> | Hne].
    + rewrite lookup_insert_eq. exists h. rewrite Hj. split; [done |].
      apply Hext.
    + by rewrite lookup_insert_ne.
Qed.

(** Zero is the one integer that rounds to zero. *)
Lemma round64_truthy (z : Z) : truthy (VNum (round64 z)) = negb (Z.eqb z 0).
Proof.
  unfold round64.
  destruct (Z.leb_spec (Z.abs z) (2 ^ 53)) as [_ | Hbig]; [reflexivity |].
  assert (z <> 0) as Hz by (intros ->; cbn in Hbig; lia).
  rewrite (proj2 (Z.eqb_neq z 0) Hz). cbn [negb].
  set (ulp := 2 ^ (Z.log2 (Z.abs z) - 52)).
  set (q := Z.abs z / ulp).
  match goal with
  | |- context [if ?b then q + 1 else q] => set (q' := if b then q + 1 else q)
  end.
  destruct (2 ^ 1024 <=? q' * ulp)%Z; [reflexivity |].
  cbn [truthy].
  assert (0 < Z.abs z) as Hpos by lia.
  pose proof (Z.log2_spec _ Hpos) as [Hlo _].
  assert (53 <= Z.log2 (Z.abs z)) as Hlog.
  { apply Z.log2_le_pow2; [lia |]. lia. }
  assert (0 < ulp) as Hulp by (apply Z.pow_pos_nonneg; lia).
  assert (ulp <= Z.abs z) as Hle.
  { etransitivity; [| exact Hlo]. apply Z.pow_le_mono_r; lia. }
  assert (1 <= q) as Hq.
  { unfold q. apply Z.div_le_lower_bound; lia. }
  assert (1 <= q') as Hq' by (unfold q'; destruct (_ || _); lia).
  apply negb_true_iff, Z.eqb_neq. nia.
Qed.

Lemma decoded_truthy (v : value) (f : option json) :
  decoded_as v f -> truthy v = json_truthy f.
Proof.
  destruct f as [j |]; cbn [decoded_as].
  - intros [h ->]. destruct j; try reflexivity.
    + apply round64_truthy.
    + by rewrite alloc_json_obj.
  - by intros ->.
Qed.

(** [new Error] on a decoded field. *)
Lemma decoded_message (v : value) (f : option json) (w : world) :
  decoded_in (w_heap w) v f ->
  new_Error v w
  = match json_message f with
    | Some m => (Ok (mk_error m), w)
    | None => (Throw type_error, w)
    end.
Proof.
  destruct f as [j |]; cbn [decoded_in].
  - intros (h & -> & Hsub). destruct j as [| [] | z | s | kvs]; try reflexivity.
    rewrite alloc_json_obj in Hsub |- *. cbn [fst snd] in Hsub |- *.
    cbn [json_message new_Error]. unfold bind, to_string.
    set (l := fresh (dom (alloc_fields alloc_json ∅ kvs h).2)) in *.
    assert (obj_at (w_heap w) l = (alloc_fields alloc_json ∅ kvs h).1) as ->.
    { apply obj_at_Some. eapply lookup_weaken; [| exact Hsub].
      apply lookup_insert_eq. }
    pose proof (alloc_fields_lookup kvs ∅ h "toString") as H.
    destruct (last_field kvs "toString") as [j |].
    + destruct H as (hj & -> & _). reflexivity.
    + rewrite H, lookup_empty. reflexivity.
  - by intros ->.
Qed.

(** Reading a property of the decoded body. *)
Lemma decoded_field_in (body : json) (h : heap) (k : string) (w : world) :
  body <> JNull ->
  exists v, get_field (alloc_json body h).1 k
              (World (alloc_json body h).2 (w_trace w))
            = (Ok v, World (alloc_json body h).2 (w_trace w))
            /\ decoded_in (alloc_json body h).2 v (json_get body k).
Proof.
  intros Hnn. destruct body as [| b | z | s | kvs]; try done;
    try (by exists VUndef).
  rewrite alloc_json_obj. cbn [fst snd].
  eexists. split.
  - exec. rewrite obj_at_insert_eq. reflexivity.
  - cbn [json_get]. pose proof (alloc_fields_lookup kvs ∅ h k) as H.
    destruct (last_field kvs k) as [j |].
    + destruct H as (hj & -> & Hsub). exists hj. split; [done |].
      etransitivity; [exact Hsub |]. apply insert_subseteq, fresh_heap_None.
    + rewrite H. reflexivity.
Qed.

Lemma decoded_field (body : json) (h : heap) (k : string) (w : world) :
  body <> JNull ->
  exists v, get_field (alloc_json body h).1 k
              (World (alloc_json body h).2 (w_trace w))
            = (Ok v, World (alloc_json body h).2 (w_trace w))
            /\ decoded_as v (json_get body k).
Proof.
  intros Hnn. destruct (decoded_field_in body h k w Hnn) as (v & Hv & Hd).
  exists v. split; [exact Hv | exact (decoded_in_as _ _ _ Hd)].
Qed.

(** ** The inspection of the body *)

Lemma check_error_passes (body : json) (h : heap) (tr : list event) :
  body <> JNull ->
  json_truthy (json_get body "error") = false ->
  check_error (alloc_json body h).1 (World (alloc_json body h).2 tr)
  = (Ok (alloc_json body h).1, World (alloc_json body h).2 tr).
Proof.
  intros Hnn Herr. unfold check_error.
  destruct (decoded_field body h "error" (World h tr) Hnn) as (e & He & Hde).
  cbn [w_trace] in He.
  by rewrite (bind_Ok _ _ _ _ _ He), (decoded_truthy _ _ Hde), Herr.
Qed.

(** The error [request] throws for a body that reports one: a
    [WeiboAPIError] with the message [m] of the description and the code,
    and the [TypeError] of the conversion when the description has no
    text. *)
Definition rejection (m : option string) (code : value) : exn :=
  match m with
  | Some s => JsError "WeiboAPIError" s code
  | None => type_error
  end.

Lemma check_error_throws (body : json) (h : heap) (tr : list event) :
  body <> JNull ->
  json_truthy (json_get body "error") = true ->
  exists code,
    check_error (alloc_json body h).1 (World (alloc_json body h).2 tr)
    = (Throw (rejection (json_message (json_get body "error_description"))
                code),
       World (alloc_json body h).2 tr)
    /\ decoded_as code (json_get body "error_code").
Proof.
  intros Hnn Herr. unfold check_error.
  destruct (decoded_field body h "error" (World h tr) Hnn) as (e & He & Hde).
  destruct (decoded_field_in body h "error_description" (World h tr) Hnn)
    as (d & Hd & Hdd).
  destruct (decoded_field body h "error_code" (World h tr) Hnn)
    as (code & Hc & Hdc).
  cbn [w_trace] in He, Hd, Hc.
  rewrite (bind_Ok _ _ _ _ _ He), (decoded_truthy _ _ Hde), Herr.
  rewrite (bind_Ok _ _ _ _ _ Hd).
  pose proof (decoded_message d _ (World (alloc_json body h).2 tr) Hdd) as Hm.
  exists code. split; [| exact Hdc].
  destruct (json_message (json_get body "error_description")) as [m |].
  - rewrite (bind_Ok _ _ _ _ _ Hm), (bind_Ok _ _ _ _ _ Hc). reflexivity.
  - apply (bind_Throw _ _ _ _ _ Hm).
Qed.

Section Request.
Variable transport : nat -> string -> tree -> response.

(** The world once the transport has been called. *)
Definition called (url : string) (options : loc) (w1 : world) : world :=
  World (w_heap w1) (w_trace w1 ++ [EHttp url options (w_heap w1)]).

(** The world once the body has been decoded. *)
Definition answered (url : string) (options : loc) (body : json)
    (w1 : world) : world :=
  World (alloc_json body (w_heap w1)).2
        (w_trace w1 ++ [EHttp url options (w_heap w1)]).

Lemma request_answered (c : client) (url : string) (opts : option loc)
    (w w1 : world) (options : loc) (st : Z) (body : json) :
  merge_options c opts w = (Ok options, w1) ->
  transport (length (w_trace w1)) url (snapshot (w_heap w1) (VRef options))
  = RespOk st body ->
  request transport c url opts w
  = check_error (alloc_json body (w_heap w1)).1 (answered url options body w1).
Proof.
  intros Hm Ht. unfold request. rewrite (bind_Ok _ _ _ _ _ Hm).
  unfold bind at 1, catch_rethrow, requestThunk. rewrite Ht.
  unfold bind at 1, decode. cbn [snd w_heap w_trace]. unfold answered.
  destruct (alloc_json body (w_heap w1)); reflexivity.
Qed.

Lemma request_failed (c : client) (url : string) (opts : option loc)
    (w w1 : world) (options : loc) (e : exn) :
  merge_options c opts w = (Ok options, w1) ->
  transport (length (w_trace w1)) url (snapshot (w_heap w1) (VRef options))
  = RespFail e ->
  request transport c url opts w
  = (Throw (set_name ("WeiboAPI" ++ err_name e) e), called url options w1).
Proof.
  intros Hm Ht. unfold request. rewrite (bind_Ok _ _ _ _ _ Hm).
  unfold bind at 1, catch_rethrow, requestThunk. by rewrite Ht.
Qed.

(** C6, amended. Whatever the HTTP status, when the decoded body is not
    [null]: if its [error] field is truthy, [request] throws an error named
    [WeiboAPIError] whose message is the text [m] of the body's
    [error_description], when it has one, and whose code is the decoded
    [error_code]; if the [error] field is falsy or absent, it returns the
    decoded body as it is. *)
Theorem request_error_normalization (c : client) (url : string)
    (opts : option loc) (w w1 : world) (options : loc) (st : Z)
    (body : json) :
  merge_options c opts w = (Ok options, w1) ->
  transport (length (w_trace w1)) url (snapshot (w_heap w1) (VRef options))
  = RespOk st body ->
  body <> JNull ->
  (json_truthy (json_get body "error") = true ->
   forall m, json_message (json_get body "error_description") = Some m ->
   exists code,
     request transport c url opts w
     = (Throw (JsError "WeiboAPIError" m code), answered url options body w1)
     /\ decoded_as code (json_get body "error_code"))
  /\ (json_truthy (json_get body "error") = false ->
      request transport c url opts w
      = (Ok (alloc_json body (w_heap w1)).1, answered url options body w1)).
Proof.
  intros Hm Ht Hnn.
  rewrite (request_answered _ _ _ _ _ _ _ _ Hm Ht).
  unfold answered. split.
  - intros Herr m Hmsg.
    pose proof (check_error_throws body (w_heap w1)
                  (w_trace w1 ++ [EHttp url options (w_heap w1)])%list
                  Hnn Herr) as H.
    rewrite Hmsg in H. exact H.
  - intros Herr. by apply check_error_passes.
Qed.
End Request.

(** A provider that answers every call with the same body. *)
Definition provider_says (body : json) : nat -> string -> tree -> response :=
  fun _ _ _ => RespOk 200 body.

(** C6 as stated fails: a body that has an [error] field holding the empty
    string is returned, nothing is thrown. *)
Lemma request_error_field_counterexample :
  let body := JObj [("error", JStr ""); ("error_code", JNum 21327);
                    ("error_description", JStr "expired")] in
  json_get body "error" = Some (JStr "")
  /\ request (provider_says body) sample_client "https://api.weibo.com/2/users/show.json" None empty_world
     = (Ok (VRef 4%nat),
        answered "https://api.weibo.com/2/users/show.json" 2%nat body
          (World (<[3%nat := ∅]> (<[2%nat := ∅]> (w_heap empty_world))) [])).
Proof. split; [reflexivity |]. vm_compute. reflexivity. Qed.

Lemma request_error_normalization_witness :
  let body := JObj [("error", JStr "bad"); ("error_code", JNum 21327);
                    ("error_description", JStr "expired")] in
  let fine := JObj [("id", JNum 42); ("error", JNum 0)] in
  (exists w',
     request (provider_says body) sample_client
       "https://api.weibo.com/2/users/show.json" None empty_world
     = (Throw (JsError "WeiboAPIError" "expired" (VNum 21327)), w'))
  /\ (exists w',
        request (provider_says fine) sample_client
          "https://api.weibo.com/2/users/show.json" None empty_world
        = (Ok (VRef 4%nat), w')).
Proof.
  intros body fine. split.
  - destruct (request_error_normalization (provider_says body) sample_client
                "https://api.weibo.com/2/users/show.json" None empty_world
                (World (<[3%nat := ∅]> (<[2%nat := ∅]> (w_heap empty_world)))
                   [])
                2%nat 200 body)
      as [Herr _]; [vm_compute; reflexivity | reflexivity | discriminate |].
    destruct (Herr eq_refl "expired" eq_refl) as (code & Hrun & [h Hcode]).
    eexists. rewrite Hrun, Hcode. reflexivity.
  - destruct (request_error_normalization (provider_says fine) sample_client
                "https://api.weibo.com/2/users/show.json" None empty_world
                (World (<[3%nat := ∅]> (<[2%nat := ∅]> (w_heap empty_world)))
                   [])
                2%nat 200 fine)
      as [_ Hok]; [vm_compute; reflexivity | reflexivity | discriminate |].
    eexists. rewrite (Hok eq_refl). vm_compute. reflexivity.
Defined.

(** ** The options handed to the transport *)

Lemma headers_of_ref (o : obj) (l : loc) :
  headers_of o = VRef l -> o !! "headers" = Some (VRef l).
Proof. unfold headers_of. destruct (o !! "headers"); simpl; congruence. Qed.

Section Merge.
Variables (c : client) (lo : loc) (h : heap) (oo dflt : obj)
  (tr : list event).
Hypothesis Hlo : h !! lo = Some oo.
Hypothesis Hd : h !! defaults c = Some dflt.
Hypothesis Hproto : oo !! "__proto__" = None.
Hypothesis Hsource :
  truthy (headers_of oo) = true ->
  exists ls, headers_of oo = VRef ls /\ is_Some (h !! ls).
Hypothesis Htarget :
  truthy (headers_of oo) = true -> truthy (headers_of dflt) = true ->
  exists lt, headers_of dflt = VRef lt /\ lt <> lo /\ is_Some (h !! lt).

Let options := fresh (dom h).

(** What the loop leaves: the options object [O] in the heap [h']. *)
Definition merged (h' : heap) (O : obj) : Prop :=
  h' !! options = Some O
  /\ (forall k, k <> "headers" -> O !! k = (oo ∪ dflt) !! k)
  /\ (if truthy (headers_of oo)
      then exists T, O !! "headers" = Some (VRef T)
                     /\ obj_at h' T = header_fields h (headers_of oo)
                                      ∪ header_fields h (headers_of dflt)
      else O !! "headers" = dflt !! "headers").

Lemma options_fresh : options <> lo.
Proof. apply fresh_heap_ne. eauto. Qed.

(** The step at [headers], from a heap where only the options object was
    written. *)
Lemma merge_headers_step (A1 : obj) :
  A1 !! "headers" = dflt !! "headers" ->
  exists h3 A1',
    merge_key options lo "headers" (World (<[options := A1]> h) tr)
    = (Ok tt, World h3 tr)
    /\ h3 !! options = Some A1'
    /\ obj_at h3 lo = oo
    /\ (forall k, k <> "headers" -> A1' !! k = A1 !! k)
    /\ (if truthy (headers_of oo)
        then exists T, T <> options /\ A1' !! "headers" = Some (VRef T)
                       /\ obj_at h3 T = header_fields h (headers_of oo)
                                        ∪ header_fields h (headers_of dflt)
        else A1' !! "headers" = dflt !! "headers").
Proof.
  intros HA1. pose proof options_fresh as Hne.
  set (h2 := <[options := A1]> h).
  assert (obj_at h2 lo = oo) as Hoo
    by (unfold h2; rewrite obj_at_insert_ne by done; by apply obj_at_Some).
  assert (h2 !! options = Some A1) as Hopt by apply lookup_insert_eq.
  assert (headers_of A1 = headers_of dflt) as HhA
    by (unfold headers_of; by rewrite HA1).
  destruct (truthy (headers_of oo)) eqn:Hts.
  - destruct (Hsource eq_refl) as (ls & Hls & Hlsa).
    assert (ls <> options) as Hls' by (intros ->; apply (fresh_heap_ne h _ Hlsa); done).
    destruct (truthy (headers_of dflt)) eqn:Htd.
    + destruct (Htarget eq_refl eq_refl) as (lt & Hlt & Hlt1 & Hlta).
      assert (lt <> options) as Hlt' by (intros ->; apply (fresh_heap_ne h _ Hlta); done).
      exists (<[lt := obj_at h2 ls ∪ obj_at h2 lt]> h2), A1.
      split; [| split; [| split; [| split]]].
      * apply (merge_headers_both _ _ _ _ _ _ A1); try done.
        -- by rewrite Hoo.
        -- rewrite HA1. by apply headers_of_ref.
      * by rewrite lookup_insert_ne.
      * by rewrite obj_at_insert_ne.
      * done.
      * exists lt. split; [done |]. split.
        -- rewrite HA1. by apply headers_of_ref.
        -- rewrite obj_at_insert_eq. unfold h2.
           rewrite !obj_at_insert_ne by done.
           by rewrite Hls, Hlt.
    + exists (<[fresh (dom h2) := obj_at h2 ls]>
                (<[options := <["headers" := VRef (fresh (dom h2))]> A1]> h2)),
             (<["headers" := VRef (fresh (dom h2))]> A1).
      assert (fresh (dom h2) <> options) as HT
        by (apply fresh_heap_ne; eauto).
      assert (fresh (dom h2) <> lo) as HT'.
      { apply fresh_heap_ne. unfold h2. rewrite lookup_insert_ne by done. eauto. }
      split; [| split; [| split; [| split]]].
      * apply (merge_headers_new _ _ _ _ _ A1); try done.
        -- by rewrite Hoo.
        -- by rewrite HhA.
        -- unfold h2. rewrite lookup_insert_ne by done. eauto.
        -- unfold h2. rewrite lookup_insert_ne by done. eauto.
      * rewrite lookup_insert_ne by done. apply lookup_insert_eq.
      * rewrite !obj_at_insert_ne by done. exact Hoo.
      * intros k Hk. by rewrite lookup_insert_ne.
      * exists (fresh (dom h2)). split; [done |]. split.
        -- apply lookup_insert_eq.
        -- rewrite obj_at_insert_eq. unfold h2.
           rewrite obj_at_insert_ne by done. rewrite Hls. cbn [header_fields].
           destruct (headers_of dflt); try discriminate;
             cbn [header_fields]; by rewrite (right_id ∅ (∪)).
  - exists h2, A1. split; [| split; [| split; [| split]]]; try done.
    apply merge_headers_falsy. by rewrite Hoo.
Qed.

Lemma key_is_plain (ks : list string) :
  (forall k, k ∈ ks -> k ∈ (map_to_list oo).*1) ->
  "headers" ∉ ks ->
  Forall (fun k => k <> "headers" /\ k <> "__proto__") ks.
Proof.
  intros Hsub Hnh. apply Forall_forall. intros k Hk. split.
  - by intros ->.
  - intros ->. apply Hsub, keys_of_obj in Hk as [v Hv]. congruence.
Qed.

Lemma lookup_assign_own (ks : list string) (acc : obj) (k : string) :
  (forall k, k ∈ ks -> k ∈ (map_to_list oo).*1) ->
  assign_keys oo ks acc !! k = if bool_decide (k ∈ ks) then oo !! k else acc !! k.
Proof.
  intros Hsub. rewrite lookup_assign_keys. case_bool_decide as Hk; [| done].
  apply Hsub, keys_of_obj in Hk as [v ->]. reflexivity.
Qed.

(** The options [request] builds from the per-call object [lo]. *)
Lemma merge_options_spec :
  exists h' O,
    merge_options c (Some lo) (World h tr) = (Ok options, World h' tr)
    /\ merged h' O.
Proof.
  pose proof options_fresh as Hne.
  rewrite (merge_options_start c lo (World h tr) dflt Hd).
  cbv zeta. cbn [w_heap w_trace]. fold options.
  rewrite obj_at_insert_ne, (obj_at_Some _ _ _ Hlo) by done.
  destruct (decide ("headers" ∈ (map_to_list oo).*1)) as [Hin | Hnin].
  - pose proof (NoDup_fst_map_to_list oo) as Hnd.
    apply list_elem_of_split in Hin as (ks1 & ks2 & Hks).
    rewrite Hks in Hnd. apply NoDup_app in Hnd as (_ & Hdisj & Hnd2).
    apply NoDup_cons in Hnd2 as [Hnh2 _].
    assert ("headers" ∉ ks1) as Hnh1.
    { intros Hh. apply (Hdisj _ Hh). left. }
    assert (forall k, k ∈ ks1 -> k ∈ (map_to_list oo).*1) as Hsub1.
    { intros k Hk. rewrite Hks. apply elem_of_app. by left. }
    assert (forall k, k ∈ ks2 -> k ∈ (map_to_list oo).*1) as Hsub2.
    { intros k Hk. rewrite Hks. apply elem_of_app. right. by right. }
    destruct (merge_headers_step (assign_keys oo ks1 dflt))
      as (h3 & A1' & Hstep & Hopt3 & Hoo3 & Hsame & Hhead).
    { rewrite lookup_assign_own by done. by rewrite bool_decide_eq_false_2. }
    exists (<[options := assign_keys oo ks2 A1']> h3), (assign_keys oo ks2 A1').
    split.
    + rewrite Hks. erewrite bind_Ok; [reflexivity |].
      rewrite for_each_app.
      erewrite bind_Ok;
        [| apply (merge_plain_keys options lo ks1 _ tr dflt);
           [done | apply lookup_insert_eq | by apply key_is_plain]].
      rewrite obj_at_insert_ne, (obj_at_Some _ _ _ Hlo), insert_insert_eq by done.
      change (for_each ("headers" :: ks2) ?f)
        with (f "headers";;; for_each ks2 f).
      rewrite (bind_Ok _ _ _ _ _ Hstep).
      rewrite (merge_plain_keys options lo ks2 h3 tr A1');
        [| done | done | by apply key_is_plain].
      by rewrite Hoo3.
    + split; [apply lookup_insert_eq |]. split.
      * intros k Hk. rewrite lookup_assign_own by done.
        rewrite lookup_union.
        case_bool_decide as Hk2.
        -- apply Hsub2, keys_of_obj in Hk2 as [v ->]. by destruct (dflt !! k).
        -- rewrite Hsame by done. rewrite lookup_assign_own by done.
           case_bool_decide as Hk1.
           ++ apply Hsub1, keys_of_obj in Hk1 as [v ->]. by destruct (dflt !! k).
           ++ destruct (oo !! k) as [v |] eqn:Hv; [| by destruct (dflt !! k)].
              exfalso. assert (k ∈ (map_to_list oo).*1) as Hkin
                by (apply keys_of_obj; eauto).
              rewrite Hks in Hkin. apply elem_of_app in Hkin as [? | Hkin];
                [done |]. apply elem_of_cons in Hkin as [? | ?]; done.
      * destruct (truthy (headers_of oo)).
        -- destruct Hhead as (T & HT & HTh & HTo). exists T. split.
           ++ rewrite lookup_assign_own by done.
              by rewrite bool_decide_eq_false_2.
           ++ by rewrite obj_at_insert_ne.
        -- rewrite lookup_assign_own by done.
           by rewrite bool_decide_eq_false_2.
  - assert (oo !! "headers" = None) as Hnone.
    { destruct (oo !! "headers") eqn:E; [| done].
      exfalso. apply Hnin, keys_of_obj. eauto. }
    exists (<[options := oo ∪ dflt]> h), (oo ∪ dflt). split.
    + erewrite bind_Ok; [reflexivity |].
      rewrite (merge_plain_keys options lo _ _ tr dflt);
        [| done | apply lookup_insert_eq | by apply key_is_plain].
      rewrite obj_at_insert_ne, (obj_at_Some _ _ _ Hlo) by done.
      by rewrite assign_all_keys, insert_insert_eq.
    + split; [apply lookup_insert_eq |]. split; [done |].
      unfold headers_of. rewrite Hnone. cbn.
      by rewrite lookup_union, Hnone, (left_id None _).
Qed.
End Merge.

Lemma to_string_world (v : value) (w : world) : (to_string v w).2 = w.
Proof.
  unfold to_string. destruct v; try reflexivity.
  destruct (_ !! _); reflexivity.
Qed.

Lemma new_Error_world (v : value) (w : world) : (new_Error v w).2 = w.
Proof.
  destruct v; try reflexivity; unfold new_Error, bind;
    match goal with
    | |- context [to_string ?v w] =>
        pose proof (to_string_world v w) as H;
        destruct (to_string v w) as [[] ?]; exact H
    end.
Qed.

Lemma check_error_world (d : value) (w : world) : (check_error d w).2 = w.
Proof.
  unfold check_error, bind, get_field.
  destruct d; try reflexivity.
  destruct (truthy _); [| reflexivity].
  match goal with
  | |- context [new_Error ?v w] =>
      pose proof (new_Error_world v w) as H;
      destruct (new_Error v w) as [[] ?]; exact H
  end.
Qed.

(** [request] calls the transport once, with the options it has merged. *)
Lemma request_trace (transport : nat -> string -> tree -> response)
    (c : client) (url : string) (opts : option loc) (w w1 : world)
    (options : loc) :
  merge_options c opts w = (Ok options, w1) ->
  w_trace (request transport c url opts w).2
  = (w_trace w1 ++ [EHttp url options (w_heap w1)])%list.
Proof.
  intros Hm.
  destruct (transport (length (w_trace w1)) url
              (snapshot (w_heap w1) (VRef options))) as [e | st body] eqn:Ht.
  - by rewrite (request_failed _ _ _ _ _ _ _ _ Hm Ht).
  - rewrite (request_answered _ _ _ _ _ _ _ _ _ Hm Ht).
    by rewrite check_error_world.
Qed.

(** C8. The options [request] hands to the transport are a new object [O]:
    outside [headers] each property is the per-call one when the call has
    it and the default one otherwise; when the call has headers, [headers]
    is an object holding the per-call headers over the default headers, and
    the default [headers] otherwise.  The per-call and default objects are
    allocated, the headers are objects or falsy, and the default headers are
    not the per-call object itself. *)
Theorem request_hands_merged_options
    (transport : nat -> string -> tree -> response) (c : client)
    (url : string) (lo : loc) (w : world) (oo dflt : obj) :
  w_heap w !! lo = Some oo ->
  w_heap w !! defaults c = Some dflt ->
  oo !! "__proto__" = None ->
  (truthy (headers_of oo) = true ->
   exists ls, headers_of oo = VRef ls /\ is_Some (w_heap w !! ls)) ->
  (truthy (headers_of oo) = true -> truthy (headers_of dflt) = true ->
   exists lt, headers_of dflt = VRef lt /\ lt <> lo
              /\ is_Some (w_heap w !! lt)) ->
  exists (options : loc) (h' : heap) (O : obj),
    w_trace (request transport c url (Some lo) w).2
    = (w_trace w ++ [EHttp url options h'])%list
    /\ h' !! options = Some O
    /\ w_heap w !! options = None
    /\ (forall k, k <> "headers" -> O !! k = (oo ∪ dflt) !! k)
    /\ (if truthy (headers_of oo)
        then exists T, O !! "headers" = Some (VRef T)
                       /\ obj_at h' T
                          = header_fields (w_heap w) (headers_of oo)
                            ∪ header_fields (w_heap w) (headers_of dflt)
        else O !! "headers" = dflt !! "headers").
Proof.
  intros Hlo Hd Hp Hs Ht. destruct w as [h tr]. cbn [w_heap w_trace] in *.
  destruct (merge_options_spec c lo h oo dflt tr Hlo Hd Hp Hs Ht)
    as (h' & O & Hm & HO & Hk & Hh).
  exists (fresh (dom h)), h', O.
  rewrite (request_trace _ _ _ _ _ _ _ Hm). cbn [w_heap w_trace].
  repeat split; try done. apply fresh_heap_None.
Qed.

(** A world where the defaults of [sample_client] carry a timeout and two
    headers, and a per-call object carries its own timeout, a payload and
    one header. *)
Definition headers_world : world :=
  World (list_to_map
    [(0%nat, ∅);
     (1%nat, list_to_map [("timeout", VNum 15000); ("headers", VRef 2%nat)]);
     (2%nat, list_to_map [("a", VStr "1"); ("b", VStr "2")]);
     (3%nat, list_to_map [("timeout", VNum 5); ("data", VStr "x");
                          ("headers", VRef 4%nat)]);
     (4%nat, list_to_map [("b", VStr "3")])]) [].

Lemma request_hands_merged_options_witness :
  exists (options : loc) (h' : heap) (O : obj),
    w_trace (request unreachable sample_client "u" (Some 3%nat)
               headers_world).2 = [EHttp "u" options h']
    /\ h' !! options = Some O
    /\ O !! "timeout" = Some (VNum 5)
    /\ exists T, O !! "headers" = Some (VRef T)
                 /\ obj_at h' T
                    = list_to_map [("a", VStr "1"); ("b", VStr "3")].
Proof.
  destruct (request_hands_merged_options unreachable sample_client "u"
              3%nat headers_world
              (list_to_map [("timeout", VNum 5); ("data", VStr "x");
                            ("headers", VRef 4%nat)])
              (list_to_map [("timeout", VNum 15000);
                            ("headers", VRef 2%nat)]))
    as (options & h' & O & Htr & HO & _ & Hk & Hh);
    [reflexivity | reflexivity | reflexivity | | |].
  - intros _. exists 4%nat. split; [reflexivity | by eexists].
  - intros _ _. exists 2%nat. split; [reflexivity |].
    split; [discriminate | by eexists].
  - exists options, h', O. split; [exact Htr |]. split; [exact HO |].
    split; [by rewrite Hk |].
    destruct Hh as (T & HT & HTo). exists T. split; [exact HT |].
    rewrite HTo. vm_compute. reflexivity.
Defined.

(** ** The defaults after a call *)

(** C9 fails on the code.  The defaults hold a [headers] object; a call with
    per-call headers assigns them to that very object, and the next call,
    which has no header of its own, hands them to the transport. *)
Theorem request_writes_default_headers :
  let c := setOpts sample_client 1%nat in
  let w1 := (request unreachable c "u" (Some 3%nat) headers_world).2 in
  obj_at (w_heap headers_world) 2%nat !! "b" = Some (VStr "2")
  /\ obj_at (w_heap w1) 2%nat !! "b" = Some (VStr "3")
  /\ exists options h',
       w_trace (request unreachable c "u" None w1).2
       = (w_trace w1 ++ [EHttp "u" options h'])%list
       /\ obj_at h' options !! "headers" = Some (VRef 2%nat)
       /\ obj_at h' 2%nat !! "b" = Some (VStr "3").
Proof.
  cbv zeta. split; [reflexivity |]. split; [vm_compute; reflexivity |].
  eexists _, _. split; [vm_compute; reflexivity |].
  split; vm_compute; reflexivity.
Qed.

(** ** Allocation *)

(** The address of the next object, and the heap once it is allocated. *)
Definition top (h : heap) : loc := fresh (dom h).
Definition push (h : heap) (o : obj) : heap := <[top h := o]> h.

Lemma alloc_run (o : obj) (w : world) :
  alloc o w = (Ok (top (w_heap w)), World (push (w_heap w) o) (w_trace w)).
Proof. reflexivity. Qed.

Lemma push_extends (h : heap) (o : obj) : h ⊆ push h o.
Proof. apply insert_subseteq, fresh_heap_None. Qed.

Lemma lookup_push_top (h : heap) (o : obj) : push h o !! top h = Some o.
Proof. apply lookup_insert_eq. Qed.

Lemma obj_at_push_top (h : heap) (o : obj) : obj_at (push h o) (top h) = o.
Proof. apply obj_at_insert_eq. Qed.

Lemma lookup_top (h : heap) : h !! top h = None.
Proof. apply fresh_heap_None. Qed.

Lemma is_Some_weaken (h h' : heap) (l : loc) :
  h ⊆ h' -> is_Some (h !! l) -> is_Some (h' !! l).
Proof. intros Hsub [x Hx]. exists x. by apply (lookup_weaken h h'). Qed.

Lemma obj_at_weaken (h h' : heap) (l : loc) :
  h ⊆ h' -> is_Some (h !! l) -> obj_at h' l = obj_at h l.
Proof.
  intros Hsub [x Hx]. unfold obj_at.
  by rewrite (lookup_weaken h h' l x Hx Hsub), Hx.
Qed.

(** ** A call with options that carry no headers *)

Section Plain.
Variable transport : nat -> string -> tree -> response.
Variables (c : client) (url : string) (la : loc) (w : world) (ao dflt : obj).
Hypothesis Hla : w_heap w !! la = Some ao.
Hypothesis Hh : ao !! "headers" = None.
Hypothesis Hp : ao !! "__proto__" = None.
Hypothesis Hd : w_heap w !! defaults c = Some dflt.

Let h1 := push (w_heap w) (ao ∪ dflt).
Let sent_event := EHttp url (top (w_heap w)) h1.

Lemma request_plain :
  request transport c url (Some la) w
  = match transport (length (w_trace w)) url
            (snapshot h1 (VRef (top (w_heap w)))) with
    | RespFail e =>
        (Throw (set_name ("WeiboAPI" ++ err_name e) e),
         World h1 (w_trace w ++ [sent_event]))
    | RespOk st body =>
        check_error (alloc_json body h1).1
          (World (alloc_json body h1).2 (w_trace w ++ [sent_event]))
    end.
Proof.
  pose proof (merge_options_plain c la w ao dflt Hla Hd Hh Hp) as Hm.
  destruct (transport _ _ _) as [e | st body] eqn:Ht.
  - by rewrite (request_failed transport c url _ _ _ _ e Hm Ht).
  - by rewrite (request_answered transport c url _ _ _ _ st body Hm Ht).
Qed.
End Plain.

(** ** The requests of the operations *)

Definition token_url : string := "https://api.weibo.com/oauth2/access_token".
Definition token_info_url : string :=
  "https://api.weibo.com/oauth2/get_token_info".
Definition user_url : string := "https://api.weibo.com/2/users/show.json".

(** The [args] literal of the calls that do not set a method. *)
Definition get_args (info : loc) : obj :=
  list_to_map [("data", VRef info); ("dataType", VStr "json")].

(** The [args] literal, with the method when the call sets one. *)
Definition args_of (meth : option value) (info : loc) : obj :=
  match meth with
  | Some m => <["method" := m]> (get_args info)
  | None => get_args info
  end.

(** The event [e] is a call of the transport at [url] whose options are the
    [args] literal over the defaults [dflt], [data] being an object with
    exactly the properties [info]. *)
Definition sent (e : event) (url : string) (meth : option value)
    (info dflt : obj) : Prop :=
  exists (options linfo : loc) (h : heap),
    e = EHttp url options h
    /\ obj_at h options = args_of meth linfo ∪ dflt
    /\ obj_at h linfo = info.

(** The heap in which a call is made: [info], then [args], then the merged
    options are allocated. *)
Definition call_heap (h : heap) (info : obj) (mk : loc -> obj) (dflt : obj)
  : heap :=
  let hi := push h info in
  let ha := push hi (mk (top h)) in
  push ha (mk (top h) ∪ dflt).

Lemma call_heap_extends (h : heap) (info : obj) (mk : loc -> obj) (dflt : obj) :
  h ⊆ call_heap h info mk dflt.
Proof.
  unfold call_heap. etransitivity; [apply push_extends |].
  etransitivity; apply push_extends.
Qed.

Lemma call_is_sent (h : heap) (url : string) (meth : option value)
    (info dflt : obj) :
  sent (EHttp url (top (push (push h info) (args_of meth (top h))))
          (call_heap h info (args_of meth) dflt))
       url meth info dflt.
Proof.
  eexists _, (top h), _. split; [reflexivity |].
  split; [apply obj_at_push_top |].
  unfold call_heap.
  rewrite (obj_at_weaken (push h info)).
  - apply obj_at_push_top.
  - etransitivity; apply push_extends.
  - rewrite lookup_push_top. eauto.
Qed.

Lemma args_of_plain (meth : option value) (info : loc) :
  args_of meth info !! "headers" = None
  /\ args_of meth info !! "__proto__" = None.
Proof. destruct meth; split; reflexivity. Qed.

Section Calls.
Variable transport : nat -> string -> tree -> response.
Variables (c : client) (w : world) (dflt : obj).
Hypothesis Hd : w_heap w !! defaults c = Some dflt.

(** A literal [info], a literal [args] that refers to it, and the call. *)
Lemma literal_call {A} (url : string) (info : obj) (mk : loc -> obj)
    (k : value -> M A) :
  mk (top (w_heap w)) !! "headers" = None ->
  mk (top (w_heap w)) !! "__proto__" = None ->
  let h1 := call_heap (w_heap w) info mk dflt in
  let e := EHttp url (top (push (push (w_heap w) info) (mk (top (w_heap w)))))
                 h1 in
  (let* linfo := alloc info in
   let* largs := alloc (mk linfo) in
   let* d := request transport c url (Some largs) in k d) w
  = match transport (length (w_trace w)) url
            (snapshot h1 (VRef (top (push (push (w_heap w) info)
                                          (mk (top (w_heap w))))))) with
    | RespFail err =>
        (Throw (set_name ("WeiboAPI" ++ err_name err) err),
         World h1 (w_trace w ++ [e]))
    | RespOk st body =>
        (let* d := check_error (alloc_json body h1).1 in k d)
          (World (alloc_json body h1).2 (w_trace w ++ [e]))
    end.
Proof.
  intros Hh Hp h1 e.
  rewrite (bind_Ok _ _ _ _ _ (alloc_run info w)).
  erewrite bind_Ok; [| apply alloc_run]. cbn [w_heap w_trace].
  set (hi := push (w_heap w) info).
  set (ha := push hi (mk (top (w_heap w)))).
  unfold bind at 1.
  rewrite (request_plain transport c url (top hi) (World ha (w_trace w))
             (mk (top (w_heap w))) dflt);
    [| apply lookup_push_top | done | done |].
  - cbn [w_heap w_trace]. fold h1. fold e.
    destruct (transport _ _ _) as [err | st body]; [reflexivity |].
    unfold bind.
    by destruct (check_error _ _) as [[d | err |] w'].
  - cbn [w_heap]. apply (lookup_weaken (w_heap w)); [exact Hd |].
    etransitivity; apply push_extends.
Qed.
End Calls.

Lemma bind_ret_r {A} (m : M A) (w : world) : bind m ret w = m w.
Proof. unfold bind, ret. by destruct (m w) as [[a | e |] w']. Qed.

Section Fetch.
Variable transport : nat -> string -> tree -> response.
Variables (c : client) (w : world) (dflt : obj).
Hypothesis Hd : w_heap w !! defaults c = Some dflt.

(** A call that the provider answers with a body without error. *)
Lemma literal_call_returns {A} (url : string) (meth : option value)
    (info : obj) (k : value -> M A) (st : Z) (body : json) :
  (forall t, transport (length (w_trace w)) url t = RespOk st body) ->
  body <> JNull ->
  json_truthy (json_get body "error") = false ->
  let h1 := call_heap (w_heap w) info (args_of meth) dflt in
  exists e,
    sent e url meth info dflt
    /\ (let* linfo := alloc info in
        let* largs := alloc (args_of meth linfo) in
        let* d := request transport c url (Some largs) in k d) w
       = k (alloc_json body h1).1
           (World (alloc_json body h1).2 (w_trace w ++ [e])).
Proof.
  intros Ht Hnn Herr h1.
  destruct (args_of_plain meth (top (w_heap w))) as [Hh Hp].
  eexists. split; [apply call_is_sent |].
  rewrite (literal_call transport c w dflt Hd url info (args_of meth) k Hh Hp).
  rewrite Ht. fold h1.
  by rewrite (bind_Ok _ _ _ _ _ (check_error_passes body h1 _ Hnn Herr)).
Qed.

(** A call that does not reach the provider. *)
Lemma literal_call_fails {A} (url : string) (meth : option value)
    (info : obj) (k : value -> M A) (err : exn) :
  (forall t, transport (length (w_trace w)) url t = RespFail err) ->
  let h1 := call_heap (w_heap w) info (args_of meth) dflt in
  exists e,
    sent e url meth info dflt
    /\ (let* linfo := alloc info in
        let* largs := alloc (args_of meth linfo) in
        let* d := request transport c url (Some largs) in k d) w
       = (Throw (set_name ("WeiboAPI" ++ err_name err) err),
          World h1 (w_trace w ++ [e])).
Proof.
  intros Ht h1.
  destruct (args_of_plain meth (top (w_heap w))) as [Hh Hp].
  eexists. split; [apply call_is_sent |].
  rewrite (literal_call transport c w dflt Hd url info (args_of meth) k Hh Hp).
  by rewrite Ht.
Qed.

(** A call that the provider answers with an error in the body. *)
Lemma literal_call_rejected {A} (url : string) (meth : option value)
    (info : obj) (k : value -> M A) (st : Z) (body : json) :
  (forall t, transport (length (w_trace w)) url t = RespOk st body) ->
  body <> JNull ->
  json_truthy (json_get body "error") = true ->
  let h1 := call_heap (w_heap w) info (args_of meth) dflt in
  exists e code,
    sent e url meth info dflt
    /\ decoded_as code (json_get body "error_code")
    /\ (let* linfo := alloc info in
        let* largs := alloc (args_of meth linfo) in
        let* d := request transport c url (Some largs) in k d) w
       = (Throw (rejection (json_message (json_get body "error_description"))
                   code),
          World (alloc_json body h1).2 (w_trace w ++ [e])).
Proof.
  intros Ht Hnn Herr h1.
  destruct (args_of_plain meth (top (w_heap w))) as [Hh Hp].
  destruct (check_error_throws body h1
              (w_trace w ++ [EHttp url
                  (top (push (push (w_heap w) info)
                          (args_of meth (top (w_heap w))))) h1]) Hnn Herr)
    as (code & Hrun & Hcode).
  eexists _, code. split; [apply call_is_sent |]. split; [exact Hcode |].
  rewrite (literal_call transport c w dflt Hd url info (args_of meth) k Hh Hp).
  rewrite Ht. fold h1.
  by rewrite (bind_Throw _ _ _ _ _ Hrun).
Qed.
End Fetch.

(** The value of a property, [undefined] when the object has none. *)
Definition field (h : heap) (l : loc) (k : string) : value :=
  default VUndef (obj_at h l !! k).

Lemma get_field_run (l : loc) (k : string) (w : world) :
  get_field (VRef l) k w = (Ok (field (w_heap w) l k), w).
Proof. reflexivity. Qed.

(** The [info] literals of the operations. *)
Definition token_info_query (accessToken : value) : obj :=
  list_to_map [("access_token", accessToken)].

Definition user_query (accessToken uid lang : value) : obj :=
  list_to_map [("access_token", accessToken); ("uid", uid);
               ("lang", js_or lang (VStr "en"))].

Definition code_grant (c : client) (code : value) : obj :=
  list_to_map [("client_id", clientId c); ("client_secret", clientSecret c);
               ("code", code); ("grant_type", VStr "authorization_code");
               ("redirect_uri", redirectUri c)].

Definition refresh_grant (c : client) (refreshToken : value) : obj :=
  list_to_map [("client_id", clientId c); ("client_secret", clientSecret c);
               ("grant_type", VStr "refresh_token");
               ("redirect_uri", redirectUri c);
               ("refresh_token", refreshToken)].

(** The value of a field that is not an object. *)
Definition json_prim (j : json) : option value :=
  match j with
  | JNull => Some VNull
  | JBool b => Some (VBool b)
  | JNum z => Some (VNum (round64 z))
  | JStr s => Some (VStr s)
  | JObj _ => None
  end.

Lemma json_prim_primitive (j : json) (u : value) :
  json_prim j = Some u -> primitive u = true.
Proof. destruct j; intros [= <-]; reflexivity. Qed.

Lemma decoded_prim (v u : value) (j : json) :
  decoded_as v (Some j) -> json_prim j = Some u -> v = u.
Proof. intros [h ->] Hj. destruct j; simpl in *; congruence. Qed.

Lemma obj_at_allocated (h : heap) (l : loc) (k : string) (v : value) :
  obj_at h l !! k = Some v -> is_Some (h !! l).
Proof. unfold obj_at. destruct (h !! l); [eauto | done]. Qed.

Section Operations.
Variable transport : nat -> string -> tree -> response.
Variable clock : nat -> Z.

Lemma literal_call_last (c : client) (url : string) (info : obj)
    (meth : option value) (w : world) :
  (let* linfo := alloc info in
   let* largs := alloc (args_of meth linfo) in
   request transport c url (Some largs)) w
  = (let* linfo := alloc info in
     let* largs := alloc (args_of meth linfo) in
     let* d := request transport c url (Some largs) in ret d) w.
Proof.
  rewrite !(bind_Ok _ _ _ _ _ (alloc_run info w)).
  rewrite !(bind_Ok _ _ _ _ _ (alloc_run (args_of meth (top (w_heap w))) _)).
  symmetry. apply bind_ret_r.
Qed.

Lemma getTokenInfo_run (c : client) (accessToken : value) (w : world) :
  getTokenInfo transport c accessToken w
  = (let* linfo := alloc (token_info_query accessToken) in
     let* largs := alloc (args_of None linfo) in
     let* d := request transport c token_info_url (Some largs) in ret d) w.
Proof. apply (literal_call_last c token_info_url _ None). Qed.

Lemma _getUser_run (c : client) (lo : loc) (accessToken : value) (w : world) :
  _getUser transport c (VRef lo) accessToken w
  = (let* linfo := alloc (user_query accessToken
                            (field (w_heap w) lo "uid")
                            (field (w_heap w) lo "lang")) in
     let* largs := alloc (args_of None linfo) in
     let* d := request transport c user_url (Some largs) in ret d) w.
Proof.
  unfold _getUser.
  rewrite (bind_Ok _ _ _ _ _ (get_field_run lo "uid" w)).
  rewrite (bind_Ok _ _ _ _ _ (get_field_run lo "lang" w)).
  apply (literal_call_last c user_url _ None).
Qed.

(** [getTokenInfo] makes one call, to the introspection address, with the
    access token as its only datum and no method of its own; when the body
    is not [null] and reports no error, the decoded body is returned as it
    is.  No clock is read and no object of the heap is changed: the store is
    not consulted, whatever the functions of the client are. *)
Theorem getTokenInfo_returns_payload (c : client) (accessToken : value)
    (w : world) (dflt : obj) (st : Z) (body : json) :
  w_heap w !! defaults c = Some dflt ->
  (forall t, transport (length (w_trace w)) token_info_url t
             = RespOk st body) ->
  body <> JNull ->
  json_truthy (json_get body "error") = false ->
  exists (e : event) (h1 : heap),
    getTokenInfo transport c accessToken w
    = (Ok (alloc_json body h1).1,
       World (alloc_json body h1).2 (w_trace w ++ [e]))
    /\ sent e token_info_url None (token_info_query accessToken) dflt
    /\ w_heap w ⊆ (alloc_json body h1).2.
Proof.
  intros Hd Ht Hnn Herr.
  destruct (literal_call_returns transport c w dflt Hd token_info_url None
              (token_info_query accessToken) ret st body Ht Hnn Herr)
    as (e & Hsent & Hrun).
  exists e, (call_heap (w_heap w) (token_info_query accessToken)
               (args_of None) dflt).
  split; [| split; [exact Hsent |]].
  - rewrite getTokenInfo_run. exact Hrun.
  - etransitivity; [apply call_heap_extends | apply alloc_json_extends].
Qed.

(** [getUser2] makes one call, to the profile address, with the access
    token and the user it is given and the language [en]; it returns the
    decoded profile.  The store is not consulted and no object of the heap
    is changed. *)
Theorem getUser2_fetches (c : client) (uid accessToken : value)
    (w : world) (dflt : obj) (st : Z) (body : json) :
  w_heap w !! defaults c = Some dflt ->
  (forall t, transport (length (w_trace w)) user_url t = RespOk st body) ->
  body <> JNull ->
  json_truthy (json_get body "error") = false ->
  exists (e : event) (h1 : heap),
    getUser2 transport c uid accessToken w
    = (Ok (alloc_json body h1).1,
       World (alloc_json body h1).2 (w_trace w ++ [e]))
    /\ sent e user_url None
         (list_to_map [("access_token", accessToken); ("uid", uid);
                       ("lang", VStr "en")]) dflt
    /\ w_heap w ⊆ (alloc_json body h1).2.
Proof.
  intros Hd Ht Hnn Herr. unfold getUser2.
  rewrite (bind_Ok _ _ _ _ _ (alloc_run _ w)).
  set (w1 := World (push (w_heap w) (list_to_map [("uid", uid)])) (w_trace w)).
  assert (w_heap w1 !! defaults c = Some dflt) as Hd1
    by (apply (lookup_weaken (w_heap w)); [done | apply push_extends]).
  rewrite _getUser_run.
  assert (field (w_heap w1) (top (w_heap w)) "uid" = uid) as ->
    by (unfold field, w1; cbn [w_heap]; by rewrite obj_at_push_top).
  assert (field (w_heap w1) (top (w_heap w)) "lang" = VUndef) as ->
    by (unfold field, w1; cbn [w_heap]; by rewrite obj_at_push_top).
  destruct (literal_call_returns transport c w1 dflt Hd1 user_url None
              (user_query accessToken uid VUndef) ret st body Ht Hnn Herr)
    as (e & Hsent & Hrun).
  exists e, (call_heap (w_heap w1) (user_query accessToken uid VUndef)
               (args_of None) dflt).
  split; [exact Hrun |]. split; [exact Hsent |].
  etransitivity; [apply push_extends |].
  etransitivity; [apply call_heap_extends | apply alloc_json_extends].
Qed.

Lemma getUser_bare (c : client) (uid : value) (w : world) :
  typeof_object uid = false ->
  getUser transport clock c uid w
  = getUser transport clock c (VRef (top (w_heap w)))
      (World (push (w_heap w) (list_to_map [("uid", uid)])) (w_trace w)).
Proof.
  intros Hty. unfold getUser. rewrite Hty. cbn [negb typeof_object].
  unfold bind at 1. unfold bind at 1. rewrite alloc_run. reflexivity.
Qed.

Lemma default_getToken_found (st : loc) (uid v : value) (w : world) :
  primitive uid = true ->
  obj_at (w_heap w) st !! text uid = Some v ->
  text uid <> "__proto__" ->
  default_getToken st uid w = (Ok v, w).
Proof.
  intros Hp Hv Hk. unfold default_getToken.
  rewrite (bind_Ok _ _ _ _ _ (to_string_primitive _ _ Hp)).
  unfold get_index. apply String.eqb_neq in Hk. by rewrite Hk, Hv.
Qed.

(** The expiry the code computes for the token at [ld]:
    [create_at + expires_in * 1000], in the arithmetic of doubles. *)
Definition expiry_of (h : heap) (ld : loc) : option num :=
  expiry (field h ld "create_at") (field h ld "expires_in").

Lemma isValid_run (ld : loc) (w : world) (a : value) (limit : num) :
  field (w_heap w) ld "access_token" = a ->
  truthy a = true ->
  expiry_of (w_heap w) ld = Some limit ->
  let t := clock (length (w_trace w)) in
  isValid clock (mkAccessToken (VRef ld)) w
  = (Ok (num_lt (Fin t) limit),
     World (w_heap w) (w_trace w ++ [ENow t])).
Proof.
  intros Ha Hta Hlim t. unfold isValid. cbn [data].
  rewrite (bind_Ok _ _ _ _ _ (get_field_run ld "access_token" w)), Ha, Hta.
  unfold bind at 1, now. cbn [w_heap w_trace]. fold t.
  rewrite (bind_Ok _ _ _ _ _ (get_field_run ld "create_at" _)).
  rewrite (bind_Ok _ _ _ _ _ (get_field_run ld "expires_in" _)).
  cbn [w_heap]. unfold expiry_of in Hlim. rewrite Hlim. reflexivity.
Qed.

(** [getUser] on an options object when the store holds a token that is
    still valid: the profile is fetched with it. *)
Lemma getUser_valid_run (c : client) (lo ld : loc) (w : world) (a : value)
    (limit : num) :
  getToken c (field (w_heap w) lo "uid") w = (Ok (VRef ld), w) ->
  field (w_heap w) ld "access_token" = a ->
  truthy a = true ->
  expiry_of (w_heap w) ld = Some limit ->
  let t := clock (length (w_trace w)) in
  num_lt (Fin t) limit = true ->
  getUser transport clock c (VRef lo) w
  = _getUser transport c (VRef lo) a
      (World (w_heap w) (w_trace w ++ [ENow t])).
Proof.
  intros Hload Ha Hta Hlim t Hlt. unfold getUser. cbn [negb typeof_object].
  unfold bind at 1. cbn [ret].
  rewrite (bind_Ok _ _ _ _ _ (get_field_run lo "uid" w)).
  rewrite (bind_Ok _ _ _ _ _ Hload). cbn [truthy negb].
  rewrite (bind_Ok _ _ _ _ _ (isValid_run ld w a limit Ha Hta Hlim)).
  fold t. rewrite Hlt. cbv iota. cbn [data].
  rewrite (bind_Ok _ _ _ _ _ (get_field_run ld "access_token" _)).
  cbn [w_heap]. by rewrite Ha.
Qed.

(** [getUser] on an options object when the load answers nothing. *)
Lemma getUser_absent_run (c : client) (lo : loc) (w w2 : world) (d : value)
    (k : string) :
  getToken c (field (w_heap w) lo "uid") w = (Ok d, w2) ->
  truthy d = false ->
  to_string (field (w_heap w2) lo "uid") w2 = (Ok k, w2) ->
  getUser transport clock c (VRef lo) w = (Throw (no_token_error k), w2).
Proof.
  intros Hload Hd Hk. unfold getUser. cbn [negb typeof_object].
  unfold bind at 1. cbn [ret].
  rewrite (bind_Ok _ _ _ _ _ (get_field_run lo "uid" w)).
  rewrite (bind_Ok _ _ _ _ _ Hload), Hd. cbn [negb].
  rewrite (bind_Ok _ _ _ _ _ (get_field_run lo "uid" w2)).
  apply throw_no_token, Hk.
Qed.

(** [getUser] on an options object whose [uid] is a primitive, with the
    store of the constructor holding for it (under its text, which is not
    [__proto__]) a token with a truthy [access_token] that is still valid at
    the time [t] of the check: [t] is less than the expiry [limit] the code
    computes, in the arithmetic of doubles, from [create_at] and
    [expires_in].  The clock is read once, one call is made, to the profile
    address, with the access token of the store, the [uid] and the [lang] of
    the options; the profile is returned.  Nothing is refreshed or saved: no
    object of the heap is changed. *)
Theorem getUser_uses_valid_token (c : client) (lo ld : loc) (w : world)
    (dflt : obj) (a : value) (limit : num) (st : Z) (body : json) :
  let uid := field (w_heap w) lo "uid" in
  let t := clock (length (w_trace w)) in
  getToken c = default_getToken (store c) ->
  w_heap w !! defaults c = Some dflt ->
  primitive uid = true ->
  obj_at (w_heap w) (store c) !! text uid = Some (VRef ld) ->
  text uid <> "__proto__" ->
  field (w_heap w) ld "access_token" = a ->
  truthy a = true ->
  expiry_of (w_heap w) ld = Some limit ->
  num_lt (Fin t) limit = true ->
  (forall x, transport (S (length (w_trace w))) user_url x
             = RespOk st body) ->
  body <> JNull ->
  json_truthy (json_get body "error") = false ->
  exists (e : event) (h1 : heap),
    getUser transport clock c (VRef lo) w
    = (Ok (alloc_json body h1).1,
       World (alloc_json body h1).2 (w_trace w ++ [ENow t; e]))
    /\ sent e user_url None
         (user_query a uid (field (w_heap w) lo "lang")) dflt
    /\ w_heap w ⊆ (alloc_json body h1).2.
Proof.
  intros uid t Hget Hd Hp Hst Hk Ha Hta Hlim Hlt Ht Hnn Herr. subst uid.
  rewrite (getUser_valid_run c lo ld w a limit); try done.
  - rewrite _getUser_run. cbn [w_heap]. fold t.
    set (w1 := World (w_heap w) (w_trace w ++ [ENow t])).
    destruct (literal_call_returns transport c w1 dflt Hd user_url None
                (user_query a (field (w_heap w) lo "uid")
                   (field (w_heap w) lo "lang")) ret st body)
      as (e & Hsent & Hrun); try done.
    { intros x. unfold w1. cbn [w_trace].
      rewrite length_app, Nat.add_1_r. apply Ht. }
    exists e, (call_heap (w_heap w)
                 (user_query a (field (w_heap w) lo "uid")
                    (field (w_heap w) lo "lang"))
                 (args_of None) dflt).
    split; [| split; [exact Hsent |]].
    + rewrite Hrun. unfold w1. cbn [w_heap w_trace ret].
      by rewrite <- app_assoc.
    + etransitivity; [apply call_heap_extends | apply alloc_json_extends].
  - rewrite Hget. by apply default_getToken_found.
Qed.

(** [getUserByAccessToken] only introspects the token it is given: when the
    store of the constructor holds no token for the user the provider names,
    it throws [NoOAuthTokenError] after that single call, and no object of
    the heap is changed.  The user is a string, a number or a boolean of the
    body whose text is neither [__proto__] nor a name that an object
    inherits from its prototype. *)
Theorem getUserByAccessToken_needs_stored_token (c : client)
    (accessToken u : value) (w : world) (dflt : obj) (st : Z) (body j : json) :
  getToken c = default_getToken (store c) ->
  w_heap w !! defaults c = Some dflt ->
  is_Some (w_heap w !! store c) ->
  (forall x, transport (length (w_trace w)) token_info_url x
             = RespOk st body) ->
  body <> JNull ->
  json_truthy (json_get body "error") = false ->
  json_get body "uid" = Some j ->
  json_prim j = Some u ->
  typeof_object u = false ->
  obj_at (w_heap w) (store c) !! text u = None ->
  text u ∉ "__proto__" :: prototype_names ->
  exists (e : event) (hf : heap),
    getUserByAccessToken transport clock c accessToken w
    = (Throw (no_token_error (text u)), World hf (w_trace w ++ [e]))
    /\ sent e token_info_url None (token_info_query accessToken) dflt
    /\ w_heap w ⊆ hf.
Proof.
  intros Hget Hd Hst Ht Hnn Herr Huid Hprim Hty Hnone Hname.
  destruct (literal_call_returns transport c w dflt Hd token_info_url None
              (token_info_query accessToken) ret st body Ht Hnn Herr)
    as (e & Hsent & Hrun).
  set (h1 := call_heap (w_heap w) (token_info_query accessToken)
               (args_of None) dflt) in *.
  assert (w_heap w ⊆ (alloc_json body h1).2) as Hext.
  { etransitivity; [apply call_heap_extends | apply alloc_json_extends]. }
  set (hb := (alloc_json body h1).2) in *.
  set (lo := top hb).
  set (hf := push hb (list_to_map [("uid", u)])).
  exists e, hf. split; [| split; [exact Hsent |]].
  - unfold getUserByAccessToken.
    erewrite bind_Ok; [| rewrite getTokenInfo_run; exact Hrun].
    cbn [ret].
    destruct (decoded_field body h1 "uid"
                (World h1 (w_trace w ++ [e])) Hnn) as (v & Hv & Hdec).
    cbn [w_trace] in Hv. fold hb in Hv.
    rewrite (bind_Ok _ _ _ _ _ Hv).
    rewrite Huid in Hdec. rewrite (decoded_prim _ _ _ Hdec Hprim).
    rewrite (getUser_bare c u _ Hty). cbn [w_heap w_trace]. fold lo hf.
    assert (field hf lo "uid" = u) as Hfu
      by (unfold field, hf, lo; by rewrite obj_at_push_top).
    pose proof (json_prim_primitive _ _ Hprim) as Hp.
    rewrite (getUser_absent_run c lo (World hf (w_trace w ++ [e]))
               (World hf (w_trace w ++ [e])) VUndef (text u)); cbn [w_heap].
    + reflexivity.
    + rewrite Hfu, Hget.
      apply (default_getToken_absent _ _ (text u));
        [by apply to_string_primitive | | done].
      cbn [w_heap].
      rewrite (obj_at_weaken (w_heap w) hf); [done | | done].
      etransitivity; [exact Hext | apply push_extends].
    + reflexivity.
    + rewrite Hfu. by apply to_string_primitive.
  - etransitivity; [exact Hext | apply push_extends].
Qed.

Lemma getAccessToken_run (c : client) (code : value) (w : world) :
  getAccessToken transport clock c code w
  = (let* linfo := alloc (code_grant c code) in
     let* largs := alloc (args_of (Some (VStr "POST")) linfo) in
     let* d := request transport c token_url (Some largs) in
     processToken clock c d) w.
Proof. reflexivity. Qed.

Lemma refreshAccessToken_run (c : client) (refreshToken : value) (w : world) :
  refreshAccessToken transport clock c refreshToken w
  = (let* linfo := alloc (refresh_grant c refreshToken) in
     let* largs := alloc (args_of None linfo) in
     let* d := request transport c token_url (Some largs) in
     processToken clock c d) w.
Proof. reflexivity. Qed.

Lemma processToken_run (c : client) (l : loc) (w : world) :
  let t := clock (length (w_trace w)) in
  processToken clock c (VRef l) w
  = (saveToken c (field (w_heap w) l "uid") (VRef l);;;
     ret (mkAccessToken (VRef l)))
      (World (<[l := <["create_at" := VNum t]> (obj_at (w_heap w) l)]>
                (w_heap w))
             (w_trace w ++ [ENow t])).
Proof.
  cbv zeta. unfold processToken, now. exec.
  rewrite obj_at_insert_eq, lookup_insert_ne by done. reflexivity.
Qed.

Lemma default_saveToken_run (st : loc) (uid token : value) (w : world) :
  primitive uid = true ->
  text uid <> "__proto__" ->
  default_saveToken st uid token w
  = (Ok tt, World (<[st := <[text uid := token]> (obj_at (w_heap w) st)]>
                     (w_heap w)) (w_trace w)).
Proof.
  intros Hp Hk. unfold default_saveToken.
  rewrite (bind_Ok _ _ _ _ _ (to_string_primitive _ _ Hp)).
  unfold set_index. apply String.eqb_neq in Hk. rewrite Hk. reflexivity.
Qed.

(** The object [o] holds the properties of the decoded body [kvs], and no
    other: each is the value its field decodes to. *)
Definition decoded_object (o : obj) (kvs : list (string * json)) : Prop :=
  forall k,
    match last_field kvs k with
    | Some j => exists h, o !! k = Some (alloc_json j h).1
    | None => o !! k = None
    end.

Lemma decoded_object_field (o : obj) (kvs : list (string * json))
    (k : string) :
  decoded_object o kvs ->
  decoded_as (default VUndef (o !! k)) (last_field kvs k).
Proof.
  intros H. specialize (H k).
  destruct (last_field kvs k) as [j |]; cbn [decoded_as].
  - destruct H as [h ->]. by exists h.
  - by rewrite H.
Qed.

(** What a successful exchange leaves, with the store of the constructor:
    the body is a new object [l], stamped and saved under its [uid]; every
    other object is as before. *)
Definition minted (c : client) (kvs : list (string * json)) (u : value)
    (t : Z) (w : world) (l : loc) (hf : heap) : Prop :=
  w_heap w !! l = None
  /\ (exists o, hf !! l = Some (<["create_at" := VNum t]> o)
                /\ decoded_object o kvs)
  /\ obj_at hf (store c) = <[text u := VRef l]>
                             (obj_at (w_heap w) (store c))
  /\ (forall l', is_Some (w_heap w !! l') -> is_Some (hf !! l'))
  /\ (forall l', is_Some (w_heap w !! l') -> l' <> store c ->
                 hf !! l' = w_heap w !! l').

Lemma mint_run (c : client) (w : world) (dflt : obj) (meth : option value)
    (info : obj) (st : Z) (kvs : list (string * json)) (j : json) (u : value) :
  saveToken c = default_saveToken (store c) ->
  w_heap w !! defaults c = Some dflt ->
  is_Some (w_heap w !! store c) ->
  (forall x, transport (length (w_trace w)) token_url x
             = RespOk st (JObj kvs)) ->
  json_truthy (last_field kvs "error") = false ->
  last_field kvs "uid" = Some j ->
  json_prim j = Some u ->
  text u <> "__proto__" ->
  let t := clock (S (length (w_trace w))) in
  exists (e : event) (l : loc) (hf : heap),
    sent e token_url meth info dflt
    /\ (let* linfo := alloc info in
        let* largs := alloc (args_of meth linfo) in
        let* d := request transport c token_url (Some largs) in
        processToken clock c d) w
       = (Ok (mkAccessToken (VRef l)),
          World hf (w_trace w ++ [e; ENow t]))
    /\ minted c kvs u t w l hf.
Proof.
  intros Hsave Hd Hst Ht Herr Huid Hprim Hk t.
  destruct (literal_call_returns transport c w dflt Hd token_url meth info
              (processToken clock c) st (JObj kvs) Ht) as (e & Hsent & Hrun);
    [done | done |].
  set (h1 := call_heap (w_heap w) info (args_of meth) dflt) in *.
  assert (w_heap w ⊆ h1) as Hext1 by apply call_heap_extends.
  rewrite alloc_json_obj in Hrun. cbn [fst snd] in Hrun.
  pose proof (alloc_fields_extends kvs) as Hext2.
  specialize (Hext2 (proj2 (Forall_forall _ _)
                       (fun kv _ h => alloc_json_extends kv.2 h)) ∅ h1).
  set (o := (alloc_fields alloc_json ∅ kvs h1).1) in *.
  set (hd := (alloc_fields alloc_json ∅ kvs h1).2) in *.
  set (l := top hd).
  assert (w_heap w ⊆ hd) as Hext by (etransitivity; eassumption).
  assert (hd !! l = None) as Hl by apply lookup_top.
  assert (w_heap w !! l = None) as Hl0.
  { destruct (w_heap w !! l) as [x |] eqn:E; [| done].
    by rewrite (lookup_weaken _ _ _ _ E Hext) in Hl. }
  assert (l <> store c) as Hls by (intros ->; destruct Hst; congruence).
  assert (decoded_object o kvs) as Hdec.
  { intros k. pose proof (alloc_fields_lookup kvs ∅ h1 k) as H. fold o in H.
    destruct (last_field kvs k) as [j' |].
    - destruct H as (hj & -> & _). by exists hj.
    - by rewrite H. }
  assert (default VUndef (o !! "uid") = u) as Hu.
  { pose proof (decoded_object_field o kvs "uid" Hdec) as H. rewrite Huid in H.
    exact (decoded_prim _ _ _ H Hprim). }
  pose proof (json_prim_primitive _ _ Hprim) as Hp.
  set (stamped := <["create_at" := VNum t]> o).
  set (hs := <[l := stamped]> hd).
  exists e, l, (<[store c := <[text u := VRef l]> (obj_at hs (store c))]> hs).
  split; [exact Hsent |]. split.
  - rewrite Hrun. fold l. rewrite processToken_run. cbn [w_heap w_trace].
    rewrite obj_at_insert_eq, insert_insert_eq.
    rewrite length_app, Nat.add_1_r. fold t stamped hs.
    unfold field. rewrite obj_at_insert_eq, Hu, Hsave.
    erewrite bind_Ok; [| by apply default_saveToken_run].
    cbn [ret w_heap w_trace]. by rewrite <- app_assoc.
  - assert (obj_at hs (store c) = obj_at (w_heap w) (store c)) as Hso.
    { unfold hs. rewrite obj_at_insert_ne by done.
      by apply obj_at_weaken. }
    split; [exact Hl0 |]. split; [| split; [| split]].
    + exists o. split; [| exact Hdec].
      rewrite lookup_insert_ne by done. apply lookup_insert_eq.
    + by rewrite obj_at_insert_eq, Hso.
    + intros l' Hl'. destruct (decide (l' = store c)) as [-> | Hne].
      * rewrite lookup_insert_eq. eauto.
      * rewrite lookup_insert_ne by done. unfold hs.
        destruct (decide (l' = l)) as [-> | Hne'].
        -- rewrite lookup_insert_eq. eauto.
        -- rewrite lookup_insert_ne by done. by apply (is_Some_weaken (w_heap w)).
    + intros l' [x Hx] Hne. rewrite lookup_insert_ne by done. unfold hs.
      rewrite lookup_insert_ne by (intros ->; congruence).
      rewrite Hx. by apply (lookup_weaken (w_heap w)).
Qed.

(** When the exchange of the code fails, [getUserByCode] throws what
    [getAccessToken] throws: the error of the transport, its name prefixed,
    or the error of a body whose [error] is truthy, which is a
    [WeiboAPIError] with the text of the [error_description] as its message
    and the [error_code] as its code, and a [TypeError] when the description
    is an object with a [toString] property, which has no text.  One call
    was made, with the method [POST]; no clock was read, nothing was saved
    and no profile was asked for. *)
Theorem getUserByCode_failed_exchange (c : client) (code : value)
    (w : world) (dflt : obj) :
  w_heap w !! defaults c = Some dflt ->
  (forall err : exn,
      (forall x, transport (length (w_trace w)) token_url x = RespFail err) ->
      exists (e : event) (hf : heap),
        getUserByCode transport clock c code w
        = (Throw (JsError ("WeiboAPI" ++ err_name err) (err_message err)
                    (err_code err)),
           World hf (w_trace w ++ [e]))
        /\ sent e token_url (Some (VStr "POST")) (code_grant c code) dflt
        /\ w_heap w ⊆ hf)
  /\ (forall (st : Z) (body : json),
      (forall x, transport (length (w_trace w)) token_url x
                 = RespOk st body) ->
      body <> JNull ->
      json_truthy (json_get body "error") = true ->
      exists (e : event) (hf : heap) (ecode : value),
        getUserByCode transport clock c code w
        = (Throw (rejection (json_message (json_get body "error_description"))
                    ecode),
           World hf (w_trace w ++ [e]))
        /\ decoded_as ecode (json_get body "error_code")
        /\ sent e token_url (Some (VStr "POST")) (code_grant c code) dflt
        /\ w_heap w ⊆ hf).
Proof.
  intros Hd. split.
  - intros err Ht.
    destruct (literal_call_fails transport c w dflt Hd token_url
                (Some (VStr "POST")) (code_grant c code)
                (processToken clock c) err Ht) as (e & Hsent & Hrun).
    eexists e, _. split; [| split; [exact Hsent | apply call_heap_extends]].
    unfold getUserByCode. erewrite bind_Throw; [reflexivity |].
    rewrite getAccessToken_run. exact Hrun.
  - intros st body Ht Hnn Herr.
    destruct (literal_call_rejected transport c w dflt Hd token_url
                (Some (VStr "POST")) (code_grant c code)
                (processToken clock c) st body Ht Hnn Herr)
      as (e & ecode & Hsent & Hcode & Hrun).
    eexists e, _, ecode. split; [| split; [exact Hcode | split; [exact Hsent |]]].
    + unfold getUserByCode. erewrite bind_Throw; [reflexivity |].
      rewrite getAccessToken_run. exact Hrun.
    + etransitivity; [apply call_heap_extends | apply alloc_json_extends].
Qed.

(** [getUserByCode] with the store of the constructor, a provider that
    mints a token with a non-empty [access_token], a number of seconds and a
    [uid] that is a string, a number or a boolean whose text is not
    [__proto__], and a clock that at the check has not reached the expiry
    the code computes in the arithmetic of doubles.  Two calls are made, the
    exchange and the profile, the second with the access token and the user
    of the first, and the profile is returned.  The token is stored: the
    store holds, under the text of the [uid], a new object [l] that has
    exactly the decoded properties of the body and the [create_at] read
    from the clock after the exchange; the objects that existed, the store
    apart, are as they were. *)
Theorem getUserByCode_fetches_with_minted_token (c : client) (code : value)
    (w : world) (dflt : obj) (st1 st2 e0 : Z) (kvs : list (string * json))
    (body : json) (a : string) (ju : json) (u : value) :
  let n := length (w_trace w) in
  let t1 := clock (S n) in
  let t2 := clock (S (S n)) in
  getToken c = default_getToken (store c) ->
  saveToken c = default_saveToken (store c) ->
  w_heap w !! defaults c = Some dflt ->
  is_Some (w_heap w !! store c) ->
  store c <> defaults c ->
  (forall k x, transport k token_url x = RespOk st1 (JObj kvs)) ->
  (forall k x, transport k user_url x = RespOk st2 body) ->
  json_truthy (last_field kvs "error") = false ->
  last_field kvs "access_token" = Some (JStr a) ->
  a <> "" ->
  last_field kvs "expires_in" = Some (JNum e0) ->
  last_field kvs "uid" = Some ju ->
  json_prim ju = Some u ->
  typeof_object u = false ->
  text u <> "__proto__" ->
  num_lt (Fin t2) (num_add (Fin t1) (num_mul (round64 e0) (Fin 1000))) = true ->
  body <> JNull ->
  json_truthy (json_get body "error") = false ->
  exists (e1 e2 : event) (l : loc) (h1 : heap) (o : obj),
    getUserByCode transport clock c code w
    = (Ok (alloc_json body h1).1,
       World (alloc_json body h1).2
             (w_trace w ++ [e1; ENow t1; ENow t2; e2]))
    /\ sent e1 token_url (Some (VStr "POST")) (code_grant c code) dflt
    /\ sent e2 user_url None (user_query (VStr a) u VUndef) dflt
    /\ w_heap w !! l = None
    /\ obj_at (alloc_json body h1).2 (store c)
       = <[text u := VRef l]> (obj_at (w_heap w) (store c))
    /\ (alloc_json body h1).2 !! l = Some (<["create_at" := VNum t1]> o)
    /\ decoded_object o kvs
    /\ (forall l', is_Some (w_heap w !! l') -> l' <> store c ->
                   (alloc_json body h1).2 !! l' = w_heap w !! l').
Proof.
  intros n t1 t2 Hget Hsave Hd Hst Hsd Htok Husr Herr Hat Ha He0 Huid Hprim
    Hty Hk Hlt Hnn Herr2.
  destruct (mint_run c w dflt (Some (VStr "POST")) (code_grant c code)
              st1 kvs ju u Hsave Hd Hst (Htok _) Herr Huid Hprim Hk)
    as (e1 & l & hf & Hsent1 & Hrun1 & Hl0 & (o & Hl & Hdec) & Hstore
        & Halloc & Hframe).
  fold n t1 in Hrun1, Hl.
  pose proof (json_prim_primitive _ _ Hprim) as Hp.
  set (tr1 := (w_trace w ++ [e1; ENow t1])%list) in *.
  (* the fields of the token that was saved *)
  assert (forall k, k <> "create_at" ->
            field hf l k = default VUndef (o !! k)) as Hfld.
  { intros k Hne. unfold field. rewrite (obj_at_Some _ _ _ Hl).
    by rewrite lookup_insert_ne. }
  assert (field hf l "uid" = u) as Hfu.
  { rewrite Hfld by done.
    pose proof (decoded_object_field o kvs "uid" Hdec) as H.
    rewrite Huid in H. exact (decoded_prim _ _ _ H Hprim). }
  assert (field hf l "access_token" = VStr a) as Hfa.
  { rewrite Hfld by done.
    pose proof (decoded_object_field o kvs "access_token" Hdec) as H.
    rewrite Hat in H. exact (decoded_prim _ _ _ H eq_refl). }
  assert (field hf l "expires_in" = VNum (round64 e0)) as Hfe.
  { rewrite Hfld by done.
    pose proof (decoded_object_field o kvs "expires_in" Hdec) as H.
    rewrite He0 in H. exact (decoded_prim _ _ _ H eq_refl). }
  assert (field hf l "create_at" = VNum t1) as Hfc.
  { unfold field. rewrite (obj_at_Some _ _ _ Hl). by rewrite lookup_insert_eq. }
  (* the world in which [getUser] looks the token up *)
  set (lo := top hf).
  set (h2 := push hf (list_to_map [("uid", u)])).
  assert (hf ⊆ h2) as Hext2 by apply push_extends.
  assert (forall k, field h2 l k = field hf l k) as Hsame.
  { intros k. unfold field. rewrite (obj_at_weaken hf h2); eauto. }
  assert (field h2 lo "uid" = u) as Hlu
    by (unfold field, h2, lo; by rewrite obj_at_push_top).
  assert (field h2 lo "lang" = VUndef) as Hll
    by (unfold field, h2, lo; by rewrite obj_at_push_top).
  assert (obj_at h2 (store c) = <[text u := VRef l]>
                                  (obj_at (w_heap w) (store c))) as Hstore2.
  { rewrite (obj_at_weaken hf h2); [done | done | by apply Halloc]. }
  assert (h2 !! defaults c = Some dflt) as Hd2.
  { apply (lookup_weaken hf); [| done].
    rewrite Hframe; [done | eauto | done]. }
  set (w3 := World h2 (tr1 ++ [ENow t2])).
  destruct (literal_call_returns transport c w3 dflt Hd2 user_url None
              (user_query (VStr a) u VUndef) ret st2 body (Husr _) Hnn Herr2)
    as (e2 & Hsent2 & Hrun2).
  set (h3 := call_heap h2 (user_query (VStr a) u VUndef) (args_of None) dflt)
    in *.
  assert (h2 ⊆ (alloc_json body h3).2) as Hext3.
  { etransitivity; [apply call_heap_extends | apply alloc_json_extends]. }
  assert (hf ⊆ (alloc_json body h3).2) as Hext4
    by (etransitivity; eassumption).
  assert (length tr1 = S (S n)) as Hlen.
  { unfold tr1. rewrite length_app. cbn. unfold n. lia. }
  exists e1, e2, l, h3, o.
  split; [| split; [exact Hsent1 | split; [exact Hsent2 |
            split; [exact Hl0 | split; [| split; [| split; [exact Hdec |]]]]]]].
  - unfold getUserByCode.
    erewrite bind_Ok; [| rewrite getAccessToken_run; exact Hrun1].
    cbn [data]. rewrite (bind_Ok _ _ _ _ _ (get_field_run l "uid" _)).
    cbn [w_heap]. rewrite Hfu.
    rewrite (getUser_bare c u _ Hty). cbn [w_heap w_trace]. fold lo h2.
    rewrite (getUser_valid_run c lo l (World h2 tr1) (VStr a)
               (num_add (Fin t1) (num_mul (round64 e0) (Fin 1000))));
      cbn [w_heap w_trace].
    + rewrite Hlen.
      fold t2 w3. rewrite _getUser_run. cbn [w_heap]. unfold w3 at 1 2.
      cbn [w_heap]. rewrite Hlu, Hll, Hrun2.
      unfold w3, tr1. cbn [ret w_heap w_trace].
      by rewrite <- !app_assoc.
    + rewrite Hlu, Hget. apply default_getToken_found; [done | | done].
      cbn [w_heap]. rewrite Hstore2. apply lookup_insert_eq.
    + by rewrite Hsame.
    + cbn. apply String.eqb_neq in Ha. by rewrite Ha.
    + unfold expiry_of. by rewrite !Hsame, Hfc, Hfe.
    + rewrite Hlen. exact Hlt.
  - rewrite (obj_at_weaken h2); [done | done |].
    apply (is_Some_weaken hf); [done | by apply Halloc].
  - by apply (lookup_weaken hf).
  - intros l' Hl' Hne. rewrite <- (Hframe l' Hl' Hne).
    destruct (Halloc l' Hl') as [x Hx]. rewrite Hx.
    by apply (lookup_weaken hf).
Qed.

(** [getUserByAccessToken] fetches the profile with the token of the store,
    not with the one it is given: the given token goes to the introspection
    only, and the access token [a] that the store of the constructor holds
    for the user the provider names goes to the profile call.  The user is
    a string, a number or a boolean of the body whose text is not
    [__proto__]; the stored token has a truthy [access_token] and is still
    valid: the time [t] of the check is less than the expiry [limit] the
    code computes, in the arithmetic of doubles, from its [create_at] and
    [expires_in].  No object of the heap is changed. *)
Theorem getUserByAccessToken_uses_cached_token (c : client)
    (accessToken u a : value) (w : world) (dflt : obj) (ld : loc)
    (limit : num) (st1 st2 : Z) (info profile j : json) :
  let n := length (w_trace w) in
  let t := clock (S n) in
  getToken c = default_getToken (store c) ->
  w_heap w !! defaults c = Some dflt ->
  (forall k x, transport k token_info_url x = RespOk st1 info) ->
  (forall k x, transport k user_url x = RespOk st2 profile) ->
  info <> JNull ->
  json_truthy (json_get info "error") = false ->
  json_get info "uid" = Some j ->
  json_prim j = Some u ->
  typeof_object u = false ->
  obj_at (w_heap w) (store c) !! text u = Some (VRef ld) ->
  text u <> "__proto__" ->
  field (w_heap w) ld "access_token" = a ->
  truthy a = true ->
  expiry_of (w_heap w) ld = Some limit ->
  num_lt (Fin t) limit = true ->
  profile <> JNull ->
  json_truthy (json_get profile "error") = false ->
  exists (e1 e2 : event) (h1 : heap),
    getUserByAccessToken transport clock c accessToken w
    = (Ok (alloc_json profile h1).1,
       World (alloc_json profile h1).2 (w_trace w ++ [e1; ENow t; e2]))
    /\ sent e1 token_info_url None (token_info_query accessToken) dflt
    /\ sent e2 user_url None (user_query a u VUndef) dflt
    /\ w_heap w ⊆ (alloc_json profile h1).2.
Proof.
  intros n t Hget Hd Hti Husr Hnn Herr Huid Hprim Hty Hst Hk Ha Hta Hlim
    Hlt Hnn2 Herr2.
  pose proof (json_prim_primitive _ _ Hprim) as Hp.
  destruct (literal_call_returns transport c w dflt Hd token_info_url None
              (token_info_query accessToken) ret st1 info (Hti _) Hnn Herr)
    as (e1 & Hsent1 & Hrun1).
  set (h0 := call_heap (w_heap w) (token_info_query accessToken)
               (args_of None) dflt) in *.
  set (hb := (alloc_json info h0).2) in *.
  assert (w_heap w ⊆ hb) as Hext.
  { etransitivity; [apply call_heap_extends | apply alloc_json_extends]. }
  set (lo := top hb).
  set (h2 := push hb (list_to_map [("uid", u)])).
  assert (w_heap w ⊆ h2) as Hext2
    by (etransitivity; [exact Hext | apply push_extends]).
  pose proof (obj_at_allocated _ _ _ _ Hst) as Hsa.
  assert (is_Some (w_heap w !! ld)) as Hla.
  { unfold field, obj_at in Ha. destruct (w_heap w !! ld); [eauto |].
    simpl in Ha. rewrite lookup_empty in Ha. simpl in Ha. subst a.
    discriminate. }
  assert (forall k, field h2 ld k = field (w_heap w) ld k) as Hsame.
  { intros k. unfold field. by rewrite (obj_at_weaken (w_heap w) h2). }
  assert (field h2 lo "uid" = u) as Hlu
    by (unfold field, h2, lo; by rewrite obj_at_push_top).
  assert (field h2 lo "lang" = VUndef) as Hll
    by (unfold field, h2, lo; by rewrite obj_at_push_top).
  assert (h2 !! defaults c = Some dflt) as Hd2
    by (by apply (lookup_weaken (w_heap w))).
  set (tr1 := (w_trace w ++ [e1])%list).
  set (w3 := World h2 (tr1 ++ [ENow t])).
  destruct (literal_call_returns transport c w3 dflt Hd2 user_url None
              (user_query a u VUndef) ret st2 profile (Husr _) Hnn2 Herr2)
    as (e2 & Hsent2 & Hrun2).
  set (h3 := call_heap h2 (user_query a u VUndef) (args_of None) dflt) in *.
  assert (length tr1 = S n) as Hlen.
  { unfold tr1. rewrite length_app. cbn. unfold n. lia. }
  exists e1, e2, h3.
  split; [| split; [exact Hsent1 | split; [exact Hsent2 |]]].
  - unfold getUserByAccessToken.
    erewrite bind_Ok; [| rewrite getTokenInfo_run; exact Hrun1].
    cbn [ret].
    destruct (decoded_field info h0 "uid" (World h0 tr1) Hnn)
      as (v & Hv & Hdec).
    cbn [w_trace] in Hv. fold hb in Hv. fold tr1.
    rewrite (bind_Ok _ _ _ _ _ Hv).
    rewrite Huid in Hdec. rewrite (decoded_prim _ _ _ Hdec Hprim).
    rewrite (getUser_bare c u _ Hty). cbn [w_heap w_trace]. fold lo h2.
    rewrite (getUser_valid_run c lo ld (World h2 tr1) a limit);
      cbn [w_heap w_trace].
    + rewrite Hlen. fold t w3. rewrite _getUser_run. unfold w3 at 1 2.
      cbn [w_heap]. rewrite Hlu, Hll, Hrun2.
      unfold w3, tr1. cbn [ret w_heap w_trace].
      by rewrite <- !app_assoc.
    + rewrite Hlu, Hget. apply default_getToken_found; [done | | done].
      cbn [w_heap]. by rewrite (obj_at_weaken (w_heap w) h2).
    + by rewrite Hsame.
    + done.
    + unfold expiry_of. rewrite !Hsame. exact Hlim.
    + by rewrite Hlen.
  - etransitivity; [exact Hext2 |].
    etransitivity; [apply call_heap_extends | apply alloc_json_extends].
Qed.

(** [getUser] on an options object when the token of the store is stale:
    it goes on with the token a refresh gives. *)
Lemma getUser_stale_run (c : client) (lo ld : loc) (w : world) (a : value)
    (limit : num) :
  getToken c (field (w_heap w) lo "uid") w = (Ok (VRef ld), w) ->
  field (w_heap w) ld "access_token" = a ->
  truthy a = true ->
  expiry_of (w_heap w) ld = Some limit ->
  let t := clock (length (w_trace w)) in
  num_lt (Fin t) limit = false ->
  getUser transport clock c (VRef lo) w
  = (let* newToken := refreshAccessToken transport clock c
                        (field (w_heap w) ld "refresh_token") in
     let* accessToken := get_field (data newToken) "access_token" in
     _getUser transport c (VRef lo) accessToken)
      (World (w_heap w) (w_trace w ++ [ENow t])).
Proof.
  intros Hload Ha Hta Hlim t Hge. unfold getUser. cbn [negb typeof_object].
  unfold bind at 1. cbn [ret].
  rewrite (bind_Ok _ _ _ _ _ (get_field_run lo "uid" w)).
  rewrite (bind_Ok _ _ _ _ _ Hload). cbn [truthy negb].
  rewrite (bind_Ok _ _ _ _ _ (isValid_run ld w a limit Ha Hta Hlim)).
  fold t. rewrite Hge. cbv iota. cbn [data].
  unfold bind at 1. unfold bind at 1.
  rewrite (get_field_run ld "refresh_token" _). cbn [w_heap].
  unfold bind.
  by destruct (refreshAccessToken _ _ _ _ _) as [[tok | err |] w'].
Qed.

(** [getUser] on an options object whose [uid] is a primitive, with the
    store of the constructor holding for it (under its text, which is not
    [__proto__]) a token with a truthy [access_token] that is stale at the
    time [t] of the check: [t] is not less than the expiry [limit] the code
    computes, in the arithmetic of doubles, from [create_at] and
    [expires_in].  When the refresh does not reach the provider, the clock
    was read, one call was made, to the token address with the stored
    [refresh_token] and no method of its own, and the error of the
    transport is thrown, its name prefixed.  No profile is asked for and no
    object of the heap is changed: the stale token stays in the store. *)
Theorem getUser_failed_refresh (c : client) (lo ld : loc) (w : world)
    (dflt : obj) (a : value) (limit : num) (err : exn) :
  let uid := field (w_heap w) lo "uid" in
  let t := clock (length (w_trace w)) in
  getToken c = default_getToken (store c) ->
  w_heap w !! defaults c = Some dflt ->
  primitive uid = true ->
  obj_at (w_heap w) (store c) !! text uid = Some (VRef ld) ->
  text uid <> "__proto__" ->
  field (w_heap w) ld "access_token" = a ->
  truthy a = true ->
  expiry_of (w_heap w) ld = Some limit ->
  num_lt (Fin t) limit = false ->
  (forall x, transport (S (length (w_trace w))) token_url x
             = RespFail err) ->
  exists (e : event) (hf : heap),
    getUser transport clock c (VRef lo) w
    = (Throw (JsError ("WeiboAPI" ++ err_name err) (err_message err)
                (err_code err)),
       World hf (w_trace w ++ [ENow t; e]))
    /\ sent e token_url None
         (refresh_grant c (field (w_heap w) ld "refresh_token")) dflt
    /\ w_heap w ⊆ hf.
Proof.
  intros uid t Hget Hd Hp Hst Hk Ha Hta Hlim Hge Ht. subst uid.
  rewrite (getUser_stale_run c lo ld w a limit); try done.
  - fold t. set (w1 := World (w_heap w) (w_trace w ++ [ENow t])).
    destruct (literal_call_fails transport c w1 dflt Hd token_url None
                (refresh_grant c (field (w_heap w) ld "refresh_token"))
                (processToken clock c) err) as (e & Hsent & Hrun).
    { intros x. unfold w1. cbn [w_trace].
      rewrite length_app, Nat.add_1_r. apply Ht. }
    eexists e, _. split; [| split; [exact Hsent | apply call_heap_extends]].
    erewrite bind_Throw; [| rewrite refreshAccessToken_run; exact Hrun].
    unfold w1. cbn [w_heap w_trace]. by rewrite <- app_assoc.
  - rewrite Hget. by apply default_getToken_found.
Qed.

(** When the transport throws, [getUser2] throws the same error, with its
    message and code, under the name prefixed by [WeiboAPI]; the body is not
    decoded and no object of the heap is changed. *)
Theorem getUser2_transport_failure (c : client) (uid accessToken : value)
    (w : world) (dflt : obj) (err : exn) :
  w_heap w !! defaults c = Some dflt ->
  (forall x, transport (length (w_trace w)) user_url x = RespFail err) ->
  exists (e : event) (hf : heap),
    getUser2 transport c uid accessToken w
    = (Throw (JsError ("WeiboAPI" ++ err_name err) (err_message err)
                (err_code err)),
       World hf (w_trace w ++ [e]))
    /\ sent e user_url None (user_query accessToken uid VUndef) dflt
    /\ w_heap w ⊆ hf.
Proof.
  intros Hd Ht. unfold getUser2.
  rewrite (bind_Ok _ _ _ _ _ (alloc_run _ w)).
  set (w1 := World (push (w_heap w) (list_to_map [("uid", uid)])) (w_trace w)).
  assert (w_heap w1 !! defaults c = Some dflt) as Hd1
    by (apply (lookup_weaken (w_heap w)); [done | apply push_extends]).
  rewrite _getUser_run.
  assert (field (w_heap w1) (top (w_heap w)) "uid" = uid) as ->
    by (unfold field, w1; cbn [w_heap]; by rewrite obj_at_push_top).
  assert (field (w_heap w1) (top (w_heap w)) "lang" = VUndef) as ->
    by (unfold field, w1; cbn [w_heap]; by rewrite obj_at_push_top).
  destruct (literal_call_fails transport c w1 dflt Hd1 user_url None
              (user_query accessToken uid VUndef) ret err Ht)
    as (e & Hsent & Hrun).
  eexists e, _. split; [exact Hrun |]. split; [exact Hsent |].
  etransitivity; [apply push_extends | apply call_heap_extends].
Qed.

(** A token whose [create_at] or [expires_in] is missing is never valid,
    whatever its access token and the clock: the expiry is not a number. *)
Theorem isValid_needs_both_stamps (l : loc) (w : world) (c0 e0 : value) :
  field (w_heap w) l "create_at" = c0 ->
  field (w_heap w) l "expires_in" = e0 ->
  (c0 = VUndef \/ exists z, c0 = VNum z) ->
  (e0 = VUndef \/ exists z, e0 = VNum z) ->
  c0 = VUndef \/ e0 = VUndef ->
  exists w', isValid clock (mkAccessToken (VRef l)) w = (Ok false, w')
             /\ w_heap w' = w_heap w.
Proof.
  intros Hc He Hc' He' Hmiss. unfold isValid. cbn [data].
  rewrite (bind_Ok _ _ _ _ _ (get_field_run l "access_token" w)).
  destruct (truthy (field (w_heap w) l "access_token")); [| by eexists].
  unfold bind at 1, now. cbn [w_heap w_trace].
  rewrite (bind_Ok _ _ _ _ _ (get_field_run l "create_at" _)).
  rewrite (bind_Ok _ _ _ _ _ (get_field_run l "expires_in" _)).
  cbn [w_heap]. rewrite Hc, He.
  exists (World (w_heap w)
            (w_trace w ++ [ENow (clock (length (w_trace w)))])).
  split; [| reflexivity].
  destruct Hc' as [-> | [z ->]], He' as [-> | [z' ->]];
    try (destruct Hmiss as [H | H]; discriminate H);
    try destruct z; try destruct z'; reflexivity.
Qed.
End Operations.

(** ** The constructor and its store *)

Definition production_warning : string :=
  "Please dont save oauth token into memory under production".

(** The constructor never fails.  It allocates two new empty objects, the
    store and the default options, distinct from each other, and changes no
    other object; it keeps the credentials and the functions it is given,
    and falls back on the functions of its own store.  It warns exactly when
    no [saveToken] is given and [NODE_ENV] is [production], whether or not a
    [getToken] is given. *)
Theorem OAuth_makes_client (node_env clientId' clientSecret' redirectUri' : value)
    (getToken' : option (value -> M value))
    (saveToken' : option (value -> value -> M unit)) (w : world) :
  exists (c : client) (h' : heap),
    OAuth node_env clientId' clientSecret' redirectUri' getToken' saveToken' w
    = (Ok c,
       World h' (w_trace w ++
                 match saveToken' with
                 | None => if decide (node_env = VStr "production")
                           then [EWarn production_warning] else []
                 | Some _ => []
                 end))
    /\ clientId c = clientId' /\ clientSecret c = clientSecret'
    /\ redirectUri c = redirectUri'
    /\ getToken c = default (default_getToken (store c)) getToken'
    /\ saveToken c = default (default_saveToken (store c)) saveToken'
    /\ store c <> defaults c
    /\ w_heap w !! store c = None /\ w_heap w !! defaults c = None
    /\ h' !! store c = Some ∅ /\ h' !! defaults c = Some ∅
    /\ w_heap w ⊆ h'.
Proof.
  set (st := top (w_heap w)).
  set (h1 := push (w_heap w) ∅).
  set (df := top h1).
  assert (df <> st) as Hne.
  { apply fresh_heap_ne. unfold h1, st. rewrite lookup_push_top. eauto. }
  assert (w_heap w ⊆ h1) as He1 by apply push_extends.
  assert (h1 !! df = None) as Hdf by apply lookup_top.
  exists (Client clientId' clientSecret' redirectUri' st
            (default (default_getToken st) getToken')
            (default (default_saveToken st) saveToken') df),
         (push h1 ∅).
  cbn [clientId clientSecret redirectUri getToken saveToken store defaults].
  repeat split; try done.
  - unfold OAuth. rewrite (bind_Ok _ _ _ _ _ (alloc_run ∅ w)). fold st h1.
    destruct saveToken' as [f |].
    + rewrite (bool_decide_eq_false_2 (Some f = None)) by done.
      cbn [andb]. unfold bind at 1. cbn [ret].
      rewrite (bind_Ok _ _ _ _ _ (alloc_run ∅ _)). cbn [w_heap w_trace ret].
      fold df. by rewrite app_nil_r.
    + rewrite (bool_decide_eq_true_2 (None = None)) by done.
      destruct (decide (node_env = VStr "production")) as [E | E].
      * rewrite (bool_decide_eq_true_2 _ E). cbn [andb].
        unfold bind at 1, warn. cbn [w_heap w_trace].
        rewrite (bind_Ok _ _ _ _ _ (alloc_run ∅ _)). reflexivity.
      * rewrite (bool_decide_eq_false_2 _ E). cbn [andb].
        unfold bind at 1. cbn [ret].
        rewrite (bind_Ok _ _ _ _ _ (alloc_run ∅ _)). cbn [w_heap w_trace ret].
        fold df. by rewrite app_nil_r.
  - apply lookup_top.
  - destruct (w_heap w !! df) as [x |] eqn:E; [| done].
    by rewrite (lookup_weaken _ _ _ _ E He1) in Hdf.
  - apply (lookup_weaken h1); [apply lookup_push_top | apply push_extends].
  - apply lookup_push_top.
  - etransitivity; [exact He1 | apply push_extends].
Qed.

(** The store of the constructor keeps one token per user: after two saves
    for a user, the load answers the second token and the store holds this
    one entry for the user, under the text of the [uid]; a [uid] with the
    same text (the number 5 and the string "5") reads the same entry.  The
    users are primitives, and their text is the one JavaScript gives them:
    it is not [__proto__]. *)
Theorem default_store_overwrites (st : loc) (uid uid' a b : value) (w : world) :
  primitive uid = true ->
  primitive uid' = true ->
  text uid <> "__proto__" ->
  text uid' = text uid ->
  exists h',
    (default_saveToken st uid a;;; default_saveToken st uid b;;;
     default_getToken st uid') w
    = (Ok b, World h' (w_trace w))
    /\ obj_at h' st = <[text uid := b]> (obj_at (w_heap w) st)
    /\ forall l, l <> st -> h' !! l = w_heap w !! l.
Proof.
  intros Hp Hp' Hk Heq.
  rewrite (bind_Ok _ _ _ _ _ (default_saveToken_run st uid a w Hp Hk)).
  erewrite bind_Ok; [| by apply default_saveToken_run].
  cbn [w_heap w_trace]. rewrite obj_at_insert_eq, insert_insert_eq.
  rewrite insert_insert_eq.
  eexists. split; [| split].
  - apply default_getToken_found; [done | | by rewrite Heq].
    cbn [w_heap]. rewrite obj_at_insert_eq, Heq. apply lookup_insert_eq.
  - by rewrite obj_at_insert_eq.
  - intros l Hl. by rewrite lookup_insert_ne.
Qed.

(** A save in the store of the constructor for a user whose text is not
    [__proto__] leaves the answer of the load for every user whose [uid] has
    another text as it was, and changes no object but the store.  The users
    are primitives, and their text is the one JavaScript gives them. *)
Theorem default_store_keeps_other_users (st : loc) (uid1 uid2 token : value)
    (w : world) :
  primitive uid1 = true ->
  primitive uid2 = true ->
  text uid1 <> "__proto__" ->
  text uid1 <> text uid2 ->
  exists h',
    default_saveToken st uid1 token w = (Ok tt, World h' (w_trace w))
    /\ (default_getToken st uid2 (World h' (w_trace w))).1
       = (default_getToken st uid2 w).1
    /\ forall l, l <> st -> h' !! l = w_heap w !! l.
Proof.
  intros Hp1 Hp2 Hk Hne. rewrite (default_saveToken_run st uid1 token w Hp1 Hk).
  eexists. split; [reflexivity |]. split.
  - unfold default_getToken.
    rewrite !(bind_Ok _ _ _ _ _ (to_string_primitive _ _ Hp2)).
    unfold get_index. cbn [w_heap].
    rewrite obj_at_insert_eq, lookup_insert_ne by done.
    destruct (String.eqb _ _); [reflexivity |].
    destruct (obj_at (w_heap w) st !! text uid2); [reflexivity |].
    by destruct (bool_decide _).
  - intros l Hl. by rewrite lookup_insert_ne.
Qed.

(** ** The authorize URL of the site *)

(** The characters of a string. *)
Fixpoint chars (s : string) : list ascii :=
  match s with
  | EmptyString => []
  | String ch rest => ch :: chars rest
  end.

(** The characters that separate the parts of a query. *)
Definition separators : list ascii := ["&"; "="; "#"; "?"; " "]%char.

Definition free_of_separators (s : string) : Prop :=
  forall ch, ch ∈ chars s -> ch ∉ separators.

(** What [escape] writes: the characters it leaves and percent signs. *)
Definition escaped_char (ch : ascii) : bool :=
  unreserved ch || Ascii.eqb ch "%".

Lemma chars_app (a b : string) : chars (a ++ b) = (chars a ++ chars b)%list.
Proof.
  induction a as [| x a IH]; [reflexivity |].
  change (x :: chars (a ++ b) = x :: (chars a ++ chars b)%list).
  by rewrite IH.
Qed.

Lemma percent_escaped (c : ascii) :
  forallb escaped_char (chars (percent c)) = true.
Proof. destruct c as [[] [] [] [] [] [] [] []]; vm_compute; reflexivity. Qed.

Lemma escape_escaped (s : string) :
  forallb escaped_char (chars (escape s)) = true.
Proof.
  induction s as [| c s IH]; [reflexivity |].
  cbn [escape]. destruct (unreserved c) eqn:Hc.
  - cbn [chars forallb]. unfold escaped_char at 1. by rewrite Hc, IH.
  - by rewrite chars_app, forallb_app, percent_escaped, IH.
Qed.

Lemma escaped_not_separator (ch : ascii) :
  escaped_char ch = true -> ch ∉ separators.
Proof.
  intros Hch Hin. unfold separators in Hin.
  repeat (apply elem_of_cons in Hin as [-> | Hin]; [discriminate Hch |]).
  by apply elem_of_nil in Hin.
Qed.

Lemma escape_free_of_separators (s : string) : free_of_separators (escape s).
Proof.
  intros ch Hin. apply escaped_not_separator.
  pose proof (escape_escaped s) as H.
  rewrite forallb_forall in H. apply H. by apply list_elem_of_In.
Qed.

(** [getAuthorizeURLForWebsite] returns the address of the site followed by
    a query of five parameters and the fragment [#weibo_redirect]; the query
    and the fragment are those of [getAuthorizeURL], and [redirect] plays no
    part.  The four encoded values hold none of the characters [&], [=],
    [#], [?] and space: a state or a scope cannot add a parameter. *)
Theorem getAuthorizeURLForWebsite_format (c : client)
    (redirect state scope : value) :
  let A := escape (stringifyPrimitive (clientId c)) in
  let B := escape (stringifyPrimitive (redirectUri c)) in
  let C := escape (stringifyPrimitive
                     (if truthy scope then scope else VStr "users_show")) in
  let D := escape (stringifyPrimitive
                     (if truthy state then state else VStr "")) in
  let query := "?client_id=" ++ A ++ "&redirect_uri=" ++ B
               ++ "&response_type=code&scope=" ++ C ++ "&state=" ++ D
               ++ "#weibo_redirect" in
  getAuthorizeURLForWebsite c redirect state scope
  = "https://open.weibo.cn/oauth2/authorize" ++ query
  /\ (forall redirect' : value,
        getAuthorizeURL c redirect' state scope
        = "https://api.weibo.com/oauth2/authorize" ++ query)
  /\ free_of_separators A /\ free_of_separators B
  /\ free_of_separators C /\ free_of_separators D.
Proof.
  cbv zeta. split; [| split].
  - unfold getAuthorizeURLForWebsite. rewrite querystring_stringify_pairs.
    cbn [encode_pairs List.map fst snd]. unfold js_or.
    rewrite !string_app_assoc. reflexivity.
  - intros redirect'. unfold getAuthorizeURL.
    rewrite querystring_stringify_pairs.
    cbn [encode_pairs List.map fst snd]. unfold js_or.
    rewrite !string_app_assoc. reflexivity.
  - repeat split; apply escape_free_of_separators.
Qed.

Example getAuthorizeURLForWebsite_number :
  getAuthorizeURLForWebsite sample_client VUndef (VNum 7) (VNum (10 ^ 21))
  = "https://open.weibo.cn/oauth2/authorize?client_id=id&redirect_uri=http%3A%2F%2Fcb%2Fx%20y&response_type=code&scope=1e%2B21&state=7#weibo_redirect".
Proof. vm_compute. reflexivity. Qed.

(** ** Sample runs *)

(** The world of [sample_client] once [sample_token] is stored for [u1]. *)
Definition stored_world : world :=
  World (list_to_map
    [(0%nat, list_to_map [("u1", VRef 2%nat)]);
     (1%nat, ∅);
     (2%nat, sample_token);
     (3%nat, list_to_map [("uid", VStr "u1"); ("lang", VStr "zh-cn")])]) [].

Definition token_body : list (string * json) :=
  [("access_token", JStr "AT2"); ("expires_in", JNum 7200);
   ("uid", JStr "u1"); ("refresh_token", JStr "RT2")].

Definition token_info_body : json :=
  JObj [("uid", JNum 42); ("appkey", JStr "k"); ("scope", JNull);
        ("create_at", JNum 1446856960); ("expire_in", JNum 7200)].

Definition profile_body : json :=
  JObj [("id", JNum 42); ("screen_name", JStr "bob")].

Definition rejection_body : json :=
  JObj [("error", JStr "invalid_grant"); ("error_code", JNum 21325);
        ("error_description", JStr "bad code")].

(** A provider that answers each address with its own body. *)
Definition provider (token info profile : json)
  : nat -> string -> tree -> response :=
  fun _ url _ =>
    if String.eqb url token_url then RespOk 200 token
    else if String.eqb url token_info_url then RespOk 200 info
    else RespOk 200 profile.

Definition ticking : nat -> Z := fun n => 2000 + Z.of_nat n.

Lemma getTokenInfo_returns_payload_witness :
  exists v w',
    getTokenInfo (provider_says token_info_body) sample_client (VStr "AT")
      empty_world = (Ok v, w').
Proof.
  destruct (getTokenInfo_returns_payload (provider_says token_info_body)
              sample_client (VStr "AT") empty_world ∅ 200 token_info_body)
    as (e & h1 & Hrun & _);
    [reflexivity | intros; reflexivity | discriminate | reflexivity |].
  eexists _, _. exact Hrun.
Defined.

Lemma getUser2_fetches_witness :
  exists v w',
    getUser2 (provider_says profile_body) sample_client (VStr "u1")
      (VStr "AT") empty_world = (Ok v, w').
Proof.
  destruct (getUser2_fetches (provider_says profile_body)
              sample_client (VStr "u1") (VStr "AT") empty_world ∅ 200
              profile_body)
    as (e & h1 & Hrun & _);
    [reflexivity | intros; reflexivity | discriminate | reflexivity |].
  eexists _, _. exact Hrun.
Defined.

Lemma getUser2_transport_failure_witness :
  exists w',
    getUser2 unreachable sample_client (VStr "u1") (VStr "AT") empty_world
    = (Throw (JsError "WeiboAPIRequestError" "connect ECONNREFUSED" VUndef),
       w').
Proof.
  destruct (getUser2_transport_failure unreachable sample_client (VStr "u1")
              (VStr "AT") empty_world ∅
              (JsError "RequestError" "connect ECONNREFUSED" VUndef))
    as (e & hf & Hrun & _); [reflexivity | intros; reflexivity |].
  eexists. exact Hrun.
Defined.

Lemma getUser_uses_valid_token_witness :
  exists v w',
    getUser (provider_says profile_body) ticking sample_client (VRef 3%nat)
      stored_world = (Ok v, w').
Proof.
  destruct (getUser_uses_valid_token (provider_says profile_body) ticking
              sample_client 3%nat 2%nat stored_world ∅ (VStr "AT")
              (Fin 7201000) 200 profile_body)
    as (e & h1 & Hrun & _);
    [reflexivity | reflexivity | reflexivity | reflexivity | discriminate
     | reflexivity | reflexivity | reflexivity | reflexivity
     | intros; reflexivity | discriminate | reflexivity |].
  eexists _, _. exact Hrun.
Defined.

Lemma getUser_failed_refresh_witness :
  exists e w',
    getUser unreachable (fun _ => 9000000) sample_client (VRef 3%nat)
      stored_world = (Throw e, w')
    /\ err_name e = "WeiboAPIRequestError".
Proof.
  destruct (getUser_failed_refresh unreachable (fun _ => 9000000)
              sample_client 3%nat 2%nat stored_world ∅ (VStr "AT")
              (Fin 7201000)
              (JsError "RequestError" "connect ECONNREFUSED" VUndef))
    as (e & hf & Hrun & _);
    [reflexivity | reflexivity | reflexivity | reflexivity | discriminate
     | reflexivity | reflexivity | reflexivity | reflexivity
     | intros; reflexivity |].
  eexists _, _. split; [exact Hrun | reflexivity].
Defined.

Lemma getUserByAccessToken_needs_stored_token_witness :
  exists w',
    getUserByAccessToken (provider_says token_info_body) ticking
      sample_client (VStr "AT") empty_world
    = (Throw (no_token_error "42"), w').
Proof.
  destruct (getUserByAccessToken_needs_stored_token
              (provider_says token_info_body) ticking sample_client
              (VStr "AT") (VNum 42) empty_world ∅ 200 token_info_body
              (JNum 42))
    as (e & hf & Hrun & _);
    [reflexivity | reflexivity | by eexists | intros; reflexivity
     | discriminate | reflexivity | reflexivity | reflexivity | reflexivity
     | reflexivity | |].
  - apply (bool_decide_unpack _). vm_compute. exact I.
  - eexists. exact Hrun.
Defined.

Lemma getUserByAccessToken_uses_cached_token_witness :
  exists v w',
    getUserByAccessToken
      (provider JNull (JObj [("uid", JStr "u1")]) profile_body) ticking
      sample_client (VStr "other") stored_world = (Ok v, w').
Proof.
  destruct (getUserByAccessToken_uses_cached_token
              (provider JNull (JObj [("uid", JStr "u1")]) profile_body)
              ticking sample_client (VStr "other") (VStr "u1") (VStr "AT")
              stored_world ∅ 2%nat (Fin 7201000) 200 200
              (JObj [("uid", JStr "u1")]) profile_body (JStr "u1"))
    as (e1 & e2 & h1 & Hrun & _);
    [reflexivity | reflexivity | intros; reflexivity | intros; reflexivity
     | discriminate | reflexivity | reflexivity | reflexivity | reflexivity
     | reflexivity | discriminate | reflexivity | reflexivity | reflexivity
     | reflexivity | discriminate | reflexivity |].
  eexists _, _. exact Hrun.
Defined.

Lemma getUserByCode_failed_exchange_witness :
  (exists e w',
     getUserByCode unreachable ticking sample_client (VStr "code")
       empty_world = (Throw e, w')
     /\ err_name e = "WeiboAPIRequestError")
  /\ exists e w',
       getUserByCode (provider_says rejection_body) ticking sample_client
         (VStr "code") empty_world = (Throw e, w')
       /\ err_name e = "WeiboAPIError" /\ err_message e = "bad code".
Proof.
  split.
  - destruct (proj1 (getUserByCode_failed_exchange
                       unreachable ticking sample_client
                       (VStr "code") empty_world ∅ eq_refl)
                (JsError "RequestError" "connect ECONNREFUSED" VUndef))
      as (e & hf & Hrun & _); [intros; reflexivity |].
    eexists _, _. split; [exact Hrun | reflexivity].
  - destruct (proj2 (getUserByCode_failed_exchange
                       (provider_says rejection_body) ticking sample_client
                       (VStr "code") empty_world ∅ eq_refl)
                200 rejection_body)
      as (e & hf & ecode & Hrun & _);
      [intros; reflexivity | discriminate | reflexivity |].
    eexists _, _. split; [exact Hrun | split; reflexivity].
Defined.

Lemma getUserByCode_fetches_with_minted_token_witness :
  exists v w',
    getUserByCode (provider (JObj token_body) JNull profile_body) ticking
      sample_client (VStr "code") empty_world = (Ok v, w').
Proof.
  destruct (getUserByCode_fetches_with_minted_token
              (provider (JObj token_body) JNull profile_body) ticking
              sample_client (VStr "code") empty_world ∅ 200 200 7200
              token_body profile_body "AT2" (JStr "u1") (VStr "u1"))
    as (e1 & e2 & l & h1 & o & Hrun & _);
    [reflexivity | reflexivity | reflexivity | by eexists | discriminate
     | intros; reflexivity | intros; reflexivity | reflexivity | reflexivity
     | discriminate | reflexivity | reflexivity | reflexivity | reflexivity
     | discriminate | reflexivity | discriminate | reflexivity |].
  eexists _, _. exact Hrun.
Defined.

Lemma default_store_overwrites_witness :
  exists h',
    (default_saveToken 0%nat (VNum (10 ^ 21)) (VStr "a");;;
     default_saveToken 0%nat (VNum (10 ^ 21)) (VStr "b");;;
     default_getToken 0%nat (VStr "1e+21")) empty_world
    = (Ok (VStr "b"), World h' [])
    /\ obj_at h' 0%nat = {[ "1e+21" := VStr "b" ]}.
Proof.
  destruct (default_store_overwrites 0%nat (VNum (10 ^ 21)) (VStr "1e+21")
              (VStr "a") (VStr "b") empty_world)
    as (h' & Hrun & Hst & _);
    [reflexivity | reflexivity | vm_compute; discriminate
     | vm_compute; reflexivity |].
  exists h'. split; [exact Hrun |].
  etransitivity; [exact Hst | vm_compute; reflexivity].
Defined.

Lemma default_store_keeps_other_users_witness :
  exists h',
    default_saveToken 0%nat (VStr "u2") (VStr "t") stored_world
    = (Ok tt, World h' [])
    /\ (default_getToken 0%nat (VStr "u1") (World h' [])).1
       = Ok (VRef 2%nat).
Proof.
  destruct (default_store_keeps_other_users 0%nat (VStr "u2") (VStr "u1")
              (VStr "t") stored_world)
    as (h' & Hrun & Hsame & _);
    [reflexivity | reflexivity | discriminate | discriminate |].
  exists h'. split; [exact Hrun |].
  etransitivity; [exact Hsame | reflexivity].
Defined.

(** A token that has an access token and the time it was made, and no
    [expires_in]. *)
Definition endless_token : obj :=
  list_to_map [("access_token", VStr "AT"); ("create_at", VNum 1000);
               ("uid", VStr "u1")].

Lemma isValid_needs_both_stamps_witness :
  truthy (field {[ 0%nat := endless_token ]} 0%nat "access_token") = true
  /\ exists w',
       isValid ticking (mkAccessToken (VRef 0%nat))
         (World {[ 0%nat := endless_token ]} [])
       = (Ok false, w')
       /\ w_trace w' = [ENow 2000].
Proof.
  split; [reflexivity |].
  destruct (isValid_needs_both_stamps ticking 0%nat
              (World {[ 0%nat := endless_token ]} [])
              (VNum 1000) VUndef)
    as (w' & Hrun & _);
    [reflexivity | reflexivity | right; by exists (Fin 1000) | by left
     | by right |].
  exists w'. split; [exact Hrun |].
  transitivity (w_trace (isValid ticking (mkAccessToken (VRef 0%nat))
                           (World {[ 0%nat := endless_token ]} [])).2).
  - by rewrite Hrun.
  - vm_compute. reflexivity.
Defined.

(** ** A call without options *)

(** The objects [request] has merged the options in are still there, as
    they are, when it returns or throws. *)
Lemma request_heap (transport : nat -> string -> tree -> response)
    (c : client) (url : string) (opts : option loc) (w w1 : world)
    (options : loc) :
  merge_options c opts w = (Ok options, w1) ->
  w_heap w1 ⊆ w_heap (request transport c url opts w).2.
Proof.
  intros Hm.
  destruct (transport (length (w_trace w1)) url
              (snapshot (w_heap w1) (VRef options))) as [e | st body] eqn:Ht.
  - by rewrite (request_failed _ _ _ _ _ _ _ _ Hm Ht).
  - rewrite (request_answered _ _ _ _ _ _ _ _ _ Hm Ht).
    rewrite check_error_world. apply alloc_json_extends.
Qed.

(** A call of [request] without options hands the transport a new object
    holding the properties of the default options, not the default object
    itself, and changes no object of the heap: every object there was
    before the call is the same in the heap the transport is handed and in
    the heap the call leaves, whether it returns or throws. *)
Theorem request_without_options
    (transport : nat -> string -> tree -> response) (c : client)
    (url : string) (w : world) (dflt : obj) :
  w_heap w !! defaults c = Some dflt ->
  exists (options : loc) (h' : heap),
    w_trace (request transport c url None w).2
    = (w_trace w ++ [EHttp url options h'])%list
    /\ h' !! options = Some dflt
    /\ w_heap w !! options = None
    /\ w_heap w ⊆ h'
    /\ w_heap w ⊆ w_heap (request transport c url None w).2.
Proof.
  intros Hd.
  set (options := top (w_heap w)).
  set (h1 := push (w_heap w) dflt).
  assert (options <> defaults c) as Hne by (apply fresh_heap_ne; eauto).
  assert (merge_options c None w
          = (Ok options, World (push h1 ∅) (w_trace w))) as Hm.
  { unfold merge_options.
    rewrite (bind_Ok _ _ _ _ _ (alloc_run ∅ w)). fold options.
    unfold bind at 1, extend. cbn [w_heap w_trace].
    rewrite obj_at_push_top.
    rewrite (obj_at_weaken (w_heap w)); [| apply push_extends | eauto].
    rewrite (obj_at_Some _ _ _ Hd), (right_id ∅ (∪)).
    unfold push at 1 2. fold options. rewrite insert_insert_eq.
    change (<[options := dflt]> (w_heap w)) with h1.
    rewrite (bind_Ok _ _ _ _ _ (alloc_run ∅ _)). cbn [w_heap w_trace].
    unfold bind at 1, own_keys. cbn [w_heap].
    rewrite obj_at_push_top, map_to_list_empty. reflexivity. }
  exists options, (push h1 ∅).
  rewrite (request_trace transport c url None w _ options Hm).
  split; [reflexivity |]. split; [| split; [| split]].
  - apply (lookup_weaken h1); [apply lookup_push_top | apply push_extends].
  - apply lookup_top.
  - etransitivity; apply push_extends.
  - etransitivity; [| apply (request_heap transport c url None w _ options Hm)].
    cbn [w_heap]. etransitivity; apply push_extends.
Qed.

Lemma request_without_options_witness :
  exists (options : loc) (h' : heap),
    w_trace (request unreachable sample_client "u" None headers_world).2
    = [EHttp "u" options h']
    /\ h' !! options
       = Some (list_to_map [("timeout", VNum 15000);
                            ("headers", VRef 2%nat)]).
Proof.
  destruct (request_without_options unreachable sample_client "u"
              headers_world
              (list_to_map [("timeout", VNum 15000);
                            ("headers", VRef 2%nat)]) eq_refl)
    as (options & h' & Htr & Ho & _).
  exists options, h'. split; [exact Htr | exact Ho].
Defined.

(** ** The exchange and the refresh *)

Section Mint.
Variable transport : nat -> string -> tree -> response.
Variable clock : nat -> Z.

(** What a run that mints a token does, in a world [w] where the provider
    answers with the object [kvs]: one call [e] is made, with the method
    [meth] and the data [info]; the body is decoded into a new object [l];
    the clock is read once, after the call, and [l] gets the time as its
    [create_at]; the run then is the save of [l] under its [uid], followed
    by the return of the wrapper of [l].  No object that existed is
    changed before the save. *)
Definition stamps_and_saves (c : client) (run : M AccessToken) (w : world)
    (kvs : list (string * json)) (meth : option value) (info dflt : obj)
  : Prop :=
  let t := clock (S (length (w_trace w))) in
  exists (e : event) (l : loc) (h1 : heap) (o : obj),
    sent e token_url meth info dflt
    /\ w_heap w !! l = None
    /\ w_heap w ⊆ h1
    /\ h1 !! l = Some (<["create_at" := VNum t]> o)
    /\ decoded_object o kvs
    /\ run w
       = (saveToken c (default VUndef (o !! "uid")) (VRef l);;;
          ret (mkAccessToken (VRef l)))
           (World h1 (w_trace w ++ [e; ENow t])).

Lemma exchange_run (c : client) (w : world) (dflt : obj)
    (meth : option value) (info : obj) (st : Z) (kvs : list (string * json)) :
  w_heap w !! defaults c = Some dflt ->
  (forall x, transport (length (w_trace w)) token_url x
             = RespOk st (JObj kvs)) ->
  json_truthy (last_field kvs "error") = false ->
  stamps_and_saves c
    (let* linfo := alloc info in
     let* largs := alloc (args_of meth linfo) in
     let* d := request transport c token_url (Some largs) in
     processToken clock c d) w kvs meth info dflt.
Proof.
  intros Hd Ht Herr. unfold stamps_and_saves.
  set (t := clock (S (length (w_trace w)))).
  destruct (literal_call_returns transport c w dflt Hd token_url meth info
              (processToken clock c) st (JObj kvs) Ht) as (e & Hsent & Hrun);
    [done | done |].
  set (h1 := call_heap (w_heap w) info (args_of meth) dflt) in *.
  assert (w_heap w ⊆ h1) as Hext1 by apply call_heap_extends.
  rewrite alloc_json_obj in Hrun. cbn [fst snd] in Hrun.
  pose proof (alloc_fields_extends kvs) as Hext2.
  specialize (Hext2 (proj2 (Forall_forall _ _)
                       (fun kv _ h => alloc_json_extends kv.2 h)) ∅ h1).
  set (o := (alloc_fields alloc_json ∅ kvs h1).1) in *.
  set (hd := (alloc_fields alloc_json ∅ kvs h1).2) in *.
  set (l := top hd).
  assert (w_heap w ⊆ hd) as Hext by (etransitivity; eassumption).
  assert (hd !! l = None) as Hl by apply lookup_top.
  assert (w_heap w !! l = None) as Hl0.
  { destruct (w_heap w !! l) as [x |] eqn:E; [| done].
    by rewrite (lookup_weaken _ _ _ _ E Hext) in Hl. }
  assert (decoded_object o kvs) as Hdec.
  { intros k. pose proof (alloc_fields_lookup kvs ∅ h1 k) as H. fold o in H.
    destruct (last_field kvs k) as [j' |].
    - destruct H as (hj & -> & _). by exists hj.
    - by rewrite H. }
  exists e, l, (<[l := <["create_at" := VNum t]> o]> hd), o.
  split; [exact Hsent |]. split; [exact Hl0 |]. split; [| split; [| split]].
  - etransitivity; [exact Hext | by apply insert_subseteq].
  - apply lookup_insert_eq.
  - exact Hdec.
  - rewrite Hrun. fold l. rewrite processToken_run. cbn [w_heap w_trace].
    unfold field. rewrite !obj_at_insert_eq, insert_insert_eq.
    rewrite length_app, Nat.add_1_r. fold t.
    by rewrite <- app_assoc.
Qed.

(** C4. When the provider answers the exchange of a code, or the refresh of
    a token, with an object that reports no error, [getAccessToken] and
    [refreshAccessToken] decode the answer into a new object, read the
    clock once and write the time into its [create_at], call the
    [saveToken] of the client with the [uid] of the object and the object
    itself, and then return the wrapper of that very object: what is
    returned is what was saved. *)
Theorem token_is_stamped_and_saved (c : client) (code refreshToken : value)
    (w : world) (dflt : obj) (st : Z) (kvs : list (string * json)) :
  w_heap w !! defaults c = Some dflt ->
  (forall x, transport (length (w_trace w)) token_url x
             = RespOk st (JObj kvs)) ->
  json_truthy (last_field kvs "error") = false ->
  stamps_and_saves c (getAccessToken transport clock c code) w kvs
    (Some (VStr "POST")) (code_grant c code) dflt
  /\ stamps_and_saves c (refreshAccessToken transport clock c refreshToken)
       w kvs None (refresh_grant c refreshToken) dflt.
Proof.
  intros Hd Ht Herr. split.
  - exact (exchange_run c w dflt (Some (VStr "POST")) (code_grant c code)
             st kvs Hd Ht Herr).
  - exact (exchange_run c w dflt None (refresh_grant c refreshToken)
             st kvs Hd Ht Herr).
Qed.
End Mint.

(** ** The refresh of a token that is not valid *)

Section Refresh.
Variable transport : nat -> string -> tree -> response.
Variable clock : nat -> Z.

(** [isValid] changes no object. *)
Lemma isValid_heap (ld : loc) (w w1 : world) (b : bool) :
  isValid clock (mkAccessToken (VRef ld)) w = (Ok b, w1) ->
  w_heap w1 = w_heap w.
Proof.
  unfold isValid. cbn [data].
  rewrite (bind_Ok _ _ _ _ _ (get_field_run ld "access_token" w)).
  destruct (truthy _); [| by intros [= _ <-]].
  unfold bind at 1, now. cbn [w_heap w_trace].
  rewrite (bind_Ok _ _ _ _ _ (get_field_run ld "create_at" _)).
  rewrite (bind_Ok _ _ _ _ _ (get_field_run ld "expires_in" _)).
  destruct (expiry _ _); [by intros [= _ <-] | discriminate].
Qed.

(** [getUser] on an options object when the token of the store is not
    valid: it goes on with the token a refresh gives. *)
Lemma getUser_invalid_run (c : client) (lo ld : loc) (w w0 w1 : world) :
  getToken c (field (w_heap w) lo "uid") w = (Ok (VRef ld), w0) ->
  isValid clock (mkAccessToken (VRef ld)) w0 = (Ok false, w1) ->
  getUser transport clock c (VRef lo) w
  = (let* newToken := refreshAccessToken transport clock c
                        (field (w_heap w0) ld "refresh_token") in
     let* accessToken := get_field (data newToken) "access_token" in
     _getUser transport c (VRef lo) accessToken) w1.
Proof.
  intros Hload Hvalid. unfold getUser. cbn [negb typeof_object].
  unfold bind at 1. cbn [ret].
  rewrite (bind_Ok _ _ _ _ _ (get_field_run lo "uid" w)).
  rewrite (bind_Ok _ _ _ _ _ Hload). cbn [truthy negb].
  rewrite (bind_Ok _ _ _ _ _ Hvalid). cbv iota. cbn [data].
  unfold bind at 1. unfold bind at 1.
  rewrite (get_field_run ld "refresh_token" _).
  rewrite (isValid_heap _ _ _ _ Hvalid).
  unfold bind.
  by destruct (refreshAccessToken _ _ _ _ _) as [[tok | err |] w'].
Qed.

(** The refresh, whatever the functions of the store are: when the load
    answers the object [ld] and [isValid] finds it not valid, the token is
    refreshed with the [refresh_token] of [ld] by one call [e1]; the answer
    of the provider, an object [kvs] without error, becomes a new object
    [l], stamped with the time read after the call; what is left of the run
    is the save of [l] under its [uid], then the profile call with the
    [access_token] of [l].  Nothing else is saved. *)
Lemma getUser_refresh_run (c : client) (lo ld : loc) (w w0 w1 : world)
    (dflt : obj) (st1 : Z) (kvs : list (string * json)) :
  getToken c (field (w_heap w) lo "uid") w = (Ok (VRef ld), w0) ->
  isValid clock (mkAccessToken (VRef ld)) w0 = (Ok false, w1) ->
  w_heap w1 !! defaults c = Some dflt ->
  (forall x, transport (length (w_trace w1)) token_url x
             = RespOk st1 (JObj kvs)) ->
  json_truthy (last_field kvs "error") = false ->
  let t1 := clock (S (length (w_trace w1))) in
  exists (e1 : event) (l : loc) (h1 : heap) (o : obj),
    sent e1 token_url None
      (refresh_grant c (field (w_heap w0) ld "refresh_token")) dflt
    /\ w_heap w1 !! l = None
    /\ w_heap w1 ⊆ h1
    /\ h1 !! l = Some (<["create_at" := VNum t1]> o)
    /\ decoded_object o kvs
    /\ getUser transport clock c (VRef lo) w
       = (saveToken c (default VUndef (o !! "uid")) (VRef l);;;
          let* accessToken := get_field (VRef l) "access_token" in
          _getUser transport c (VRef lo) accessToken)
           (World h1 (w_trace w1 ++ [e1; ENow t1])).
Proof.
  intros Hload Hvalid Hd Ht Herr t1.
  destruct (exchange_run transport clock c w1 dflt None
              (refresh_grant c (field (w_heap w0) ld "refresh_token"))
              st1 kvs Hd Ht Herr)
    as (e1 & l & h1 & o & Hsent & Hl0 & Hext & Hl & Hdec & Hrun).
  exists e1, l, h1, o. repeat (split; [assumption |]).
  rewrite (getUser_invalid_run c lo ld w w0 w1 Hload Hvalid).
  unfold bind at 1. rewrite refreshAccessToken_run, Hrun. fold t1.
  unfold bind.
  by destruct (saveToken c _ _ _) as [[[] | err |] w2].
Qed.

(** The refresh with the store of the constructor: the profile is fetched
    with the new token, which is the one new entry of the store. *)
Lemma getUser_refresh_default (c : client) (lo ld : loc)
    (w w1 : world) (dflt : obj) (st1 st2 : Z) (kvs : list (string * json))
    (body : json) (ju : json) (u2 : value) :
  let uid := field (w_heap w) lo "uid" in
  let t1 := clock (S (length (w_trace w1))) in
  getToken c = default_getToken (store c) ->
  saveToken c = default_saveToken (store c) ->
  w_heap w !! defaults c = Some dflt ->
  store c <> defaults c ->
  is_Some (w_heap w !! lo) ->
  lo <> store c ->
  primitive uid = true ->
  obj_at (w_heap w) (store c) !! text uid = Some (VRef ld) ->
  text uid <> "__proto__" ->
  isValid clock (mkAccessToken (VRef ld)) w = (Ok false, w1) ->
  (forall k x, transport k token_url x = RespOk st1 (JObj kvs)) ->
  (forall k x, transport k user_url x = RespOk st2 body) ->
  json_truthy (last_field kvs "error") = false ->
  last_field kvs "uid" = Some ju ->
  json_prim ju = Some u2 ->
  text u2 <> "__proto__" ->
  body <> JNull ->
  json_truthy (json_get body "error") = false ->
  exists (e1 e2 : event) (l : loc) (h1 : heap) (o : obj),
    getUser transport clock c (VRef lo) w
    = (Ok (alloc_json body h1).1,
       World (alloc_json body h1).2 (w_trace w1 ++ [e1; ENow t1; e2]))
    /\ sent e1 token_url None
         (refresh_grant c (field (w_heap w) ld "refresh_token")) dflt
    /\ sent e2 user_url None
         (user_query (default VUndef (o !! "access_token")) uid
            (field (w_heap w) lo "lang")) dflt
    /\ w_heap w !! l = None
    /\ (alloc_json body h1).2 !! l = Some (<["create_at" := VNum t1]> o)
    /\ decoded_object o kvs
    /\ obj_at (alloc_json body h1).2 (store c)
       = <[text u2 := VRef l]> (obj_at (w_heap w) (store c))
    /\ (forall l', is_Some (w_heap w !! l') -> l' <> store c ->
                   (alloc_json body h1).2 !! l' = w_heap w !! l').
Proof.
  intros uid t1 Hget Hsave Hd Hsd Hlo Hlos Hp Hst Hk Hvalid Htok Husr Herr
    Huid Hprim Hk2 Hnn Herr2. subst uid.
  pose proof (isValid_heap _ _ _ _ Hvalid) as Hh1.
  pose proof (obj_at_allocated _ _ _ _ Hst) as Hsa.
  assert (w_heap w1 !! defaults c = Some dflt) as Hd1 by (by rewrite Hh1).
  assert (is_Some (w_heap w1 !! store c)) as Hsa1 by (by rewrite Hh1).
  destruct (mint_run transport clock c w1 dflt None
              (refresh_grant c (field (w_heap w) ld "refresh_token"))
              st1 kvs ju u2 Hsave Hd1 Hsa1 (Htok _) Herr Huid Hprim Hk2)
    as (e1 & l & hf & Hsent1 & Hrun1 & Hl0 & (o & Hl & Hdec) & Hstore
        & Halloc & Hframe).
  fold t1 in Hrun1, Hl. rewrite Hh1 in Hl0, Hstore, Halloc, Hframe.
  set (tr1 := (w_trace w1 ++ [e1; ENow t1])%list) in *.
  assert (field hf l "access_token" = default VUndef (o !! "access_token"))
    as Hfa.
  { unfold field. rewrite (obj_at_Some _ _ _ Hl).
    by rewrite lookup_insert_ne. }
  assert (forall k, field hf lo k = field (w_heap w) lo k) as Hsame.
  { intros k. unfold field, obj_at. by rewrite (Hframe lo Hlo Hlos). }
  assert (hf !! defaults c = Some dflt) as Hd2.
  { rewrite Hframe; [done | eauto | done]. }
  set (a' := default VUndef (o !! "access_token")) in *.
  set (q := user_query a' (field (w_heap w) lo "uid")
              (field (w_heap w) lo "lang")).
  destruct (literal_call_returns transport c (World hf tr1) dflt Hd2 user_url
              None q ret st2 body (Husr _) Hnn Herr2)
    as (e2 & Hsent2 & Hrun2).
  cbn [w_heap w_trace] in Hrun2.
  set (h3 := call_heap hf q (args_of None) dflt) in *.
  assert (hf ⊆ (alloc_json body h3).2) as Hext3.
  { etransitivity; [apply call_heap_extends | apply alloc_json_extends]. }
  exists e1, e2, l, h3, o.
  split; [| split; [exact Hsent1 | split; [exact Hsent2 |
            split; [exact Hl0 | split; [| split; [exact Hdec | split]]]]]].
  - rewrite (getUser_invalid_run c lo ld w w w1).
    + erewrite bind_Ok; [| rewrite refreshAccessToken_run; exact Hrun1].
      cbn [data]. rewrite (bind_Ok _ _ _ _ _ (get_field_run l "access_token" _)).
      cbn [w_heap]. rewrite Hfa.
      rewrite _getUser_run. cbn [w_heap]. rewrite !Hsame. fold q.
      rewrite Hrun2. unfold tr1. cbn [ret].
      by rewrite <- !app_assoc.
    + rewrite Hget. by apply default_getToken_found.
    + exact Hvalid.
  - by apply (lookup_weaken hf).
  - rewrite (obj_at_weaken hf); [done | done | by apply Halloc].
  - intros l' Hl' Hne. rewrite <- (Hframe l' Hl' Hne).
    destruct (Halloc l' Hl') as [x Hx]. rewrite Hx.
    by apply (lookup_weaken hf).
Qed.

(** C2. [getUser] on an options object whose user has a stored token that
    [isValid] finds not valid.  Whatever the functions of the store are:
    the token is refreshed with the [refresh_token] of the stored token, by
    one call [e1] to the token address; the answer of the provider, an
    object [kvs] without error, becomes a new object [l], stamped with the
    time read after the call; the rest of the run is the save of [l] under
    its [uid], then the profile call with the [access_token] of [l]: no
    other save is made.  With the store of the constructor: the profile is
    asked for by the call [e2], with the [access_token] of the new token
    and the [uid] and [lang] of the options, and returned; the store gets
    the new token as its one new entry, under the text of the token's
    [uid], and every other object that existed is as it was.  There the
    users are primitives whose text is not [__proto__], and the options
    object is not the store. *)
Theorem getUser_refreshes_invalid_token (c : client) (lo ld : loc)
    (w w1 : world) (dflt : obj) (st1 : Z) (kvs : list (string * json)) :
  (forall w0 : world,
      getToken c (field (w_heap w) lo "uid") w = (Ok (VRef ld), w0) ->
      isValid clock (mkAccessToken (VRef ld)) w0 = (Ok false, w1) ->
      w_heap w1 !! defaults c = Some dflt ->
      (forall x, transport (length (w_trace w1)) token_url x
                 = RespOk st1 (JObj kvs)) ->
      json_truthy (last_field kvs "error") = false ->
      let t1 := clock (S (length (w_trace w1))) in
      exists (e1 : event) (l : loc) (h1 : heap) (o : obj),
        sent e1 token_url None
          (refresh_grant c (field (w_heap w0) ld "refresh_token")) dflt
        /\ w_heap w1 !! l = None
        /\ w_heap w1 ⊆ h1
        /\ h1 !! l = Some (<["create_at" := VNum t1]> o)
        /\ decoded_object o kvs
        /\ getUser transport clock c (VRef lo) w
           = (saveToken c (default VUndef (o !! "uid")) (VRef l);;;
              let* accessToken := get_field (VRef l) "access_token" in
              _getUser transport c (VRef lo) accessToken)
               (World h1 (w_trace w1 ++ [e1; ENow t1])))
  /\ (forall (st2 : Z) (body ju : json) (u2 : value),
      let uid := field (w_heap w) lo "uid" in
      let t1 := clock (S (length (w_trace w1))) in
      getToken c = default_getToken (store c) ->
      saveToken c = default_saveToken (store c) ->
      w_heap w !! defaults c = Some dflt ->
      store c <> defaults c ->
      is_Some (w_heap w !! lo) ->
      lo <> store c ->
      primitive uid = true ->
      obj_at (w_heap w) (store c) !! text uid = Some (VRef ld) ->
      text uid <> "__proto__" ->
      isValid clock (mkAccessToken (VRef ld)) w = (Ok false, w1) ->
      (forall k x, transport k token_url x = RespOk st1 (JObj kvs)) ->
      (forall k x, transport k user_url x = RespOk st2 body) ->
      json_truthy (last_field kvs "error") = false ->
      last_field kvs "uid" = Some ju ->
      json_prim ju = Some u2 ->
      text u2 <> "__proto__" ->
      body <> JNull ->
      json_truthy (json_get body "error") = false ->
      exists (e1 e2 : event) (l : loc) (h1 : heap) (o : obj),
        getUser transport clock c (VRef lo) w
        = (Ok (alloc_json body h1).1,
           World (alloc_json body h1).2 (w_trace w1 ++ [e1; ENow t1; e2]))
        /\ sent e1 token_url None
             (refresh_grant c (field (w_heap w) ld "refresh_token")) dflt
        /\ sent e2 user_url None
             (user_query (default VUndef (o !! "access_token")) uid
                (field (w_heap w) lo "lang")) dflt
        /\ w_heap w !! l = None
        /\ (alloc_json body h1).2 !! l
           = Some (<["create_at" := VNum t1]> o)
        /\ decoded_object o kvs
        /\ obj_at (alloc_json body h1).2 (store c)
           = <[text u2 := VRef l]> (obj_at (w_heap w) (store c))
        /\ (forall l', is_Some (w_heap w !! l') -> l' <> store c ->
                       (alloc_json body h1).2 !! l' = w_heap w !! l')).
Proof.
  split.
  - intros w0. apply getUser_refresh_run.
  - intros st2 body ju u2. apply getUser_refresh_default.
Qed.
End Refresh.

Lemma token_is_stamped_and_saved_witness :
  stamps_and_saves ticking sample_client
    (getAccessToken (provider_says (JObj token_body)) ticking sample_client
       (VStr "code"))
    empty_world token_body (Some (VStr "POST"))
    (code_grant sample_client (VStr "code")) ∅
  /\ stamps_and_saves ticking sample_client
       (refreshAccessToken (provider_says (JObj token_body)) ticking
          sample_client (VStr "RT"))
       empty_world token_body None
       (refresh_grant sample_client (VStr "RT")) ∅
  /\ (getAccessToken (provider_says (JObj token_body)) ticking sample_client
        (VStr "code") empty_world).1
     = Ok (mkAccessToken (VRef 5%nat)).
Proof.
  pose proof (token_is_stamped_and_saved
                (provider_says (JObj token_body)) ticking sample_client
                (VStr "code") (VStr "RT") empty_world ∅ 200 token_body
                eq_refl (fun _ => eq_refl) eq_refl) as [Hmint Hrefresh].
  split; [exact Hmint |]. split; [exact Hrefresh |].
  vm_compute. reflexivity.
Defined.

(** The world of [stored_world] once [isValid] has read the clock. *)
Definition checked_world (t : Z) : world :=
  World (w_heap stored_world) [ENow t].

Lemma getUser_refreshes_invalid_token_witness :
  (exists (e1 : event) (l : loc) (h1 : heap) (o : obj),
     getUser (provider (JObj token_body) JNull profile_body)
       (fun _ => 9000000) sample_client (VRef 3%nat) stored_world
     = (saveToken sample_client (default VUndef (o !! "uid")) (VRef l);;;
        let* accessToken := get_field (VRef l) "access_token" in
        _getUser (provider (JObj token_body) JNull profile_body)
          sample_client (VRef 3%nat) accessToken)
         (World h1 [ENow 9000000; e1; ENow 9000000]))
  /\ exists v w',
       getUser (provider (JObj token_body) JNull profile_body)
         (fun _ => 9000000) sample_client (VRef 3%nat) stored_world
       = (Ok v, w')
       /\ obj_at (w_heap w') 0%nat !! "u1" = Some (VRef 7%nat)
       /\ obj_at (w_heap w') 7%nat !! "access_token" = Some (VStr "AT2").
Proof.
  pose proof (getUser_refreshes_invalid_token
                (provider (JObj token_body) JNull profile_body)
                (fun _ => 9000000) sample_client 3%nat 2%nat stored_world
                (checked_world 9000000) ∅ 200 token_body) as [Hany Hown].
  split.
  - destruct (Hany stored_world)
      as (e1 & l & h1 & o & _ & _ & _ & _ & _ & Hrun);
      [vm_compute; reflexivity | vm_compute; reflexivity | reflexivity
      | intros; reflexivity | reflexivity |].
    exists e1, l, h1, o. exact Hrun.
  - destruct (Hown 200 profile_body (JStr "u1") (VStr "u1"))
      as (e1 & e2 & l & h1 & o & Hrun & _);
      [reflexivity | reflexivity | reflexivity | discriminate | by eexists
      | discriminate | reflexivity | reflexivity | discriminate
      | vm_compute; reflexivity | intros; reflexivity | intros; reflexivity
      | reflexivity | reflexivity | reflexivity | discriminate | discriminate
      | reflexivity |].
    eexists _, _. split; [exact Hrun |].
    assert (w_heap (World (alloc_json profile_body h1).2
                      (w_trace (checked_world 9000000)
                       ++ [e1; ENow 9000000; e2]))
            = w_heap (getUser (provider (JObj token_body) JNull profile_body)
                        (fun _ => 9000000) sample_client (VRef 3%nat)
                        stored_world).2) as -> by (by rewrite Hrun).
    split; vm_compute; reflexivity.
Defined.

(** ** The method of the refresh *)

(** C5 fails on the code.  The exchange of a code hands the transport
    options that set the method [POST]; the refresh hands it options that
    set none, so that the transport makes the call with the method it has
    by default.  The rest is as the specification says: the same address,
    the grant [refresh_token], the refresh token and no [code]. *)
Theorem refreshAccessToken_sets_no_method :
  requests (w_trace (getAccessToken (provider_says (JObj token_body)) ticking
                       sample_client (VStr "code") empty_world).2)
  = [("https://api.weibo.com/oauth2/access_token",
      TObj [("method", TLeaf (VStr "POST"));
            ("dataType", TLeaf (VStr "json"));
            ("data",
             TObj [("grant_type", TLeaf (VStr "authorization_code"));
                   ("code", TLeaf (VStr "code"));
                   ("client_secret", TLeaf (VStr "secret"));
                   ("client_id", TLeaf (VStr "id"));
                   ("redirect_uri", TLeaf (VStr "http://cb/x y"))])])]
  /\ requests (w_trace (refreshAccessToken
                          (provider_says (JObj token_body)) ticking
                          sample_client (VStr "RT") empty_world).2)
     = [("https://api.weibo.com/oauth2/access_token",
         TObj [("dataType", TLeaf (VStr "json"));
               ("data",
                TObj [("grant_type", TLeaf (VStr "refresh_token"));
                      ("client_secret", TLeaf (VStr "secret"));
                      ("client_id", TLeaf (VStr "id"));
                      ("refresh_token", TLeaf (VStr "RT"));
                      ("redirect_uri", TLeaf (VStr "http://cb/x y"))])])].
Proof. split; vm_compute; reflexivity. Qed.

(** ** The access token of the options *)

(** Two runs of [getUser] on worlds that differ in the [access_token] of
    the options object [lo] only.  The second world is the first where
    [lo.access_token] is [v]. *)
Section Hidden.
Variable transport : nat -> string -> tree -> response.
Variable clock : nat -> Z.
Variable lo : loc.
Variable v : value.

Definition hide (h : heap) : heap :=
  <[lo := <["access_token" := v]> (obj_at h lo)]> h.

(** No property of an object of the heap refers to [lo]. *)
Definition clean_value (x : value) : Prop := x <> VRef lo.
Definition clean_obj (o : obj) : Prop := forall k, o !! k <> Some (VRef lo).
Definition clean (h : heap) : Prop :=
  forall l o, h !! l = Some o -> clean_obj o.

(** The events of the two runs: the same clock reads and warnings, and
    calls of the transport with the same address and the same options, as
    the transport reads them. *)
Definition same_event (e e' : event) : Prop :=
  e' = e
  \/ exists url o h,
       e = EHttp url o h /\ e' = EHttp url o (hide h)
       /\ snapshot (hide h) (VRef o) = snapshot h (VRef o).

Record sim (w w' : world) : Prop := Sim {
  sim_heap : w_heap w' = hide (w_heap w);
  sim_trace : Forall2 same_event (w_trace w) (w_trace w')
}.

Record inv (w : world) : Prop := Inv {
  inv_alloc : is_Some (w_heap w !! lo);
  inv_clean : clean (w_heap w)
}.

(** The computation [m] does the same in the two worlds, and its result
    satisfies [P]. *)
Definition comm {A} (P : A -> Prop) (m : M A) : Prop :=
  forall w w', inv w -> sim w w' ->
    (m w').1 = (m w).1
    /\ sim (m w).2 (m w').2
    /\ inv (m w).2
    /\ forall a, (m w).1 = Ok a -> P a.

Definition any {A} : A -> Prop := fun _ => True.

Lemma comm_ret {A} (P : A -> Prop) (a : A) : P a -> comm P (ret a).
Proof.
  intros Ha w w' Hi Hs.
  split; [reflexivity | split; [exact Hs | split; [exact Hi |]]].
  cbn. by intros ? [= <-].
Qed.

Lemma comm_throw {A} (P : A -> Prop) (e : exn) : comm P (throw e).
Proof.
  intros w w' Hi Hs.
  split; [reflexivity | split; [exact Hs | split; [exact Hi | done]]].
Qed.

Lemma comm_unmodelled {A} (P : A -> Prop) : comm P unmodelled.
Proof.
  intros w w' Hi Hs.
  split; [reflexivity | split; [exact Hs | split; [exact Hi | done]]].
Qed.

Lemma comm_bind {A B} (P : A -> Prop) (Q : B -> Prop) (m : M A)
    (k : A -> M B) :
  comm P m -> (forall a, P a -> comm Q (k a)) -> comm Q (bind m k).
Proof.
  intros Hm Hk w w' Hi Hs. destruct (Hm w w' Hi Hs) as (Ho & Hs1 & Hi1 & HP).
  unfold bind.
  destruct (m w) as [[a | e |] w1], (m w') as [[a' | e' |] w1'];
    cbn [fst snd] in *; try discriminate.
  - injection Ho as ->. apply (Hk a (HP a eq_refl)); assumption.
  - injection Ho as ->.
    split; [reflexivity | split; [exact Hs1 | split; [exact Hi1 | done]]].
  - split; [reflexivity | split; [exact Hs1 | split; [exact Hi1 | done]]].
Qed.

Lemma comm_weaken {A} (P Q : A -> Prop) (m : M A) :
  (forall a, P a -> Q a) -> comm P m -> comm Q m.
Proof.
  intros HPQ Hm w w' Hi Hs. destruct (Hm w w' Hi Hs) as (Ho & Hs1 & Hi1 & HP).
  split; [exact Ho | split; [exact Hs1 | split; [exact Hi1 |]]].
  intros a Ha. by apply HPQ, HP.
Qed.

Lemma comm_catch_rethrow {A} (P : A -> Prop) (m : M A) (f : exn -> exn) :
  comm P m -> comm P (catch_rethrow m f).
Proof.
  intros Hm w w' Hi Hs. destruct (Hm w w' Hi Hs) as (Ho & Hs1 & Hi1 & HP).
  unfold catch_rethrow.
  destruct (m w) as [[a | e |] w1], (m w') as [[a' | e' |] w1'];
    cbn [fst snd] in *; try discriminate.
  - split; [exact Ho | split; [exact Hs1 | split; [exact Hi1 | exact HP]]].
  - injection Ho as ->.
    split; [reflexivity | split; [exact Hs1 | split; [exact Hi1 | done]]].
  - split; [exact Ho | split; [exact Hs1 | split; [exact Hi1 | done]]].
Qed.

(** *** The heap of the second run *)

Lemma hide_lookup_ne (h : heap) (l : loc) : l <> lo -> hide h !! l = h !! l.
Proof. intros Hl. unfold hide. by rewrite lookup_insert_ne. Qed.

Lemma hide_obj_ne (h : heap) (l : loc) :
  l <> lo -> obj_at (hide h) l = obj_at h l.
Proof. intros Hl. unfold obj_at. by rewrite hide_lookup_ne. Qed.

Lemma hide_obj_lo (h : heap) (k : string) :
  k <> "access_token" -> obj_at (hide h) lo !! k = obj_at h lo !! k.
Proof.
  intros Hk. unfold hide. rewrite obj_at_insert_eq.
  by rewrite lookup_insert_ne.
Qed.

Lemma hide_dom (h : heap) : is_Some (h !! lo) -> dom (hide h) = dom h.
Proof.
  intros Hlo. unfold hide. by apply dom_insert_lookup_L.
Qed.

Lemma hide_insert (h : heap) (l : loc) (o : obj) :
  l <> lo -> hide (<[l := o]> h) = <[l := o]> (hide h).
Proof.
  intros Hl. unfold hide. rewrite (obj_at_insert_ne h l lo o Hl).
  by apply insert_insert_ne.
Qed.

Lemma hide_top (h : heap) : is_Some (h !! lo) -> top (hide h) = top h.
Proof. intros Hlo. unfold top. by rewrite hide_dom. Qed.

Lemma top_ne (h : heap) : is_Some (h !! lo) -> top h <> lo.
Proof. apply fresh_heap_ne. Qed.

Lemma hide_size (h : heap) : is_Some (h !! lo) -> size (hide h) = size h.
Proof. intros Hlo. by rewrite <- !size_dom, hide_dom. Qed.

Lemma clean_obj_at (h : heap) (l : loc) : clean h -> clean_obj (obj_at h l).
Proof.
  intros Hc k. unfold obj_at. destruct (h !! l) as [o |] eqn:E.
  - by apply (Hc l o).
  - cbn. by rewrite lookup_empty.
Qed.

Lemma clean_field (h : heap) (l : loc) (k : string) :
  clean h -> clean_value (default VUndef (obj_at h l !! k)).
Proof.
  intros Hc. pose proof (clean_obj_at h l Hc k) as H.
  destruct (obj_at h l !! k) as [x |]; cbn; [| done].
  intros ->. by apply H.
Qed.

Lemma clean_insert (h : heap) (l : loc) (o : obj) :
  clean h -> clean_obj o -> clean (<[l := o]> h).
Proof.
  intros Hc Ho l' o' Hl'. destruct (decide (l' = l)) as [-> | Hne].
  - rewrite lookup_insert_eq in Hl'. by injection Hl' as <-.
  - rewrite lookup_insert_ne in Hl' by done. by apply (Hc l' o').
Qed.

Lemma clean_obj_insert (o : obj) (k : string) (x : value) :
  clean_obj o -> clean_value x -> clean_obj (<[k := x]> o).
Proof.
  intros Ho Hx k'. destruct (decide (k' = k)) as [-> | Hne].
  - rewrite lookup_insert_eq. intros [= E]. by apply Hx.
  - rewrite lookup_insert_ne by done. apply Ho.
Qed.

Lemma clean_obj_union (o1 o2 : obj) :
  clean_obj o1 -> clean_obj o2 -> clean_obj (o1 ∪ o2).
Proof.
  intros H1 H2 k E. apply lookup_union_Some_raw in E as [E | [_ E]].
  - by apply (H1 k).
  - by apply (H2 k).
Qed.

Lemma clean_obj_empty : clean_obj ∅.
Proof. intros k. by rewrite lookup_empty. Qed.

Lemma clean_obj_list (kvs : list (string * value)) :
  Forall (fun kv => clean_value kv.2) kvs ->
  clean_obj (list_to_map kvs).
Proof.
  induction 1 as [| [k x] kvs Hx _ IH]; [apply clean_obj_empty |].
  cbn [list_to_map foldr]. by apply clean_obj_insert.
Qed.

(** What the transport reads does not reach [lo]. *)
Lemma snap_hide (n : nat) (h : heap) (x : value) :
  clean h -> clean_value x -> snap n (hide h) x = snap n h x.
Proof.
  intros Hc. revert x. induction n as [| n IH]; intros x Hx.
  - by destruct x.
  - destruct x as [| | | | | l]; try reflexivity.
    cbn [snap]. assert (l <> lo) as Hl by (intros ->; by apply Hx).
    rewrite (hide_obj_ne h l Hl). f_equal.
    apply map_ext_in. intros [k y] Hin. cbn [fst snd]. f_equal.
    apply IH. intros ->.
    apply (clean_obj_at h l Hc k).
    apply elem_of_map_to_list, list_elem_of_In. exact Hin.
Qed.

Lemma snapshot_hide (h : heap) (x : value) :
  is_Some (h !! lo) -> clean h -> clean_value x ->
  snapshot (hide h) x = snapshot h x.
Proof.
  intros Hlo Hc Hx. unfold snapshot. rewrite (hide_size h Hlo).
  by apply snap_hide.
Qed.

Lemma same_event_requests (tr tr' : list event) :
  Forall2 same_event tr tr' -> requests tr' = requests tr.
Proof.
  induction 1 as [| e e' tr tr' He _ IH]; [reflexivity |].
  unfold requests in *. cbn [omap list_omap]. rewrite IH.
  destruct He as [-> | (url & o & h & -> & -> & Hs)]; [reflexivity |].
  cbn [observe]. by rewrite Hs.
Qed.

Lemma same_event_refl (tr : list event) : Forall2 same_event tr tr.
Proof. induction tr; constructor; [by left | done]. Qed.

(** *** The operations *)

Lemma sim_length (w w' : world) :
  sim w w' -> length (w_trace w') = length (w_trace w).
Proof. intros [_ H]. symmetry. by apply Forall2_length in H. Qed.

Lemma comm_alloc (o : obj) :
  clean_obj o -> comm (fun l => l <> lo) (alloc o).
Proof.
  intros Ho [h tr] [h' tr'] [Hlo Hc] [Hh Ht]. cbn [w_heap w_trace] in *.
  subst h'. unfold alloc. cbn [fst snd w_heap w_trace].
  rewrite (hide_dom h Hlo).
  pose proof (fresh_heap_ne h lo Hlo) as Hne.
  split; [reflexivity |]. split; [| split].
  - split; cbn [w_heap w_trace]; [by rewrite hide_insert | done].
  - split; cbn [w_heap].
    + destruct Hlo as [x Hx]. exists x. by rewrite lookup_insert_ne.
    + by apply clean_insert.
  - by intros a [= <-].
Qed.

Lemma comm_get_field (x : value) (k : string) :
  (clean_value x \/ k <> "access_token") ->
  comm clean_value (get_field x k).
Proof.
  intros Hx [h tr] [h' tr'] [Hlo Hc] [Hh Ht]. cbn [w_heap w_trace] in *.
  subst h'. unfold get_field.
  destruct x as [| | | | | l]; cbn [fst snd w_heap].
  1-5: (split; [reflexivity | split; [done | split; [done |]]];
        try done; by intros a [= <-]).
  assert (obj_at (hide h) l !! k = obj_at h l !! k) as ->.
  { destruct (decide (l = lo)) as [-> | Hne].
    - destruct Hx as [Hx | Hk]; [by destruct Hx |]. by apply hide_obj_lo.
    - by rewrite hide_obj_ne. }
  split; [reflexivity | split; [done | split; [done |]]].
  intros a [= <-]. by apply clean_field.
Qed.

Lemma comm_set_field (y : value) (k : string) (x : value) :
  clean_value y -> clean_value x -> comm any (set_field y k x).
Proof.
  intros Hy Hx [h tr] [h' tr'] [Hlo Hc] [Hh Ht]. cbn [w_heap w_trace] in *.
  subst h'. unfold set_field.
  destruct y as [| | | | | l]; cbn [fst snd w_heap w_trace];
    try (split; [reflexivity | split; [done | split; [done | done]]]).
  assert (l <> lo) as Hl by (intros ->; by apply Hy).
  rewrite (hide_obj_ne h l Hl).
  split; [reflexivity |]. split; [| split; [| done]].
  - split; cbn [w_heap w_trace]; [by rewrite hide_insert | done].
  - split; cbn [w_heap].
    + destruct Hlo as [o Ho]. exists o. by rewrite lookup_insert_ne.
    + apply clean_insert; [done |].
      apply clean_obj_insert; [by apply clean_obj_at | done].
Qed.

Lemma comm_extend (t s : loc) :
  t <> lo -> s <> lo -> comm any (extend t s).
Proof.
  intros Ht Hs [h tr] [h' tr'] [Hlo Hc] [Hh Htr]. cbn [w_heap w_trace] in *.
  subst h'. unfold extend. cbn [fst snd w_heap w_trace].
  rewrite (hide_obj_ne h t Ht), (hide_obj_ne h s Hs).
  split; [reflexivity |]. split; [| split; [| done]].
  - split; cbn [w_heap w_trace]; [by rewrite hide_insert | done].
  - split; cbn [w_heap].
    + destruct Hlo as [o Ho]. exists o. by rewrite lookup_insert_ne.
    + apply clean_insert; [done |].
      apply clean_obj_union; by apply clean_obj_at.
Qed.

Lemma comm_own_keys (l : loc) : l <> lo -> comm any (own_keys l).
Proof.
  intros Hl [h tr] [h' tr'] [Hlo Hc] [Hh Htr]. cbn [w_heap w_trace] in *.
  subst h'. unfold own_keys. cbn [fst snd w_heap].
  rewrite (hide_obj_ne h l Hl).
  split; [reflexivity | split; [done | split; [done | done]]].
Qed.

Lemma comm_for_each {A} (xs : list A) (body : A -> M unit) :
  (forall x, comm any (body x)) -> comm any (for_each xs body).
Proof.
  intros Hb. induction xs as [| x xs IH]; cbn [for_each].
  - by apply comm_ret.
  - apply (comm_bind any); [apply Hb | intros _ _; exact IH].
Qed.

Lemma comm_to_string (x : value) : clean_value x -> comm any (to_string x).
Proof.
  intros Hx [h tr] [h' tr'] [Hlo Hc] [Hh Htr]. cbn [w_heap w_trace] in *.
  subst h'. unfold to_string.
  destruct x as [| | | | | l]; cbn [fst snd w_heap];
    try (split; [reflexivity | split; [done | split; [done | done]]]).
  assert (l <> lo) as Hl by (intros ->; by apply Hx).
  rewrite (hide_obj_ne h l Hl).
  destruct (obj_at h l !! "toString");
    (split; [reflexivity | split; [done | split; [done | done]]]).
Qed.

Lemma comm_new_Error (x : value) : clean_value x -> comm any (new_Error x).
Proof.
  intros Hx. unfold new_Error.
  destruct x; try (by apply comm_ret);
    (apply (comm_bind any); [by apply comm_to_string |
                             intros; by apply comm_ret]).
Qed.

Lemma comm_now : comm any (now clock).
Proof.
  intros w w' Hi Hs. unfold now. cbn [fst snd].
  rewrite (sim_length w w' Hs). destruct Hs as [Hh Ht], Hi as [Hlo Hc].
  split; [reflexivity |]. split; [| split; [| done]].
  - split; cbn [w_heap w_trace]; [done |].
    apply Forall2_app; [done |]. constructor; [by left | constructor].
  - split; cbn [w_heap]; done.
Qed.

Lemma comm_requestThunk (url : string) (options : loc) :
  options <> lo -> comm any (requestThunk transport url options).
Proof.
  intros Ho w w' Hi Hs. unfold requestThunk.
  rewrite (sim_length w w' Hs). destruct Hs as [Hh Ht], Hi as [Hlo Hc].
  rewrite Hh.
  assert (snapshot (hide (w_heap w)) (VRef options)
          = snapshot (w_heap w) (VRef options)) as Hsnap.
  { apply snapshot_hide; [done | done |]. intros [= E]. by apply Ho. }
  rewrite Hsnap.
  assert (sim (World (w_heap w)
                 (w_trace w ++ [EHttp url options (w_heap w)]))
              (World (hide (w_heap w))
                 (w_trace w' ++ [EHttp url options (hide (w_heap w))])))
    as Hs'.
  { split; cbn [w_heap w_trace]; [done |].
    apply Forall2_app; [done |]. constructor; [| constructor].
    right. by eexists _, _, _. }
  destruct (transport _ _ _) as [e | st body]; cbn [fst snd];
    (split; [reflexivity | split; [exact Hs' | split; [by split | done]]]).
Qed.

(** Decoding allocates the same objects in the two heaps, and none refers
    to [lo]. *)
Lemma alloc_fields_hide (kvs : list (string * json)) :
  Forall (fun kv => forall h, is_Some (h !! lo) ->
            alloc_json kv.2 (hide h)
            = ((alloc_json kv.2 h).1, hide (alloc_json kv.2 h).2)) kvs ->
  forall acc h, is_Some (h !! lo) ->
    alloc_fields alloc_json acc kvs (hide h)
    = ((alloc_fields alloc_json acc kvs h).1,
       hide (alloc_fields alloc_json acc kvs h).2).
Proof.
  induction 1 as [| kv kvs Hkv _ IH]; intros acc h Hlo; [reflexivity |].
  cbn [alloc_fields]. rewrite (Hkv h Hlo).
  pose proof (alloc_json_extends kv.2 h) as Hext.
  destruct (alloc_json kv.2 h) as [x h1]. cbn [fst snd] in *.
  apply IH. by apply (is_Some_weaken h).
Qed.

Lemma alloc_json_hide (j : json) (h : heap) :
  is_Some (h !! lo) ->
  alloc_json j (hide h) = ((alloc_json j h).1, hide (alloc_json j h).2).
Proof.
  revert h. induction j as [| b | z | s | kvs IH] using json_nested_ind;
    intros h Hlo; try reflexivity.
  rewrite !alloc_json_obj. rewrite (alloc_fields_hide kvs IH ∅ h Hlo).
  cbn [fst snd].
  pose proof (alloc_fields_extends kvs
                (proj2 (Forall_forall _ _)
                   (fun kv _ h => alloc_json_extends kv.2 h)) ∅ h) as Hext.
  set (hd := (alloc_fields alloc_json ∅ kvs h).2) in *.
  assert (is_Some (hd !! lo)) as Hlo' by (by apply (is_Some_weaken h)).
  rewrite (hide_dom hd Hlo'). f_equal.
  symmetry. apply hide_insert. by apply fresh_heap_ne.
Qed.

Lemma alloc_fields_clean (kvs : list (string * json)) :
  Forall (fun kv => forall h, is_Some (h !! lo) -> clean h ->
            clean_value (alloc_json kv.2 h).1
            /\ clean (alloc_json kv.2 h).2) kvs ->
  forall acc h, is_Some (h !! lo) -> clean h -> clean_obj acc ->
    clean_obj (alloc_fields alloc_json acc kvs h).1
    /\ clean (alloc_fields alloc_json acc kvs h).2.
Proof.
  induction 1 as [| kv kvs Hkv _ IH]; intros acc h Hlo Hc Ha; [done |].
  cbn [alloc_fields]. destruct (Hkv h Hlo Hc) as [Hx Hc1].
  pose proof (alloc_json_extends kv.2 h) as Hext.
  destruct (alloc_json kv.2 h) as [x h1]. cbn [fst snd] in *.
  apply IH; [by apply (is_Some_weaken h) | done |].
  by apply clean_obj_insert.
Qed.

Lemma alloc_json_clean (j : json) (h : heap) :
  is_Some (h !! lo) -> clean h ->
  clean_value (alloc_json j h).1 /\ clean (alloc_json j h).2.
Proof.
  revert h. induction j as [| b | z | s | kvs IH] using json_nested_ind;
    intros h Hlo Hc; try (split; [discriminate | exact Hc]).
  rewrite alloc_json_obj. cbn [fst snd].
  destruct (alloc_fields_clean kvs IH ∅ h Hlo Hc clean_obj_empty)
    as [Ho Hc'].
  pose proof (alloc_fields_extends kvs
                (proj2 (Forall_forall _ _)
                   (fun kv _ h => alloc_json_extends kv.2 h)) ∅ h) as Hext.
  set (hd := (alloc_fields alloc_json ∅ kvs h).2) in *.
  assert (is_Some (hd !! lo)) as Hlo' by (by apply (is_Some_weaken h)).
  split.
  - intros [= E]. by apply (fresh_heap_ne hd lo Hlo').
  - by apply clean_insert.
Qed.

Lemma comm_decode (j : json) : comm clean_value (decode j).
Proof.
  intros [h tr] [h' tr'] [Hlo Hc] [Hh Ht]. cbn [w_heap w_trace] in *.
  subst h'. unfold decode. cbn [w_heap w_trace].
  rewrite (alloc_json_hide j h Hlo).
  destruct (alloc_json_clean j h Hlo Hc) as [Hx Hc'].
  pose proof (alloc_json_extends j h) as Hext.
  destruct (alloc_json j h) as [x h1]. cbn [fst snd] in *.
  split; [reflexivity |]. split; [by split | split; [split |]].
  - by apply (is_Some_weaken h).
  - done.
  - by intros a [= <-].
Qed.

Lemma comm_get_index (st : loc) (k : string) :
  st <> lo -> comm clean_value (get_index st k).
Proof.
  intros Hst [h tr] [h' tr'] [Hlo Hc] [Hh Ht]. cbn [w_heap w_trace] in *.
  subst h'. unfold get_index. cbn [w_heap].
  rewrite (hide_obj_ne h st Hst).
  destruct (String.eqb k "__proto__");
    [split; [reflexivity | split; [done | split; [done | done]]] |].
  pose proof (clean_obj_at h st Hc k) as Hk.
  destruct (obj_at h st !! k) as [x |].
  - split; [reflexivity | split; [done | split; [done |]]].
    intros a [= <-]. intros ->. by apply Hk.
  - destruct (bool_decide _);
      (split; [reflexivity | split; [done | split; [done |]]]); [done |].
    by intros a [= <-].
Qed.

Lemma comm_set_index (st : loc) (k : string) (x : value) :
  st <> lo -> clean_value x -> comm any (set_index st k x).
Proof.
  intros Hst Hx. unfold set_index. destruct (String.eqb k "__proto__").
  - apply comm_unmodelled.
  - apply comm_set_field; [| done]. intros [= E]. by apply Hst.
Qed.

(** *** The operations of the client *)

Lemma clean_ref (l : loc) : l <> lo -> clean_value (VRef l).
Proof. intros Hl [= E]. by apply Hl. Qed.

Lemma clean_ref_ne (l : loc) : clean_value (VRef l) -> l <> lo.
Proof. intros Hl ->. by apply Hl. Qed.

Lemma comm_check_error (d : value) :
  clean_value d -> comm clean_value (check_error d).
Proof.
  intros Hd. unfold check_error.
  eapply comm_bind; [apply comm_get_field; by left | intros e He].
  destruct (truthy e); [| by apply comm_ret].
  eapply comm_bind; [apply comm_get_field; by left | intros desc Hdesc].
  eapply comm_bind; [by apply comm_new_Error | intros err _].
  eapply comm_bind; [apply comm_get_field; by left | intros code Hcode].
  apply comm_throw.
Qed.

Lemma comm_extend_headers (opts : loc) (target source : value) :
  clean_value target -> clean_value source ->
  comm any (extend_headers opts target source).
Proof.
  intros Ht Hs. unfold extend_headers.
  destruct target as [| | | | | lt]; try apply comm_unmodelled.
  destruct source as [| | | | | ls]; try apply comm_unmodelled.
  destruct (bool_decide _); [apply comm_unmodelled |].
  apply comm_extend; by apply clean_ref_ne.
Qed.

Lemma comm_merge_key (options opts : loc) (key : string) :
  options <> lo -> opts <> lo -> comm any (merge_key options opts key).
Proof.
  intros Ho Hp. unfold merge_key.
  destruct (negb (String.eqb key "headers")).
  - destruct (String.eqb key "__proto__"); [apply comm_unmodelled |].
    eapply comm_bind;
      [apply comm_get_field; left; by apply clean_ref | intros x Hx].
    apply comm_set_field; [by apply clean_ref | done].
  - eapply comm_bind;
      [apply comm_get_field; left; by apply clean_ref | intros hd Hhd].
    destruct (truthy hd); [| by apply comm_ret].
    eapply comm_bind;
      [apply comm_get_field; left; by apply clean_ref | intros cur Hcur].
    eapply (comm_bind clean_value).
    { destruct (truthy cur); [by apply comm_ret |].
      eapply comm_bind; [apply comm_alloc, clean_obj_empty | intros l Hl].
      apply comm_ret. by apply clean_ref. }
    intros foc Hfoc.
    eapply comm_bind;
      [apply comm_set_field; [by apply clean_ref | done] | intros _ _].
    eapply comm_bind;
      [apply comm_get_field; left; by apply clean_ref | intros tg Htg].
    eapply comm_bind;
      [apply comm_get_field; left; by apply clean_ref | intros sc Hsc].
    by apply comm_extend_headers.
Qed.

(** The client holds no reference to [lo], and its store is the one of the
    constructor. *)
Record clean_client (c : client) : Prop := CleanClient {
  cc_id : clean_value (clientId c);
  cc_secret : clean_value (clientSecret c);
  cc_redirect : clean_value (redirectUri c);
  cc_store : store c <> lo;
  cc_defaults : defaults c <> lo;
  cc_get : getToken c = default_getToken (store c);
  cc_save : saveToken c = default_saveToken (store c)
}.

Section Client.
Variable c : client.
Hypothesis Hc : clean_client c.

Lemma comm_merge_options (opts : option loc) :
  (forall l, opts = Some l -> l <> lo) ->
  comm (fun l => l <> lo) (merge_options c opts).
Proof.
  intros Hopts. unfold merge_options.
  eapply comm_bind; [apply comm_alloc, clean_obj_empty | intros options Ho].
  eapply comm_bind;
    [apply comm_extend; [done | apply (cc_defaults c Hc)] | intros _ _].
  eapply (comm_bind (fun l => l <> lo)).
  { destruct opts as [l |]; [apply comm_ret; by apply Hopts |].
    apply comm_alloc, clean_obj_empty. }
  intros l Hl.
  eapply comm_bind; [by apply comm_own_keys | intros keys _].
  eapply comm_bind;
    [apply comm_for_each; intros key; by apply comm_merge_key | intros _ _].
  by apply comm_ret.
Qed.

Lemma comm_request (url : string) (opts : option loc) :
  (forall l, opts = Some l -> l <> lo) ->
  comm clean_value (request transport c url opts).
Proof.
  intros Hopts. unfold request.
  eapply comm_bind; [by apply comm_merge_options | intros options Ho].
  eapply comm_bind;
    [apply comm_catch_rethrow; by apply comm_requestThunk | intros r _].
  eapply comm_bind; [apply comm_decode | intros d Hd].
  by apply comm_check_error.
Qed.

Lemma comm_isValid (d : value) :
  clean_value d -> comm any (isValid clock (mkAccessToken d)).
Proof.
  intros Hd. unfold isValid. cbn [data].
  eapply comm_bind; [apply comm_get_field; by left | intros a Ha].
  destruct (truthy a); [| by apply comm_ret].
  eapply comm_bind; [apply comm_now | intros t _].
  eapply comm_bind; [apply comm_get_field; by left | intros x Hx].
  eapply comm_bind; [apply comm_get_field; by left | intros y Hy].
  destruct (expiry x y); [by apply comm_ret | apply comm_unmodelled].
Qed.

Lemma comm_getToken (uid : value) :
  clean_value uid -> comm clean_value (getToken c uid).
Proof.
  intros Hu. rewrite (cc_get c Hc). unfold default_getToken.
  eapply comm_bind; [by apply comm_to_string | intros k _].
  apply comm_get_index, (cc_store c Hc).
Qed.

Lemma comm_saveToken (uid token : value) :
  clean_value uid -> clean_value token -> comm any (saveToken c uid token).
Proof.
  intros Hu Ht. rewrite (cc_save c Hc). unfold default_saveToken.
  eapply comm_bind; [by apply comm_to_string | intros k _].
  apply comm_set_index; [apply (cc_store c Hc) | done].
Qed.

Lemma comm_processToken (d : value) :
  clean_value d ->
  comm (fun tok => clean_value (data tok)) (processToken clock c d).
Proof.
  intros Hd. unfold processToken.
  eapply comm_bind; [apply comm_now | intros t _].
  eapply comm_bind; [by apply comm_set_field | intros _ _].
  eapply comm_bind; [apply comm_get_field; by left | intros uid Hu].
  eapply comm_bind; [by apply comm_saveToken | intros _ _].
  by apply comm_ret.
Qed.

Lemma comm_refreshAccessToken (refreshToken : value) :
  clean_value refreshToken ->
  comm (fun tok => clean_value (data tok))
    (refreshAccessToken transport clock c refreshToken).
Proof.
  intros Hr. unfold refreshAccessToken.
  eapply comm_bind.
  { apply comm_alloc, clean_obj_list.
    repeat constructor; cbn [snd];
      [apply (cc_id c Hc) | apply (cc_secret c Hc) | discriminate
      | apply (cc_redirect c Hc) | exact Hr]. }
  intros info Hinfo.
  eapply comm_bind.
  { apply comm_alloc, clean_obj_list.
    repeat constructor; cbn [snd]; [by apply clean_ref | discriminate]. }
  intros args Hargs.
  eapply comm_bind;
    [apply comm_request; by intros l [= <-] | intros d Hd].
  by apply comm_processToken.
Qed.

Lemma clean_js_or (x y : value) :
  clean_value x -> clean_value y -> clean_value (js_or x y).
Proof. intros Hx Hy. unfold js_or. by destruct (truthy x). Qed.

(** The options may be [lo] itself: [_getUser] reads its [uid] and its
    [lang]. *)
Lemma comm__getUser (options accessToken : value) :
  clean_value accessToken ->
  comm clean_value (_getUser transport c options accessToken).
Proof.
  intros Ha. unfold _getUser.
  eapply comm_bind; [apply comm_get_field; by right | intros uid Hu].
  eapply comm_bind; [apply comm_get_field; by right | intros lang Hl].
  eapply comm_bind.
  { apply comm_alloc, clean_obj_list.
    repeat constructor; cbn [snd]; [done | done |].
    by apply clean_js_or. }
  intros info Hinfo.
  eapply comm_bind.
  { apply comm_alloc, clean_obj_list.
    repeat constructor; cbn [snd]; [by apply clean_ref | discriminate]. }
  intros args Hargs.
  apply comm_request. by intros l [= <-].
Qed.

Lemma comm_getUser_options (l : loc) :
  comm clean_value (getUser transport clock c (VRef l)).
Proof.
  unfold getUser. cbn [typeof_object negb].
  eapply (comm_bind (fun x => x = VRef l));
    [by apply comm_ret | intros ? ->].
  eapply comm_bind; [apply comm_get_field; by right | intros uid Hu].
  eapply comm_bind; [by apply comm_getToken | intros d Hd].
  destruct (negb (truthy d)).
  - eapply comm_bind; [apply comm_get_field; by right | intros uid' Hu'].
    eapply comm_bind; [by apply comm_to_string | intros k _].
    eapply comm_bind; [apply comm_new_Error; discriminate | intros err _].
    apply comm_throw.
  - cbn [data].
    eapply comm_bind; [by apply comm_isValid | intros valid _].
    eapply (comm_bind clean_value).
    { destruct valid; [apply comm_get_field; by left |].
      eapply comm_bind; [apply comm_get_field; by left | intros rt Hrt].
      eapply comm_bind; [by apply comm_refreshAccessToken | intros tok Htok].
      apply comm_get_field; by left. }
    intros a Ha. by apply comm__getUser.
Qed.
End Client.
End Hidden.

(** C10. Two runs of [getUser] on an options object [lo], in two worlds
    that differ in the [access_token] of [lo] only: the second is the first
    where [lo.access_token] is [v].  The runs have the same outcome (the
    same value returned, the same error thrown), hand the transport the same
    requests, and leave heaps that again differ in the [access_token] of
    [lo] only.  The store is the one of the constructor, and the options
    object is private to the call: no property of an object of the heap
    refers to it, and it is neither the store, nor the default options, nor
    one of the credentials of the client. *)
Theorem getUser_ignores_options_access_token
    (transport : nat -> string -> tree -> response) (clock : nat -> Z)
    (c : client) (lo : loc) (v : value) (w : world) :
  getToken c = default_getToken (store c) ->
  saveToken c = default_saveToken (store c) ->
  store c <> lo ->
  defaults c <> lo ->
  clientId c <> VRef lo ->
  clientSecret c <> VRef lo ->
  redirectUri c <> VRef lo ->
  is_Some (w_heap w !! lo) ->
  map_Forall (fun _ o => map_Forall (fun _ x => x <> VRef lo) o) (w_heap w) ->
  let w' := World (hide lo v (w_heap w)) (w_trace w) in
  let run := getUser transport clock c (VRef lo) w in
  let run' := getUser transport clock c (VRef lo) w' in
  run'.1 = run.1
  /\ requests (w_trace run'.2) = requests (w_trace run.2)
  /\ w_heap run'.2 = hide lo v (w_heap run.2).
Proof.
  intros Hget Hsave Hst Hdf Hid Hsec Hred Hlo Hclean w' run run'.
  assert (clean_client lo c) as Hc by (by constructor).
  assert (inv lo w) as Hi.
  { split; [exact Hlo |]. intros l o Hl k Hk.
    exact (Hclean l o Hl k (VRef lo) Hk eq_refl). }
  assert (sim lo v w w') as Hs.
  { split; [reflexivity | apply same_event_refl]. }
  destruct (comm_getUser_options transport clock lo v c Hc lo w w' Hi Hs)
    as (Ho & [Hh Ht] & _).
  split; [exact Ho |]. split; [| exact Hh].
  by apply (same_event_requests lo v).
Qed.

(** The options of [stored_world], with an access token of their own and
    without. *)
Lemma getUser_ignores_options_access_token_witness :
  let w' := World (hide 3%nat (VStr "mine") (w_heap stored_world)) [] in
  obj_at (w_heap w') 3%nat !! "access_token" = Some (VStr "mine")
  /\ obj_at (w_heap stored_world) 3%nat !! "access_token" = None
  /\ (getUser (provider (JObj token_body) JNull profile_body) ticking
        sample_client (VRef 3%nat) w').1
     = (getUser (provider (JObj token_body) JNull profile_body) ticking
          sample_client (VRef 3%nat) stored_world).1.
Proof.
  cbv zeta. split; [reflexivity |]. split; [reflexivity |].
  apply (getUser_ignores_options_access_token
           (provider (JObj token_body) JNull profile_body) ticking
           sample_client 3%nat (VStr "mine") stored_world);
    try reflexivity; try discriminate.
  - by eexists.
  - apply (bool_decide_unpack _). vm_compute. exact I.
Defined.
